(** * ai-library: the recommendation client and the book search service

    A shallow embedding of [src/services/aiService.ts] and
    [src/services/bookService.ts], and the properties of the search
    pipeline that the design document states about them.

    Conventions of the embedding.
    - A JavaScript string is its sequence of UTF-16 code units, a
      [list N].  [js "..."] turns an ASCII literal into such a list.
      Case mapping is defined for code units up to U+00FF.
    - The two regular expressions of the services are terms of a small
      backtracking matcher, and [JSON.parse] is a parser on code units.
    - [async] functions are computations in the monad [M]: they read
      and change a [World] (clock, recommendation cache, log of the
      HTTP requests issued so far) and either return or throw.
    - The remote services are an oracle ([Transport]) that answers each
      request from the world in which it is issued; a failed or timed
      out request is the answer [None].  An answer is a record of the
      fields that the code reads; the text that the language model
      writes is an arbitrary string, and what [JSON.parse] makes of it
      an arbitrary JSON value.
    - [Promise.all] runs its tasks one after another in list order, so
      the request log records which requests are issued, not the order
      in which overlapping tasks issue them. *)

From Stdlib Require Import ZArith NArith Bool Lia.
From Stdlib Require Import Strings.String Strings.Ascii.
From stdpp Require Import base option list gmap.

Local Open Scope N_scope.
Set Warnings "-register-all".

(** ** JavaScript strings *)

Module JsString.

Definition code_unit := N.
Abbreviation jsstring := (list N).

(** An ASCII literal as a list of code units. *)
Definition js (s : string) : jsstring :=
  List.map N_of_ascii (list_ascii_of_string s).

(** A literal in which each apostrophe stands for a double quote, for
    texts that contain quoted strings. *)
Definition jsq (s : string) : jsstring :=
  List.map (fun c => if c =? 39 then 34 else c) (js s).

(** WhiteSpace and LineTerminator code points of ECMAScript: what
    [String.prototype.trim] strips and what [\s] matches. *)
Definition is_whitespace (c : N) : bool :=
  ((9 <=? c) && (c <=? 13)) || (c =? 32) || (c =? 160) || (c =? 5760)
  || ((8192 <=? c) && (c <=? 8202)) || (c =? 8232) || (c =? 8233)
  || (c =? 8239) || (c =? 8287) || (c =? 12288) || (c =? 65279).

(** LineTerminator: what [.] does not match. *)
Definition is_line_terminator (c : N) : bool :=
  (c =? 10) || (c =? 13) || (c =? 8232) || (c =? 8233).

(** [\w] is [[A-Za-z0-9_]]. *)
Definition is_word (c : N) : bool :=
  ((65 <=? c) && (c <=? 90)) || ((97 <=? c) && (c <=? 122))
  || ((48 <=? c) && (c <=? 57)) || (c =? 95).

Fixpoint trimStart (s : jsstring) : jsstring :=
  match s with
  | c :: s' => if is_whitespace c then trimStart s' else s
  | [] => []
  end.

Definition trimEnd (s : jsstring) : jsstring := rev (trimStart (rev s)).

Definition trim (s : jsstring) : jsstring := trimEnd (trimStart s).

(** Lower case of one code unit.  The mapping covers Basic Latin and
    the Latin-1 Supplement; code units above U+00FF are left as they
    are, which is what [toLowerCase] does to every character above
    U+00FF that has no lower-case form of its own (lower-case letters
    such as U+0131, digits, punctuation, ideographs). *)
Definition lower_unit (c : N) : N :=
  if ((65 <=? c) && (c <=? 90))
     || ((192 <=? c) && (c <=? 222) && negb (c =? 215))
  then c + 32 else c.

Definition toLowerCase (s : jsstring) : jsstring := List.map lower_unit s.

Fixpoint startsWith (p s : jsstring) : bool :=
  match p, s with
  | [], _ => true
  | a :: p', b :: s' => (a =? b) && startsWith p' s'
  | _ :: _, [] => false
  end.

Fixpoint includes (p s : jsstring) : bool :=
  startsWith p s ||
  match s with
  | [] => false
  | _ :: s' => includes p s'
  end.

Definition endsWith (p s : jsstring) : bool :=
  startsWith (rev p) (rev s).

(** [s.substring(0, n)] *)
Definition substring0 (n : nat) (s : jsstring) : jsstring := take n s.

(** [s.split(sep)] for a separator of one code unit. *)
Fixpoint split (sep : N) (s : jsstring) : list jsstring :=
  match s with
  | [] => [[]]
  | c :: s' =>
      if c =? sep then [] :: split sep s'
      else match split sep s' with
           | p :: ps => (c :: p) :: ps
           | [] => [[c]]
           end
  end.

(** Decimal digits of a number, as a template literal prints a
    non-negative integer below 10^21. *)
Fixpoint digits_fuel (fuel : nat) (n : N) (acc : jsstring) : jsstring :=
  match fuel with
  | O => acc
  | S f =>
      let acc' := (48 + n mod 10) :: acc in
      if n <? 10 then acc' else digits_fuel f (n / 10) acc'
  end.

Definition number_to_string (n : N) : jsstring :=
  digits_fuel (S (N.to_nat (N.log2 n))) n [].

(** *** encodeURIComponent *)

Definition is_uri_unreserved (c : N) : bool :=
  ((65 <=? c) && (c <=? 90)) || ((97 <=? c) && (c <=? 122))
  || ((48 <=? c) && (c <=? 57))
  || (c =? 45) || (c =? 95) || (c =? 46) || (c =? 33) || (c =? 126)
  || (c =? 42) || (c =? 39) || (c =? 40) || (c =? 41).

Definition hex_digit (d : N) : N :=
  if d <? 10 then 48 + d else 55 + d.

Definition percent_byte (b : N) : jsstring :=
  [37; hex_digit (b / 16); hex_digit (b mod 16)].

(** UTF-8 octets of a code point. *)
Definition utf8_octets (cp : N) : list N :=
  if cp <? 128 then [cp]
  else if cp <? 2048 then [192 + cp / 64; 128 + cp mod 64]
  else if cp <? 65536 then
    [224 + cp / 4096; 128 + (cp / 64) mod 64; 128 + cp mod 64]
  else
    [240 + cp / 262144; 128 + (cp / 4096) mod 64;
     128 + (cp / 64) mod 64; 128 + cp mod 64].

Definition is_high_surrogate (c : N) : bool := (55296 <=? c) && (c <=? 56319).
Definition is_low_surrogate (c : N) : bool := (56320 <=? c) && (c <=? 57343).

(** [None] is the [URIError] that [encodeURIComponent] throws on a
    surrogate code unit that is not part of a pair. *)
Fixpoint encodeURIComponent (s : jsstring) : option jsstring :=
  match s with
  | [] => Some []
  | c :: s' =>
      if is_uri_unreserved c then cons c <$> encodeURIComponent s'
      else if is_low_surrogate c then None
      else if is_high_surrogate c then
        match s' with
        | d :: s'' =>
            if is_low_surrogate d then
              let cp := (c - 55296) * 1024 + (d - 56320) + 65536 in
              app (flat_map percent_byte (utf8_octets cp))
                <$> encodeURIComponent s''
            else None
        | [] => None
        end
      else app (flat_map percent_byte (utf8_octets c)) <$> encodeURIComponent s'
  end.

End JsString.
Import JsString.

(** ** Regular expressions

    A backtracking matcher for the fragment of ECMAScript regular
    expressions that the services use: classes of one code unit,
    sequence, greedy option, greedy and lazy repetition of a class,
    capture groups and the two anchors.  A continuation receives the
    position reached, the rest of the input and the captures so far;
    returning [None] makes the matcher backtrack. *)

Module Regex.

Inductive regex : Type :=
  | Eps
  | Class (p : N -> bool)
  | Seq (r1 r2 : regex)
  | Opt (r : regex)
  | Star (greedy : bool) (p : N -> bool)
  | Group (r : regex)
  | Bol
  | Eol.

Definition cont (R : Type) : Type := nat -> jsstring -> list jsstring -> option R.

Fixpoint star_greedy {R} (p : N -> bool) (i : nat) (s : jsstring)
    (caps : list jsstring) (k : cont R) : option R :=
  match s with
  | c :: s' =>
      if p c then
        match star_greedy p (S i) s' caps k with
        | Some x => Some x
        | None => k i s caps
        end
      else k i s caps
  | [] => k i s caps
  end.

Fixpoint star_lazy {R} (p : N -> bool) (i : nat) (s : jsstring)
    (caps : list jsstring) (k : cont R) : option R :=
  match k i s caps with
  | Some x => Some x
  | None =>
      match s with
      | c :: s' => if p c then star_lazy p (S i) s' caps k else None
      | [] => None
      end
  end.

Fixpoint rmatch {R} (r : regex) (i : nat) (s : jsstring)
    (caps : list jsstring) (k : cont R) : option R :=
  match r with
  | Eps => k i s caps
  | Class p =>
      match s with
      | c :: s' => if p c then k (S i) s' caps else None
      | [] => None
      end
  | Seq r1 r2 => rmatch r1 i s caps (fun i' s' caps' => rmatch r2 i' s' caps' k)
  | Opt r1 =>
      match rmatch r1 i s caps k with
      | Some x => Some x
      | None => k i s caps
      end
  | Star true p => star_greedy p i s caps k
  | Star false p => star_lazy p i s caps k
  | Group r1 =>
      rmatch r1 i s caps (fun i' s' caps' => k i' s' (caps' ++ [take (i' - i) s]))
  | Bol => if Nat.eqb i 0 then k i s caps else None
  | Eol => match s with [] => k i s caps | _ :: _ => None end
  end.

(** The continuation at the end of the pattern: the match is found. *)
Definition accept : cont (list jsstring) := fun _ _ caps => Some caps.

(** [s.match(r)] for a regular expression without the [g] flag: the
    captures of the leftmost match, [None] when there is none. *)
Fixpoint search_from (r : regex) (i : nat) (s : jsstring) : option (list jsstring) :=
  match rmatch r i s [] accept with
  | Some caps => Some caps
  | None =>
      match s with
      | [] => None
      | _ :: s' => search_from r (S i) s'
      end
  end.

Definition exec (r : regex) (s : jsstring) : option (list jsstring) :=
  search_from r 0 s.

(** Building blocks. *)
Definition chr (c : N) : regex := Class (N.eqb c).

(** A letter under the [i] flag: either case of an ASCII letter. *)
Definition chr_i (c : N) : regex :=
  Class (fun x => lower_unit x =? lower_unit c).

Fixpoint lit (s : jsstring) : regex :=
  match s with
  | [] => Eps
  | c :: s' => Seq (chr c) (lit s')
  end.

Fixpoint seqs (rs : list regex) : regex :=
  match rs with
  | [] => Eps
  | r :: rs' => Seq r (seqs rs')
  end.

Definition any_unit (c : N) : bool := true.               (* [\s\S] *)
Definition dot (c : N) : bool := negb (is_line_terminator c). (* . *)
Definition plus (p : N -> bool) : regex := Seq (Class p) (Star true p).

(** [s.replace(/[^\w\s]/g, '')] *)
Definition strip_punctuation (s : jsstring) : jsstring :=
  List.filter (fun c => is_word c || is_whitespace c) s.

End Regex.
Import Regex.

(** The pattern of [convertAIRecommendationToBook]: start of input, a lazy
    group of [.], [\s+], the letters b and y in either case, [\s+], a greedy
    group of [.], end of input. *)
Definition TITLE_AUTHOR_REGEX : regex :=
  seqs [Bol; Group (Star false dot); plus is_whitespace; chr_i 98; chr_i 121;
        plus is_whitespace; Group (Star true dot); Eol].

(** [JSON_EXTRACT_REGEX]: three backticks, an optional [json], [\s*], a lazy
    group of any code units, [\s*], three backticks. *)
Definition JSON_EXTRACT_REGEX : regex :=
  seqs [lit (js "```"); Opt (lit (js "json")); Star true is_whitespace;
        Group (Star false any_unit); Star true is_whitespace; lit (js "```")].

(** ** JSON

    [JSON.parse] on a string of code units.  A number keeps the text of
    its literal; an object keeps its members in source order, and a
    property read takes the last member of that name. *)

Module Json.

Inductive json : Type :=
  | JNull
  | JBool (b : bool)
  | JNum (literal : jsstring)
  | JStr (s : jsstring)
  | JArr (elements : list json)
  | JObj (members : list (jsstring * json)).

Definition is_json_ws (c : N) : bool :=
  (c =? 32) || (c =? 9) || (c =? 10) || (c =? 13).

Fixpoint skip_ws (s : jsstring) : jsstring :=
  match s with
  | c :: s' => if is_json_ws c then skip_ws s' else s
  | [] => []
  end.

Definition is_digit (c : N) : bool := (48 <=? c) && (c <=? 57).

Definition hex_value (c : N) : option N :=
  if is_digit c then Some (c - 48)
  else if (65 <=? c) && (c <=? 70) then Some (c - 55)
  else if (97 <=? c) && (c <=? 102) then Some (c - 87)
  else None.

(** The characters of a string literal after its opening quote. *)
Fixpoint parse_string_body (s : jsstring) : option (jsstring * jsstring) :=
  match s with
  | [] => None
  | 34 :: rest => Some ([], rest)
  | 92 :: 117 :: a :: b :: c :: d :: rest =>
      ha ← hex_value a; hb ← hex_value b; hc ← hex_value c; hd ← hex_value d;
      '(str, rest') ← parse_string_body rest;
      Some ((ha * 4096 + hb * 256 + hc * 16 + hd) :: str, rest')
  | 92 :: e :: rest =>
      u ← (if e =? 34 then Some 34 else if e =? 92 then Some 92
           else if e =? 47 then Some 47 else if e =? 98 then Some 8
           else if e =? 102 then Some 12 else if e =? 110 then Some 10
           else if e =? 114 then Some 13 else if e =? 116 then Some 9
           else None);
      '(str, rest') ← parse_string_body rest;
      Some (u :: str, rest')
  | c :: rest =>
      if (c <? 32) || (c =? 92) then None
      else '(str, rest') ← parse_string_body rest; Some (c :: str, rest')
  end.

Fixpoint take_digits (s : jsstring) : jsstring * jsstring :=
  match s with
  | c :: s' =>
      if is_digit c then let '(d, r) := take_digits s' in (c :: d, r)
      else ([], s)
  | [] => ([], [])
  end.

(** A number literal: an optional minus, an integer part without a
    leading zero, an optional fraction, an optional exponent. *)
Definition parse_number (s : jsstring) : option (jsstring * jsstring) :=
  let '(sign, s1) := match s with 45 :: r => ([45], r) | _ => ([], s) end in
  '(int, s2) ← match s1 with
               | 48 :: r => Some ([48], r)
               | c :: _ => if is_digit c then Some (take_digits s1) else None
               | [] => None
               end;
  '(frac, s3) ← match s2 with
                | 46 :: r =>
                    match take_digits r with
                    | ([], _) => None
                    | (d, r') => Some (46 :: d, r')
                    end
                | _ => Some ([], s2)
                end;
  '(expo, s4) ← match s3 with
                | e :: r =>
                    if (e =? 101) || (e =? 69) then
                      let '(sg, r1) := match r with
                                       | 43 :: r' => ([43], r')
                                       | 45 :: r' => ([45], r')
                                       | _ => ([], r)
                                       end in
                      match take_digits r1 with
                      | ([], _) => None
                      | (d, r') => Some (e :: sg ++ d, r')
                      end
                    else Some ([], s3)
                | [] => Some ([], s3)
                end;
  Some (sign ++ int ++ frac ++ expo, s4).

Fixpoint parse_value (fuel : nat) (s : jsstring) : option (json * jsstring) :=
  match fuel with
  | O => None
  | S f =>
      match skip_ws s with
      | 91 :: r =>
          match skip_ws r with
          | 93 :: r' => Some (JArr [], r')
          | _ => '(l, r') ← parse_elements f r; Some (JArr l, r')
          end
      | 123 :: r =>
          match skip_ws r with
          | 125 :: r' => Some (JObj [], r')
          | _ => '(l, r') ← parse_members f r; Some (JObj l, r')
          end
      | 34 :: r => '(str, r') ← parse_string_body r; Some (JStr str, r')
      | 116 :: 114 :: 117 :: 101 :: r => Some (JBool true, r)
      | 102 :: 97 :: 108 :: 115 :: 101 :: r => Some (JBool false, r)
      | 110 :: 117 :: 108 :: 108 :: r => Some (JNull, r)
      | r => '(n, r') ← parse_number r; Some (JNum n, r')
      end
  end
with parse_elements (fuel : nat) (s : jsstring) : option (list json * jsstring) :=
  match fuel with
  | O => None
  | S f =>
      '(v, r) ← parse_value f s;
      match skip_ws r with
      | 44 :: r' => '(l, r'') ← parse_elements f r'; Some (v :: l, r'')
      | 93 :: r' => Some ([v], r')
      | _ => None
      end
  end
with parse_members (fuel : nat) (s : jsstring) : option (list (jsstring * json) * jsstring) :=
  match fuel with
  | O => None
  | S f =>
      match skip_ws s with
      | 34 :: r =>
          '(key, r1) ← parse_string_body r;
          match skip_ws r1 with
          | 58 :: r2 =>
              '(v, r3) ← parse_value f r2;
              match skip_ws r3 with
              | 44 :: r4 => '(l, r5) ← parse_members f r4; Some ((key, v) :: l, r5)
              | 125 :: r4 => Some ([(key, v)], r4)
              | _ => None
              end
          | _ => None
          end
      | _ => None
      end
  end.

(** [JSON.parse(text)]; [None] is the [SyntaxError] it throws. *)
Definition JSON_parse (text : jsstring) : option json :=
  '(v, r) ← parse_value (2 * length text + 2) text;
  match skip_ws r with
  | [] => Some v
  | _ :: _ => None
  end.

(** [v.name] on a parsed value that is an object; [None] is [undefined]. *)
Fixpoint lookup_member (name : jsstring) (members : list (jsstring * json)) : option json :=
  match members with
  | [] => None
  | (k, v) :: rest =>
      match lookup_member name rest with
      | Some v' => Some v'
      | None => if decide (k = name) then Some v else None
      end
  end.

End Json.
Import Json.

(** ** Effects: errors, the world and the remote services *)

Module Effects.

Inductive JsError : Type :=
  | TypeError
  | SyntaxError
  | URIError
  | AxiosError                      (* a request that failed or timed out *)
  | Error (message : jsstring).

Inductive Result (A : Type) : Type :=
  | Ok (a : A)
  | Throw (e : JsError).
Arguments Ok {A} a.
Arguments Throw {A} e.

(** The HTTP requests of the two services. *)
Inductive Request : Type :=
  | OpenLibrarySearch (q : jsstring)
  | CoverHead (url : jsstring)
  | GoogleBooksVolumes (q : jsstring)
  | CustomSearch (key cx q exactTerms : jsstring)
  | ChatCompletion (authorization userContent : jsstring).

Record CacheEntry : Type := { data : json; timestamp : Z }.

Record World : Type := {
  clock : Z;                                      (* [Date.now()] *)
  recommendationCache : gmap (list N) CacheEntry;
  requests : list Request
}.

(** The fields that the services read in the answers. *)
Record OpenLibraryDoc : Type := { cover_i : option N; isbn : option (list jsstring) }.
Record OpenLibraryData : Type := { docs : option (list OpenLibraryDoc) }.
Record ImageLinks : Type :=
  { large : option jsstring; medium : option jsstring; thumbnail : option jsstring }.
Record VolumeInfo : Type := { imageLinks : option ImageLinks }.
Record Volume : Type := { volumeInfo : option VolumeInfo }.
Record VolumesData : Type := { volumes : option (list Volume) }.
Record SearchItem : Type :=
  { link : option jsstring; displayLink : option jsstring; snippet : option jsstring }.
Record SearchData : Type := { items : option (list SearchItem) }.
Record ChatMessage : Type := { content : option jsstring }.
Record ChatChoice : Type := { message : option ChatMessage }.
Record ChatData : Type := { choices : option (list ChatChoice) }.

(** The remote services.  Each answer may depend on the world in which
    the request is issued; [None] is a request that fails. *)
Record Transport : Type := {
  get_openlibrary : World -> jsstring -> option OpenLibraryData;
  head_cover : World -> jsstring -> option unit;
  get_volumes : World -> jsstring -> option VolumesData;
  get_customsearch : World -> jsstring -> jsstring -> jsstring -> jsstring -> option SearchData;
  post_chat : World -> jsstring -> jsstring -> option ChatData;
  latency : World -> Request -> Z
}.

Definition M (A : Type) : Type := World -> Result A * World.

Definition ret {A} (a : A) : M A := fun w => (Ok a, w).

Definition bind {A B} (m : M A) (k : A -> M B) : M B :=
  fun w =>
    match m w with
    | (Ok a, w') => k a w'
    | (Throw e, w') => (Throw e, w')
    end.

Definition throw {A} (e : JsError) : M A := fun w => (Throw e, w).

Definition lift {A} (r : Result A) : M A := fun w => (r, w).

(** [try { body } catch (error) { handler }] *)
Definition try_catch {A} (body : M A) (handler : JsError -> M A) : M A :=
  fun w =>
    match body w with
    | (Ok a, w') => (Ok a, w')
    | (Throw e, w') => handler e w'
    end.

Definition sent (net : Transport) (r : Request) (w : World) : World :=
  {| clock := (clock w + latency net w r)%Z;
     recommendationCache := recommendationCache w;
     requests := requests w ++ [r] |}.

(** One awaited axios call: the request is logged, time passes, and the
    answer is returned or the failure thrown. *)
Definition axios {A} (net : Transport) (r : Request) (answer : World -> option A) : M A :=
  fun w =>
    match answer w with
    | Some a => (Ok a, sent net r w)
    | None => (Throw AxiosError, sent net r w)
    end.

(** [Promise.all(tasks)]: every task runs; the result is the list of
    their values, or the first failure. *)
Fixpoint Promise_all {A} (tasks : list (M A)) : M (list A) :=
  fun w =>
    match tasks with
    | [] => (Ok [], w)
    | t :: ts =>
        let '(r, w1) := t w in
        let '(rs, w2) := Promise_all ts w1 in
        (match r, rs with
         | Ok a, Ok l => Ok (a :: l)
         | Throw e, _ => Throw e
         | Ok _, Throw e => Throw e
         end, w2)
    end.

Definition Promise_all2 {A B} (t1 : M A) (t2 : M B) : M (A * B) :=
  fun w =>
    let '(r1, w1) := t1 w in
    let '(r2, w2) := t2 w1 in
    (match r1, r2 with
     | Ok a, Ok b => Ok (a, b)
     | Throw e, _ => Throw e
     | Ok _, Throw e => Throw e
     end, w2).

(** Truthiness of a value that is a string or [undefined]. *)
Definition truthy (v : option jsstring) : bool :=
  match v with
  | Some (_ :: _) => true
  | _ => false
  end.

End Effects.
Import Effects.

Notation "'await' x := m 'in' k" := (bind m (fun x => k))
  (at level 10, x name, m at level 100, k at level 200).

(** ** Records of the application ([src/types]) *)

Inductive BookSource : Type := ai_recommendation.

Record Book : Type := {
  id : jsstring;
  title : jsstring;
  author : list jsstring;
  subjects : list jsstring;
  source : BookSource;
  isAIRecommendation : bool;
  downloadUrl : option jsstring;
  coverUrl : jsstring
}.

Record SearchResult : Type := {
  books : list Book;
  totalResults : nat;
  query : jsstring;
  enhancedQuery : option json;
  searchTerms : option json;
  aiRecommendationsCount : nat;
  pdfFoundCount : nat;
  booksWithoutPDFs : option nat
}.

Section Services.

Context (net : Transport).
(** [import.meta.env.VITE_GOOGLE_API_KEY], [VITE_GOOGLE_CX] and
    [VITE_OPENROUTER_API_KEY]. *)
Context (GOOGLE_API_KEY GOOGLE_CX AI_API_KEY : option jsstring).

(** *** aiService.ts *)

Definition CACHE_DURATION : Z := 5 * 60 * 1000.

(** The first capture group of a match. *)
Definition capture (n : nat) (caps : list jsstring) : jsstring :=
  default [] (caps !! (n - 1)%nat).

Definition extractJsonFromResponse (content : jsstring) : Result json :=
  let jsonMatch := exec JSON_EXTRACT_REGEX content in
  let jsonString := match jsonMatch with
                    | Some caps => capture 1 caps
                    | None => content
                    end in
  match JSON_parse (trim jsonString) with
  | Some v => Ok v
  | None => Throw SyntaxError
  end.

(** A template literal prints [undefined] for a missing value. *)
Definition template_value (v : option jsstring) : jsstring :=
  default (js "undefined") v.

(** The [Authorization] header and the user message of the request. *)
Definition authorization : jsstring := js "Bearer " ++ template_value AI_API_KEY.

Definition user_content (query : jsstring) : jsstring :=
  js "Recommend books for: " ++ [34] ++ query ++ [34].

(** [response.data.choices[0]?.message?.content]; reading [[0]] of a
    missing [choices] throws. *)
Definition first_content (response : ChatData) : Result (option jsstring) :=
  match choices response with
  | Some cs => Ok (c ← head cs; m ← message c; content m)
  | None => Throw TypeError
  end.

Definition getRecommendationsFromModel (query : jsstring) (timeoutMs : Z) : M json :=
  try_catch
    (await response :=
       axios net (ChatCompletion authorization (user_content query))
         (fun w => post_chat net w authorization (user_content query)) in
     await content := lift (first_content response) in
     if truthy content then
       await result := lift (extractJsonFromResponse (default [] content)) in
       ret result
     else throw (Error (js "No content received from model")))
    (fun error => throw error).

(** The cache read of [getAIRecommendations]: the entry of the key, if
    it is younger than [CACHE_DURATION]. *)
Definition cache_get (normalizedQuery : jsstring) (w : World) : option json :=
  match recommendationCache w !! normalizedQuery with
  | Some cached =>
      if (clock w - timestamp cached <? CACHE_DURATION)%Z then Some (data cached)
      else None
  | None => None
  end.

(** The cache write of [getAIRecommendations]. *)
Definition cache_set (normalizedQuery : jsstring) (result : json) : M unit :=
  fun w =>
    (Ok tt,
     {| clock := clock w;
        recommendationCache :=
          <[normalizedQuery := {| data := result; timestamp := clock w |}]>
            (recommendationCache w);
        requests := requests w |}).

Definition normalize (query : jsstring) : jsstring := trim (toLowerCase query).

Definition getAIRecommendations (query : jsstring) : M json :=
  let normalizedQuery := normalize query in
  fun w =>
    match cache_get normalizedQuery w with
    | Some cached_data => (Ok cached_data, w)
    | None =>
        (await result := getRecommendationsFromModel query 8000 in
         await _ := cache_set normalizedQuery result in
         ret result) w
    end.

Definition clearRecommendationCache : M unit :=
  fun w =>
    (Ok tt, {| clock := clock w; recommendationCache := ∅; requests := requests w |}).

(** The callback of [setInterval]: entries older than [CACHE_DURATION]
    are deleted. *)
Definition sweep : M unit :=
  fun w =>
    (Ok tt,
     {| clock := clock w;
        recommendationCache :=
          filter (fun kv => ¬ (clock w - timestamp kv.2 > CACHE_DURATION)%Z)
                 (recommendationCache w);
        requests := requests w |}).

(** *** bookService.ts *)

Fixpoint first_cover_id (docs : list OpenLibraryDoc) : option N :=
  match docs with
  | [] => None
  | book :: rest =>
      match cover_i book with
      | Some n => if n =? 0 then first_cover_id rest else Some n
      | None => first_cover_id rest
      end
  end.

Definition has_isbn (book : OpenLibraryDoc) : bool :=
  match isbn book with
  | Some (_ :: _) => true
  | _ => false
  end.

Definition fetchBookCoverFromOpenLibrary (title author : jsstring) : M (option jsstring) :=
  try_catch
    (let cleanTitle := toLowerCase (trim (strip_punctuation title)) in
     let cleanAuthor := toLowerCase (trim (strip_punctuation author)) in
     let searchQuery :=
       js "title:" ++ [34] ++ cleanTitle ++ [34] ++ js " author:" ++ [34] ++ cleanAuthor ++ [34] in
     await data :=
       axios net (OpenLibrarySearch searchQuery) (fun w => get_openlibrary net w searchQuery) in
     match docs data with
     | Some (d :: ds) =>
         match first_cover_id (d :: ds) with
         | Some n =>
             ret (Some (js "https://covers.openlibrary.org/b/id/" ++ number_to_string n ++ js "-L.jpg"))
         | None =>
             match List.find has_isbn (d :: ds) with
             | Some bookWithIsbn =>
                 let isbn0 := default [] (head (default [] (isbn bookWithIsbn))) in
                 let coverUrl := js "https://covers.openlibrary.org/b/isbn/" ++ isbn0 ++ js "-L.jpg" in
                 try_catch
                   (await _ := axios net (CoverHead coverUrl) (fun w => head_cover net w coverUrl) in
                    ret (Some coverUrl))
                   (fun _ => ret None)
             | None => ret None
             end
         end
     | _ => ret None
     end)
    (fun error => ret None).

Fixpoint first_image (items : list Volume) : option jsstring :=
  match items with
  | [] => None
  | item :: rest =>
      let links := v ← volumeInfo item; imageLinks v in
      if truthy (l ← links; large l) then (l ← links; large l)
      else if truthy (l ← links; medium l) then (l ← links; medium l)
      else if truthy (l ← links; thumbnail l) then (l ← links; thumbnail l)
      else first_image rest
  end.

Definition fetchBookCoverFromGoogleBooks (title author : jsstring) : M (option jsstring) :=
  try_catch
    (let query := js "intitle:" ++ [34] ++ title ++ [34] ++ js " inauthor:" ++ [34] ++ author ++ [34] in
     await data :=
       axios net (GoogleBooksVolumes query) (fun w => get_volumes net w query) in
     match volumes data with
     | Some (i :: is') => ret (first_image (i :: is'))
     | _ => ret None
     end)
    (fun error => ret None).

Definition fetchBookCover (title author : jsstring) : M jsstring :=
  await coverUrl := fetchBookCoverFromOpenLibrary title author in
  await coverUrl :=
    (if negb (truthy coverUrl) then fetchBookCoverFromGoogleBooks title author
     else ret coverUrl) in
  if negb (truthy coverUrl) then
    match encodeURIComponent (substring0 30 title) with
    | None => throw URIError
    | Some encodedTitle =>
        match encodeURIComponent (substring0 20 author) with
        | None => throw URIError
        | Some encodedAuthor =>
            ret (js "https://via.placeholder.com/400x600/1e293b/f8fafc?text="
                 ++ encodedTitle ++ js "+by+" ++ encodedAuthor)
        end
    end
  else ret (default [] coverUrl).

(** The body of the loop over [data.items] in [searchGoogleForPDF]. *)
Definition ends_in_pdf (item : SearchItem) : bool :=
  truthy (link item) && endsWith (js ".pdf") (toLowerCase (default [] (link item))).

Definition mentions_pdf (item : SearchItem) : bool :=
  truthy (link item) &&
  (includes (js ".pdf") (toLowerCase (default [] (link item)))
   || match displayLink item with
      | Some d => includes (js "pdf") (toLowerCase d)
      | None => false
      end
   || match snippet item with
      | Some t => includes (js "pdf") (toLowerCase t)
      | None => false
      end).

Fixpoint scan_items (items : list SearchItem) : option jsstring :=
  match items with
  | [] => None
  | item :: rest =>
      if ends_in_pdf item then link item
      else if mentions_pdf item then link item
      else scan_items rest
  end.

(** The cleaned title and author, and the query built from them. *)
Definition clean (text : jsstring) : jsstring := trim (strip_punctuation text).

Definition pdf_query (bookTitle author : jsstring) : jsstring :=
  [34] ++ clean bookTitle ++ [34] ++ js " " ++ [34] ++ clean author ++ [34] ++ js " filetype:pdf".

Definition searchGoogleForPDF (bookTitle author : jsstring) : M (option jsstring) :=
  try_catch
    (if negb (truthy GOOGLE_API_KEY) || negb (truthy GOOGLE_CX) then ret None
     else
       let cleanTitle := clean bookTitle in
       let query := pdf_query bookTitle author in
       let key := default [] GOOGLE_API_KEY in
       let cx := default [] GOOGLE_CX in
       await data :=
         axios net (CustomSearch key cx query cleanTitle)
           (fun w => get_customsearch net w key cx query cleanTitle) in
       match items data with
       | Some (i :: is') => ret (scan_items (i :: is'))
       | _ => ret None
       end)
    (fun error => ret None).

(** The receiver of [recommendation.match(...)] is a value that came out
    of [JSON.parse]: only a string has the method. *)
Definition string_receiver (v : json) : Result jsstring :=
  match v with
  | JStr s => Ok s
  | _ => Throw TypeError
  end.

(** The title, the author string and the author list that
    [convertAIRecommendationToBook] computes from the text. *)
Definition parse_recommendation (recommendation : jsstring)
  : jsstring * jsstring * list jsstring :=
  let titleAuthorMatch := exec TITLE_AUTHOR_REGEX recommendation in
  let title := match titleAuthorMatch with
               | Some caps => trim (capture 1 caps)
               | None => recommendation
               end in
  let authorString := match titleAuthorMatch with
                      | Some caps => trim (capture 2 caps)
                      | None => js "Unknown Author"
                      end in
  let author := List.map trim (split 44 authorString) in
  (title, authorString, author).

Definition convertAIRecommendationToBook
    (recommendation : json) (index : nat) (originalQuery : jsstring) : M Book :=
  await text := lift (string_receiver recommendation) in
  let '(title, authorString, author) := parse_recommendation text in
  await urls := Promise_all2 (searchGoogleForPDF title authorString)
                             (fetchBookCover title authorString) in
  ret {| id := js "ai-rec-" ++ number_to_string (N.of_nat index);
         title := title;
         author := author;
         subjects := [js "AI recommended for: " ++ originalQuery];
         source := ai_recommendation;
         isAIRecommendation := true;
         downloadUrl := urls.1;
         coverUrl := urls.2 |}.

(** [aiData.recommendations.map]: reading a property of [null] throws,
    and only an array has [map]. *)
Definition recommendations_of (aiData : json) : Result (list json) :=
  match aiData with
  | JObj members =>
      match lookup_member (js "recommendations") members with
      | Some (JArr l) => Ok l
      | _ => Throw TypeError
      end
  | _ => Throw TypeError
  end.

Definition property (name : jsstring) (v : json) : option json :=
  match v with
  | JObj members => lookup_member name members
  | _ => None
  end.

Definition has_pdf (book : Book) : bool := truthy (downloadUrl book).

(** [aiData.recommendations.map((rec, index) => ...)]: one conversion
    for each recommendation, with its position. *)
Definition conversions (recs : list json) (query : jsstring) : list (M Book) :=
  imap (fun index rec => convertAIRecommendationToBook rec index query) recs.

Definition searchBooks (query : jsstring) : M SearchResult :=
  try_catch
    (await aiData := getAIRecommendations query in
     await recs := lift (recommendations_of aiData) in
     await aiBooks := Promise_all (conversions recs query) in
     let booksWithPDFs := List.filter has_pdf aiBooks in
     let booksWithoutPDFs := List.filter (fun book => negb (has_pdf book)) aiBooks in
     let allBooks := booksWithPDFs ++ booksWithoutPDFs in
     ret {| books := allBooks;
            totalResults := length allBooks;
            query := query;
            enhancedQuery := property (js "enhancedQuery") aiData;
            searchTerms := property (js "searchTerms") aiData;
            aiRecommendationsCount := length aiBooks;
            pdfFoundCount := length booksWithPDFs;
            booksWithoutPDFs := Some (length booksWithoutPDFs) |})
    (fun error =>
       ret {| books := [];
              totalResults := 0;
              query := query;
              enhancedQuery := None;
              searchTerms := None;
              aiRecommendationsCount := 0;
              pdfFoundCount := 0;
              booksWithoutPDFs := None |}).

End Services.

(** ** The behaviour that the design document describes

    Definitions that follow the words of the document, to be compared
    with the functions above. *)

(** The PDF locator as the document describes it: the first link that
    ends in [.pdf], and only when there is none the first link whose
    URL, display domain or snippet mentions [pdf]. *)
Definition item_mentions_pdf (item : SearchItem) : bool :=
  truthy (link item) &&
  (includes (js "pdf") (toLowerCase (default [] (link item)))
   || match displayLink item with
      | Some d => includes (js "pdf") (toLowerCase d)
      | None => false
      end
   || match snippet item with
      | Some t => includes (js "pdf") (toLowerCase t)
      | None => false
      end).

Definition locate_as_described (found : list SearchItem) : option jsstring :=
  match List.find ends_in_pdf found with
  | Some item => link item
  | None =>
      match List.find item_mentions_pdf found with
      | Some item => link item
      | None => None
      end
  end.

(** The search result as the document describes it for the books
    [converted]: those with a download URL first, both parts in their
    original order, and the two counts. *)
Definition partitioned_by_pdf (converted : list Book) (r : SearchResult) : Prop :=
  books r = List.filter has_pdf converted
            ++ List.filter (fun book => negb (has_pdf book)) converted /\
  pdfFoundCount r = length (List.filter has_pdf converted) /\
  booksWithoutPDFs r = Some (length (List.filter (fun book => negb (has_pdf book)) converted)).

(** The counts of a search result agree with each other and with the
    recommendations [recs] that the client returned. *)
Definition counts_agree (recs : list json) (r : SearchResult) : Prop :=
  totalResults r = length (books r) /\
  length (books r) = aiRecommendationsCount r /\
  aiRecommendationsCount r = length recs /\
  exists n, booksWithoutPDFs r = Some n /\ (pdfFoundCount r + n)%nat = totalResults r.

(** The shape of a Recommendation: an object with a string
    [enhancedQuery] and lists of strings [recommendations] and
    [searchTerms]. *)
Definition is_string (v : json) : bool :=
  match v with JStr _ => true | _ => false end.

Definition is_string_list (v : option json) : bool :=
  match v with Some (JArr l) => forallb is_string l | _ => false end.

Definition is_recommendation (v : json) : bool :=
  match property (js "enhancedQuery") v with Some (JStr _) => true | _ => false end
  && is_string_list (property (js "recommendations") v)
  && is_string_list (property (js "searchTerms") v).

(** A string without surrogate code units. *)
Definition no_surrogates (s : jsstring) : Prop :=
  Forall (fun c => is_high_surrogate c = false /\ is_low_surrogate c = false) s.

(** Requests to the second cover source. *)
Definition is_volumes_request (r : Request) : bool :=
  match r with GoogleBooksVolumes _ => true | _ => false end.

(** The placeholder of the cover-image resolver, for a title and an
    author that are already URI-encoded. *)
Definition placeholder (encodedTitle encodedAuthor : jsstring) : jsstring :=
  js "https://via.placeholder.com/400x600/1e293b/f8fafc?text="
  ++ encodedTitle ++ js "+by+" ++ encodedAuthor.

(** The same ASCII letter in either case, as the [i] flag of a pattern
    compares it. *)
Definition same_letter (c d : N) : Prop := lower_unit c = lower_unit d.

Definition all_space (s : jsstring) : Prop := Forall (fun c => is_whitespace c = true) s.





(** A by-separator: white space, the letters b and y in either case,
    white space.  A string has one when it occurs somewhere in it. *)
Definition by_separator (w1 : jsstring) (b y : N) (w2 : jsstring) : Prop :=
  w1 <> [] /\ all_space w1 /\ w2 <> [] /\ all_space w2 /\
  same_letter b 98 /\ same_letter y 121.

Definition has_by_separator (s : jsstring) : Prop :=
  exists pre w1 b y w2 post,
    s = pre ++ w1 ++ [b; y] ++ w2 ++ post /\ by_separator w1 b y w2.

Definition single_line (s : jsstring) : Prop :=
  Forall (fun c => is_line_terminator c = false) s.


(** The fence of a code block, and the text between the first fence of
    a reply and the next one. *)
Definition fence : jsstring := js "```".

Fixpoint split_at_fence (s : jsstring) : option (jsstring * jsstring) :=
  if startsWith fence s then Some ([], drop 3 s)
  else match s with
       | [] => None
       | c :: s' =>
           match split_at_fence s' with
           | Some (before, after) => Some (c :: before, after)
           | None => None
           end
       end.

Definition fenced_block (reply : jsstring) : option jsstring :=
  match split_at_fence reply with
  | Some (_, rest) =>
      match split_at_fence rest with
      | Some (body, _) => Some body
      | None => None
      end
  | None => None
  end.

(** The body of a block without a leading [json]. *)
Definition strip_json_tag (body : jsstring) : jsstring :=
  if startsWith (js "json") body then drop 4 body else body.

(** The response parser as the document describes it: the text between
    the fences when there is a fenced block, the raw reply otherwise,
    parsed as JSON. *)
Definition extract_as_described (reply : jsstring) : Result json :=
  match JSON_parse (match fenced_block reply with
                    | Some body => body
                    | None => reply
                    end) with
  | Some v => Ok v
  | None => Throw SyntaxError
  end.

(** ** The two patterns, read off as functions

    What the backtracking matcher computes for [TITLE_AUTHOR_REGEX] and
    [JSON_EXTRACT_REGEX]; the theorems below prove that it does. *)

(** The part of [TITLE_AUTHOR_REGEX] after the first group, matched at
    the head of [s]: the second group. *)
Definition tail_match (s : jsstring) : option jsstring :=
  match s with
  | c :: s1 =>
      if is_whitespace c then
        match trimStart s1 with
        | b :: y :: d :: r =>
            if (lower_unit b =? 98) && (lower_unit y =? 121) && is_whitespace d then
              if forallb dot (trimStart r) then Some (trimStart r) else None
            else None
        | _ => None
        end
      else None
  | [] => None
  end.

(** The shortest prefix without a line terminator after which
    [tail_match] succeeds, and the second group. *)
Fixpoint first_separator (s : jsstring) : option (jsstring * jsstring) :=
  match tail_match s with
  | Some g => Some ([], g)
  | None =>
      match s with
      | c :: s' =>
          if dot c then
            match first_separator s' with
            | Some (t, g) => Some (c :: t, g)
            | None => None
            end
          else None
      | [] => None
      end
  end.

(** The shortest prefix of [s] after which white space and a fence
    follow. *)
Fixpoint lazy_body (s : jsstring) : option jsstring :=
  if startsWith fence (trimStart s) then Some []
  else match s with
       | c :: s' => cons c <$> lazy_body s'
       | [] => None
       end.

(** ** Worlds and transports used in the examples *)

Definition empty_world : World :=
  {| clock := 0; recommendationCache := ∅; requests := [] |}.

(** Every request fails. *)
Definition offline : Transport :=
  {| get_openlibrary := fun _ _ => None;
     head_cover := fun _ _ => None;
     get_volumes := fun _ _ => None;
     get_customsearch := fun _ _ _ _ _ => None;
     post_chat := fun _ _ _ => None;
     latency := fun _ _ => 0%Z |}.

(** The model replies [text]; every other request fails. *)
Definition model_replies (text : jsstring) : Transport :=
  {| get_openlibrary := fun _ _ => None;
     head_cover := fun _ _ => None;
     get_volumes := fun _ _ => None;
     get_customsearch := fun _ _ _ _ _ => None;
     post_chat := fun _ _ _ =>
       Some {| choices := Some [{| message := Some {| content := Some text |} |}] |};
     latency := fun _ _ => 0%Z |}.

(** The web search answers [found]; every other request fails. *)
Definition search_answers (found : SearchData) : Transport :=
  {| get_openlibrary := fun _ _ => None;
     head_cover := fun _ _ => None;
     get_volumes := fun _ _ => None;
     get_customsearch := fun _ _ _ _ _ => Some found;
     post_chat := fun _ _ _ => None;
     latency := fun _ _ => 0%Z |}.

(** Two results: the first is a page of a site whose domain mentions
    pdf, the second a link that ends in [.pdf]. *)
Definition reader_page : SearchItem :=
  {| link := Some (js "https://pdfdrive.example/dune");
     displayLink := Some (js "pdfdrive.example");
     snippet := Some (js "Read Dune online") |}.

Definition direct_file : SearchItem :=
  {| link := Some (js "https://host.example/dune.pdf");
     displayLink := Some (js "host.example");
     snippet := Some (js "Dune, Frank Herbert") |}.

(** The model recommends three books; the web search finds a file for
    the first and the third; the cover sources fail. *)
Definition three_books : jsstring :=
  jsq "{'enhancedQuery': 'classic novels', 'recommendations': ['Dune by Frank Herbert', 'Emma by Jane Austen', 'Ulysses by James Joyce'], 'searchTerms': ['novel']}".

Definition bookshop : Transport :=
  {| get_openlibrary := fun _ _ => None;
     head_cover := fun _ _ => None;
     get_volumes := fun _ _ => None;
     get_customsearch := fun _ _ _ q _ =>
       if includes (js "Dune") q || includes (js "Ulysses") q
       then Some {| items := Some [direct_file] |}
       else Some {| items := Some [] |};
     post_chat := fun _ _ _ =>
       Some {| choices := Some [{| message := Some {| content := Some three_books |} |}] |};
     latency := fun _ _ => 40%Z |}.

(** A title of 29 letters followed by U+1F600, which takes two code
    units. *)
Definition long_title : jsstring := repeat 97 29 ++ [55357; 56832].




(** Two replies: a block with the tag [json], and a bare object after
    a no-break space. *)
Definition tagged_reply : jsstring :=
  js "```json" ++ [10] ++ jsq "{'recommendations': []}" ++ [10] ++ js "```".

Definition padded_reply : jsstring := [160] ++ jsq "{'recommendations': []}".

(** A block with another tag, on a line of its own. *)
Definition other_tag_reply : jsstring :=
  js "```javascript" ++ [10] ++ jsq "{'recommendations': []}" ++ [10] ++ js "```".

(** A reply of the Recommendation shape whose one title is
    [long_title]. *)
Definition long_title_reply : jsstring :=
  jsq "{'enhancedQuery': 'q', 'recommendations': ['aaaaaaaaaaaaaaaaaaaaaaaaaaaaa\ud83d\ude00 by Ann Author'], 'searchTerms': []}".

Definition failure_result (q : jsstring) : SearchResult :=
  {| books := []; totalResults := 0; query := q; enhancedQuery := None;
     searchTerms := None; aiRecommendationsCount := 0; pdfFoundCount := 0;
     booksWithoutPDFs := None |}.


(** ** Further definitions: requests, answers and worlds

    Names for the requests that the services build, and the transports
    and worlds of the examples that follow. *)

Definition is_chat_request (r : Request) : bool :=
  match r with ChatCompletion _ _ => true | _ => false end.

(** A world whose cache holds an entry for [dune] that is exactly
    [CACHE_DURATION] old. *)
Definition boundary_world : World :=
  {| clock := 300000;
     recommendationCache := {[ js "dune" := {| data := JStr (js "old"); timestamp := 0 |} ]};
     requests := [] |}.

(** A world whose cache holds a fresh entry for [dune] and one for
    [emma]. *)
Definition warm_world : World :=
  {| clock := 1000;
     recommendationCache :=
       <[ js "emma" := {| data := JStr (js "e"); timestamp := 10 |} ]>
         {[ js "dune" := {| data := JObj [(js "recommendations", JArr [JStr (js "Dune by Frank Herbert")])];
                            timestamp := 900 |} ]};
     requests := [] |}.

(** The search strings and URLs that the cover sources build. *)
Definition openlibrary_query (title author : jsstring) : jsstring :=
  js "title:" ++ [34] ++ toLowerCase (trim (strip_punctuation title)) ++ [34]
  ++ js " author:" ++ [34] ++ toLowerCase (trim (strip_punctuation author)) ++ [34].

Definition volumes_query (title author : jsstring) : jsstring :=
  js "intitle:" ++ [34] ++ title ++ [34] ++ js " inauthor:" ++ [34] ++ author ++ [34].

Definition cover_by_id (n : N) : jsstring :=
  js "https://covers.openlibrary.org/b/id/" ++ number_to_string n ++ js "-L.jpg".

Definition cover_by_isbn (isbn0 : jsstring) : jsstring :=
  js "https://covers.openlibrary.org/b/isbn/" ++ isbn0 ++ js "-L.jpg".

(** [book.cover_i] is truthy. *)
Definition has_cover_id (book : OpenLibraryDoc) : bool :=
  match cover_i book with
  | Some n => negb (n =? 0)
  | None => false
  end.

(** [item.volumeInfo?.imageLinks?.large] and its two siblings. *)
Definition image_of (size : ImageLinks -> option jsstring) (item : Volume) : option jsstring :=
  l ← (v ← volumeInfo item; imageLinks v); size l.

Definition has_image (item : Volume) : bool :=
  truthy (image_of large item) || truthy (image_of medium item)
  || truthy (image_of thumbnail item).

(** Open Library lists two documents, the first with an ISBN only, the
    second with a cover id; Google Books lists a volume with a
    thumbnail only before a volume with a large image; every existence
    check succeeds. *)
Definition shelf : Transport :=
  {| get_openlibrary := fun _ _ =>
       Some {| docs := Some [ {| cover_i := None; isbn := Some [js "9780441172719"] |};
                              {| cover_i := Some 8231990; isbn := None |} ] |};
     head_cover := fun _ _ => Some tt;
     get_volumes := fun _ _ =>
       Some {| volumes := Some
                 [ {| volumeInfo := Some {| imageLinks := Some
                        {| large := None; medium := None;
                           thumbnail := Some (js "https://books.example/thumb.jpg") |} |} |};
                   {| volumeInfo := Some {| imageLinks := Some
                        {| large := Some (js "https://books.example/large.jpg");
                           medium := None; thumbnail := None |} |} |} ] |};
     get_customsearch := fun _ _ _ _ _ => None;
     post_chat := fun _ _ _ => None;
     latency := fun _ _ => 25%Z |}.

(** Open Library lists documents without cover ids, the second and the
    third with ISBNs; the existence check fails; Google Books answers
    as [shelf] does. *)
Definition isbn_shelf : Transport :=
  {| get_openlibrary := fun _ _ =>
       Some {| docs := Some [ {| cover_i := Some 0; isbn := Some [] |};
                              {| cover_i := None; isbn := Some [js "111"; js "222"] |};
                              {| cover_i := None; isbn := Some [js "333"] |} ] |};
     head_cover := fun _ _ => None;
     get_volumes := get_volumes shelf;
     get_customsearch := fun _ _ _ _ _ => None;
     post_chat := fun _ _ _ => None;
     latency := fun _ _ => 25%Z |}.

(** Characters of a URL that need no escape: the unreserved ones, the
    percent sign of an escape, and the punctuation of the placeholder
    address. *)
Definition url_char (c : N) : bool :=
  is_uri_unreserved c || (c =? 37) || (c =? 58) || (c =? 47) || (c =? 63)
  || (c =? 61) || (c =? 43).

(** The code units of a JavaScript string are 16-bit numbers. *)
Definition code_units (s : jsstring) : Prop := Forall (fun c => c < 65536) s.

(** A title with an accented letter and an emoji, and its author. *)
Definition accented_title : jsstring :=
  js "Les Mis" ++ [233] ++ js "rables " ++ [55357; 56832] ++ js " (the complete and unabridged text)".

(** What [replace(/[^\w\s]/g, '')] keeps: word characters and white
    space. *)
Definition plain (c : N) : bool := is_word c || is_whitespace c.

(** A computation that leaves the cache alone and sends nothing to the
    model. *)
Definition quiet {A} (m : M A) : Prop :=
  forall w,
    recommendationCache (m w).2 = recommendationCache w /\
    exists extra, requests (m w).2 = requests w ++ extra /\
                  forallb (fun r => negb (is_chat_request r)) extra = true.

(** The template literal [ai-rec-${index}]. *)
Definition ai_id (index : nat) : jsstring :=
  js "ai-rec-" ++ number_to_string (N.of_nat index).

(** The number that a string of decimal digits denotes. *)
Definition parse_decimal (s : jsstring) : N :=
  fold_left (fun acc c => 10 * acc + (c - 48)) s 0.

(** The model answers with two recommendations, the first of which is
    not a string. *)
Definition mixed_reply : jsstring :=
  jsq "{'enhancedQuery': 'q', 'recommendations': [null, 'Emma by Jane Austen'], 'searchTerms': []}".

(** ** The recommendation service with concurrent models and a fallback

    The variant of the service that asks several models at once and
    answers from a table of well-known books when all of them fail. *)

Module Concurrent.

Definition getFallbackRecommendations (query : jsstring) : list jsstring :=
  let lowerQuery := toLowerCase query in
  if includes (js "sad") lowerQuery || includes (js "depressed") lowerQuery
     || includes (js "down") lowerQuery then
    [js "The Midnight Library by Matt Haig";
     js "Reasons to Stay Alive by Matt Haig";
     js "The Book of Joy by Dalai Lama and Desmond Tutu"]
  else if includes (js "anxious") lowerQuery || includes (js "worry") lowerQuery
          || includes (js "stress") lowerQuery then
    [js "The Anxiety and Phobia Workbook by Edmund Bourne";
     js "Dare by Barry McDonagh";
     js "The Power of Now by Eckhart Tolle"]
  else if includes (js "motivation") lowerQuery || includes (js "inspiration") lowerQuery
          || includes (js "lost") lowerQuery then
    [js "Atomic Habits by James Clear";
     js "The 7 Habits of Highly Effective People by Stephen Covey";
     js "Man's Search for Meaning by Viktor Frankl"]
  else if includes (js "romance") lowerQuery || includes (js "love") lowerQuery then
    [js "Pride and Prejudice by Jane Austen";
     js "The Seven Husbands of Evelyn Hugo by Taylor Jenkins Reid";
     js "Me Before You by Jojo Moyes"]
  else if includes (js "fantasy") lowerQuery || includes (js "magic") lowerQuery then
    [js "The Name of the Wind by Patrick Rothfuss";
     js "The Way of Kings by Brandon Sanderson";
     js "The Hobbit by J.R.R. Tolkien"]
  else
    [js "The Alchemist by Paulo Coelho";
     js "Educated by Tara Westover";
     js "The Seven Habits of Highly Effective People by Stephen Covey"].

(** [baseTerms.push(...)] appends; [slice(0, 3)] keeps the first three. *)
Definition generateSearchTerms (query : jsstring) : list jsstring :=
  let lowerQuery := toLowerCase query in
  let baseTerms := [query] in
  let baseTerms :=
    if includes (js "sad") lowerQuery || includes (js "depressed") lowerQuery then
      baseTerms ++ [js "uplifting books"; js "mental health"; js "hope"]
    else if includes (js "motivation") lowerQuery then
      baseTerms ++ [js "self-help"; js "personal development"; js "success"]
    else if includes (js "romance") lowerQuery then
      baseTerms ++ [js "contemporary romance"; js "love stories"; js "romantic fiction"]
    else if includes (js "fantasy") lowerQuery then
      baseTerms ++ [js "epic fantasy"; js "sword and sorcery"; js "magical realism"]
    else
      baseTerms ++ [js "popular fiction"; js "bestsellers"; js "award winners"] in
  take 3 baseTerms.

(** The object that [getAIRecommendations] returns when every model
    has failed. *)
Definition fallback (query : jsstring) : json :=
  JObj [(js "enhancedQuery", JStr query);
        (js "recommendations", JArr (List.map JStr (getFallbackRecommendations query)));
        (js "searchTerms", JArr (List.map JStr (generateSearchTerms query)))].

Section Race.

(** [tryModelsWithTimeout] races the requests to the models in real
    time; here it is any computation that returns a value or throws. *)
Context (tryModelsWithTimeout : jsstring -> Z -> M json).

Definition getAIRecommendations (query : jsstring) : M json :=
  let normalizedQuery := trim (toLowerCase query) in
  fun w =>
    match cache_get normalizedQuery w with
    | Some cached_data => (Ok cached_data, w)
    | None =>
        try_catch
          (await result := tryModelsWithTimeout query 6000 in
           await _ := cache_set normalizedQuery result in
           ret result)
          (fun error => ret (fallback query)) w
    end.

End Race.

End Concurrent.

(** ** The search terms of the academic variant *)

Module Academic.

Definition generateAcademicSearchTerms (query : jsstring) : list jsstring :=
  let lowerQuery := toLowerCase query in
  let baseTerms := [query] in
  let baseTerms :=
    if includes (js "psychology") lowerQuery then
      baseTerms ++ [js "psychological research"; js "cognitive science"; js "behavioral studies"]
    else if includes (js "computer") lowerQuery || includes (js "programming") lowerQuery then
      baseTerms ++ [js "computer science textbooks"; js "software engineering";
                    js "algorithms and data structures"]
    else if includes (js "business") lowerQuery || includes (js "economics") lowerQuery then
      baseTerms ++ [js "business administration"; js "economic theory"; js "management studies"]
    else if includes (js "history") lowerQuery then
      baseTerms ++ [js "historical analysis"; js "historiography";
                    js "historical research methods"]
    else if includes (js "literature") lowerQuery || includes (js "english") lowerQuery then
      baseTerms ++ [js "literary criticism"; js "comparative literature";
                    js "rhetoric and composition"]
    else if includes (js "philosophy") lowerQuery then
      baseTerms ++ [js "philosophical inquiry"; js "ethics and moral philosophy";
                    js "logic and reasoning"]
    else if includes (js "science") lowerQuery then
      baseTerms ++ [js "scientific methodology"; js "research methods";
                    js "peer-reviewed studies"]
    else if includes (js "math") lowerQuery then
      baseTerms ++ [js "mathematical analysis"; js "applied mathematics";
                    js "statistical methods"]
    else
      baseTerms ++ [js "academic textbooks"; js "scholarly publications"; js "university press"] in
  take 3 baseTerms.

End Academic.

(** A race in which every model fails, after one second. *)
Definition all_models_fail : jsstring -> Z -> M json :=
  fun _ _ w =>
    (Throw (Error (js "All models failed")),
     {| clock := (clock w + 1000)%Z; recommendationCache := recommendationCache w;
        requests := requests w |}).
(** ** The library functions and the parsers on examples *)

Example trim_example : trim (js "  Dune  by ") = js "Dune  by".
Proof. reflexivity. Qed.
Example split_example : split 44 (js "A, B") = [js "A"; js " B"].
Proof. reflexivity. Qed.
Example split_empty : split 44 [] = [[]].
Proof. reflexivity. Qed.
Example number_example : number_to_string 120 = js "120" /\ number_to_string 0 = js "0".
Proof. split; reflexivity. Qed.
Example encode_example :
  encodeURIComponent (js "A b/c" ++ [233; 55357; 56832]) = Some (js "A%20b%2Fc%C3%A9%F0%9F%98%80").
Proof. reflexivity. Qed.
Example encode_lone : encodeURIComponent (js "a" ++ [55357]) = None.
Proof. reflexivity. Qed.
Example title_author_1 :
  exec TITLE_AUTHOR_REGEX (js "Dune by Frank Herbert") = Some [js "Dune"; js "Frank Herbert"].
Proof. reflexivity. Qed.
Example title_author_2 : exec TITLE_AUTHOR_REGEX (js "Some Book") = None.
Proof. reflexivity. Qed.
Example title_author_3 :
  exec TITLE_AUTHOR_REGEX (js "Stand BY Me  by  Stephen King") = Some [js "Stand"; js "Me  by  Stephen King"].
Proof. reflexivity. Qed.
Example title_author_4 :
  exec TITLE_AUTHOR_REGEX (js "A by B" ++ [10] ++ js "by C") = Some [js "A by B"; js "C"].
Proof. reflexivity. Qed.
Example fence_1 :
  exec JSON_EXTRACT_REGEX (js "Here: ```json" ++ [10] ++ js "{} " ++ [10] ++ js "``` bye ```x```")
  = Some [js "{}"].
Proof. reflexivity. Qed.
Example fence_2 : exec JSON_EXTRACT_REGEX (js "```` {}") = None.
Proof. reflexivity. Qed.
Example fence_3 : exec JSON_EXTRACT_REGEX (js "```js{}```") = Some [js "js{}"].
Proof. reflexivity. Qed.
Example parse_1 :
  JSON_parse (jsq "{ 'recommendations': ['Dune by Frank Herbert', 7], 'n': -1.5e3, 'a': {'b': [true, null]} } ")
  = Some (JObj [(js "recommendations", JArr [JStr (js "Dune by Frank Herbert"); JNum (js "7")]);
                (js "n", JNum (js "-1.5e3"));
                (js "a", JObj [(js "b", JArr [JBool true; JNull])])]).
Proof. vm_compute. reflexivity. Qed.
Example parse_2 : JSON_parse (jsq "{'a':1,}") = None /\ JSON_parse (js "json{}") = None
  /\ JSON_parse [] = None /\ JSON_parse (js "01") = None /\ JSON_parse (js "[1 2]") = None.
Proof. vm_compute. auto. Qed.
Example parse_3 : JSON_parse (jsq "'a\u00e9\n'") = Some (JStr [97; 233; 10]).
Proof. vm_compute. reflexivity. Qed.

(** ** The search orchestrator never raises *)

Section Orchestrator.

Context (net : Transport) (GOOGLE_API_KEY GOOGLE_CX AI_API_KEY : option jsstring).

Lemma searchBooks_returns (q : jsstring) (w : World) :
  exists r w', searchBooks net GOOGLE_API_KEY GOOGLE_CX AI_API_KEY q w = (Ok r, w').
Proof.
  unfold searchBooks, try_catch.
  match goal with |- context [match ?b w with _ => _ end] => destruct (b w) as [[r|e] w'] end.
  - eauto.
  - unfold ret. eauto.
Qed.

Lemma searchBooks_upstream_failure (q : jsstring) (w w1 : World) (e : JsError) :
  getAIRecommendations net AI_API_KEY q w = (Throw e, w1) ->
  searchBooks net GOOGLE_API_KEY GOOGLE_CX AI_API_KEY q w = (Ok (failure_result q), w1).
Proof.
  intros H. unfold searchBooks, try_catch, bind. rewrite H. reflexivity.
Qed.

End Orchestrator.

(** C2. [searchBooks] returns a result for every query and world, and
    when [getAIRecommendations] throws, that result has no books, zero
    counts and the query it was given. *)
Theorem searchBooks_never_raises
    (net : Transport) (GOOGLE_API_KEY GOOGLE_CX AI_API_KEY : option jsstring)
    (q : jsstring) (w : World) :
  (exists r w', searchBooks net GOOGLE_API_KEY GOOGLE_CX AI_API_KEY q w = (Ok r, w')) /\
  (forall e w1,
     getAIRecommendations net AI_API_KEY q w = (Throw e, w1) ->
     searchBooks net GOOGLE_API_KEY GOOGLE_CX AI_API_KEY q w
     = (Ok {| books := []; totalResults := 0; query := q; enhancedQuery := None;
              searchTerms := None; aiRecommendationsCount := 0; pdfFoundCount := 0;
              booksWithoutPDFs := None |}, w1)).
Proof.
  split.
  - apply searchBooks_returns.
  - intros e w1 H. exact (searchBooks_upstream_failure _ _ _ _ _ _ _ _ H).
Qed.

Lemma searchBooks_never_raises_witness :
  (getAIRecommendations offline None (js "dune") empty_world).1 = Throw AxiosError /\
  (searchBooks offline None None None (js "dune") empty_world).1
  = Ok (failure_result (js "dune")).
Proof.
  split.
  - vm_compute. reflexivity.
  - rewrite (proj2 (searchBooks_never_raises offline None None None (js "dune") empty_world)
               AxiosError
               (sent offline (ChatCompletion (authorization None) (user_content (js "dune")))
                  empty_world)).
    + reflexivity.
    + vm_compute. reflexivity.
Defined.

(** ** Strings: prefixes, suffixes and substrings *)

Lemma startsWith_spec (p s : jsstring) :
  startsWith p s = true <-> exists r, s = p ++ r.
Proof.
  revert s. induction p as [|a p IH]; intros s; simpl.
  - split; eauto.
  - destruct s as [|b s].
    + split; [discriminate | intros [r H]; discriminate].
    + rewrite andb_true_iff, N.eqb_eq, IH. split.
      * intros [-> [r ->]]. eauto.
      * intros [r H]. injection H as -> ->. eauto.
Qed.

Lemma includes_spec (p s : jsstring) :
  includes p s = true <-> exists a b, s = a ++ p ++ b.
Proof.
  induction s as [|c s IH]; simpl.
  - rewrite orb_false_r, startsWith_spec. split.
    + intros [r H]. exists [], r. exact H.
    + intros [a [b H]]. destruct a; simpl in H; [eauto | discriminate].
  - rewrite orb_true_iff, startsWith_spec, IH. split.
    + intros [[r H] | [a [b H]]].
      * exists [], r. exact H.
      * exists (c :: a), b. simpl. congruence.
    + intros [a [b H]]. destruct a as [|x a]; simpl in H.
      * left. eauto.
      * right. injection H as -> ->. eauto.
Qed.

Lemma endsWith_spec (p s : jsstring) :
  endsWith p s = true <-> exists a, s = a ++ p.
Proof.
  unfold endsWith. rewrite startsWith_spec. split.
  - intros [r H]. exists (rev r).
    rewrite <- (rev_involutive s), H, rev_app_distr, rev_involutive. reflexivity.
  - intros [a ->]. exists (rev a). apply rev_app_distr.
Qed.

Lemma endsWith_includes (p s : jsstring) :
  endsWith p s = true -> includes p s = true.
Proof.
  rewrite endsWith_spec, includes_spec. intros [a ->]. exists a, [].
  rewrite app_nil_r. reflexivity.
Qed.

(** ** The PDF locator *)

Lemma ends_in_pdf_mentions (item : SearchItem) :
  ends_in_pdf item = true -> mentions_pdf item = true.
Proof.
  unfold ends_in_pdf, mentions_pdf. rewrite !andb_true_iff. intros [Hl He].
  split; [exact Hl|]. rewrite (endsWith_includes _ _ He). reflexivity.
Qed.

Lemma scan_items_find (found : list SearchItem) :
  scan_items found = item ← List.find mentions_pdf found; link item.
Proof.
  induction found as [|item rest IH]; simpl; [reflexivity|].
  destruct (ends_in_pdf item) eqn:He.
  - rewrite (ends_in_pdf_mentions _ He). reflexivity.
  - destruct (mentions_pdf item); [reflexivity | exact IH].
Qed.

Section Locator.

Context (net : Transport) (GOOGLE_API_KEY GOOGLE_CX : option jsstring).

Lemma searchGoogleForPDF_unconfigured (t a : jsstring) (w : World) :
  truthy GOOGLE_API_KEY = false \/ truthy GOOGLE_CX = false ->
  searchGoogleForPDF net GOOGLE_API_KEY GOOGLE_CX t a w = (Ok None, w).
Proof.
  intros H. unfold searchGoogleForPDF, try_catch.
  assert (negb (truthy GOOGLE_API_KEY) || negb (truthy GOOGLE_CX) = true) as ->.
  { destruct H as [-> | ->]; [reflexivity | apply orb_true_r]. }
  reflexivity.
Qed.

Lemma searchGoogleForPDF_configured (t a : jsstring) (w : World) :
  truthy GOOGLE_API_KEY = true -> truthy GOOGLE_CX = true ->
  searchGoogleForPDF net GOOGLE_API_KEY GOOGLE_CX t a w
  = (Ok (match get_customsearch net w (default [] GOOGLE_API_KEY) (default [] GOOGLE_CX)
                 (pdf_query t a) (clean t) with
         | Some found =>
             match items found with
             | Some (i :: is') => scan_items (i :: is')
             | _ => None
             end
         | None => None
         end),
     sent net (CustomSearch (default [] GOOGLE_API_KEY) (default [] GOOGLE_CX)
                 (pdf_query t a) (clean t)) w).
Proof.
  intros Hk Hc. unfold searchGoogleForPDF, try_catch, bind, axios.
  rewrite Hk, Hc. simpl.
  destruct (get_customsearch net w _ _ _ _) as [found|]; [|reflexivity].
  destruct (items found) as [[|i is']|]; reflexivity.
Qed.

End Locator.

(** C5. [searchGoogleForPDF] returns for every title, author and world.
    Without an API key or a search-engine id the result is absent and
    the world, and with it the log of requests, is unchanged; a failed
    request and an answer without items give absent as well. *)
Theorem searchGoogleForPDF_never_fails
    (net : Transport) (GOOGLE_API_KEY GOOGLE_CX : option jsstring)
    (t a : jsstring) (w : World) :
  exists r w',
    searchGoogleForPDF net GOOGLE_API_KEY GOOGLE_CX t a w = (Ok r, w') /\
    (truthy GOOGLE_API_KEY = false \/ truthy GOOGLE_CX = false ->
     r = None /\ w' = w /\ requests w' = requests w) /\
    (get_customsearch net w (default [] GOOGLE_API_KEY) (default [] GOOGLE_CX)
       (pdf_query t a) (clean t) = None -> r = None) /\
    (forall found,
       get_customsearch net w (default [] GOOGLE_API_KEY) (default [] GOOGLE_CX)
         (pdf_query t a) (clean t) = Some found ->
       items found = None \/ items found = Some [] -> r = None).
Proof.
  destruct (truthy GOOGLE_API_KEY) eqn:Hk; [destruct (truthy GOOGLE_CX) eqn:Hc|].
  - eexists _, _. split; [apply searchGoogleForPDF_configured; assumption|].
    split; [intros [H|H]; discriminate|]. split.
    + intros ->. reflexivity.
    + intros found -> [-> | ->]; reflexivity.
  - exists None, w. split; [apply searchGoogleForPDF_unconfigured; auto|].
    split; [auto|]. split; auto.
  - exists None, w. split; [apply searchGoogleForPDF_unconfigured; auto|].
    split; [auto|]. split; auto.
Qed.

Lemma searchGoogleForPDF_never_fails_witness :
  searchGoogleForPDF offline None (Some (js "cx")) (js "Dune") (js "Frank Herbert") empty_world
  = (Ok None, empty_world) /\
  (searchGoogleForPDF offline (Some (js "key")) (Some (js "cx")) (js "Dune") (js "Frank Herbert")
     empty_world).1 = Ok None /\
  (searchGoogleForPDF (search_answers {| items := Some [] |}) (Some (js "key")) (Some (js "cx"))
     (js "Dune") (js "Frank Herbert") empty_world).1 = Ok None.
Proof.
  split; [|split].
  - destruct (searchGoogleForPDF_never_fails offline None (Some (js "cx"))
                (js "Dune") (js "Frank Herbert") empty_world)
      as [r [w' [H [Hcred _]]]].
    destruct (Hcred (or_introl eq_refl)) as [-> [-> _]]. exact H.
  - destruct (searchGoogleForPDF_never_fails offline (Some (js "key")) (Some (js "cx"))
                (js "Dune") (js "Frank Herbert") empty_world)
      as [r [w' [H [_ [Herr _]]]]].
    rewrite H, (Herr eq_refl). reflexivity.
  - destruct (searchGoogleForPDF_never_fails (search_answers {| items := Some [] |})
                (Some (js "key")) (Some (js "cx")) (js "Dune") (js "Frank Herbert") empty_world)
      as [r [w' [H [_ [_ Hempty]]]]].
    rewrite H, (Hempty _ eq_refl (or_intror eq_refl)). reflexivity.
Defined.

(** C4, as stated, fails: with a page that only mentions pdf listed
    before a link that ends in [.pdf], the document asks for the second
    link and [searchGoogleForPDF] returns the first. *)
Lemma searchGoogleForPDF_not_suffix_first :
  locate_as_described [reader_page; direct_file] = Some (js "https://host.example/dune.pdf") /\
  (searchGoogleForPDF (search_answers {| items := Some [reader_page; direct_file] |})
     (Some (js "key")) (Some (js "cx")) (js "Dune") (js "Frank Herbert") empty_world).1
  = Ok (Some (js "https://pdfdrive.example/dune")) /\
  (searchGoogleForPDF (search_answers {| items := Some [reader_page; direct_file] |})
     (Some (js "key")) (Some (js "cx")) (js "Dune") (js "Frank Herbert") empty_world).1
  <> Ok (locate_as_described [reader_page; direct_file]).
Proof.
  split; [vm_compute; reflexivity|].
  split; [vm_compute; reflexivity|].
  vm_compute. intros H. discriminate H.
Qed.

(** C4, amended. When the search answers with a non-empty list,
    [searchGoogleForPDF] returns the link of the first result, in list
    order, that has a link and whose URL contains [.pdf] or whose
    display domain or snippet contains [pdf], letter case ignored; it
    returns absent when no result is of this kind. *)
Theorem searchGoogleForPDF_first_mention
    (net : Transport) (GOOGLE_API_KEY GOOGLE_CX : option jsstring)
    (t a : jsstring) (w : World) (found : SearchData) (results : list SearchItem) :
  truthy GOOGLE_API_KEY = true -> truthy GOOGLE_CX = true ->
  get_customsearch net w (default [] GOOGLE_API_KEY) (default [] GOOGLE_CX)
    (pdf_query t a) (clean t) = Some found ->
  items found = Some results -> results <> [] ->
  (searchGoogleForPDF net GOOGLE_API_KEY GOOGLE_CX t a w).1
  = Ok (item ← List.find mentions_pdf results; link item) /\
  ((forall item, In item results -> mentions_pdf item = false) ->
   (searchGoogleForPDF net GOOGLE_API_KEY GOOGLE_CX t a w).1 = Ok None).
Proof.
  intros Hk Hc Hans Hitems Hne.
  assert ((searchGoogleForPDF net GOOGLE_API_KEY GOOGLE_CX t a w).1
          = Ok (item ← List.find mentions_pdf results; link item)) as Hres.
  { rewrite (searchGoogleForPDF_configured _ _ _ _ _ _ Hk Hc), Hans, Hitems.
    destruct results as [|i is']; [congruence|]. cbn [fst].
    rewrite scan_items_find. reflexivity. }
  split; [exact Hres|].
  intros Hnone. rewrite Hres.
  destruct (List.find mentions_pdf results) as [item|] eqn:Hf; [|reflexivity].
  apply find_some in Hf. destruct Hf as [Hin Hm]. rewrite (Hnone _ Hin) in Hm. discriminate.
Qed.

Lemma searchGoogleForPDF_first_mention_witness :
  (searchGoogleForPDF (search_answers {| items := Some [direct_file; reader_page] |})
     (Some (js "key")) (Some (js "cx")) (js "Dune") (js "Frank Herbert") empty_world).1
  = Ok (Some (js "https://host.example/dune.pdf")).
Proof.
  apply (proj1 (searchGoogleForPDF_first_mention
                  (search_answers {| items := Some [direct_file; reader_page] |})
                  (Some (js "key")) (Some (js "cx")) (js "Dune") (js "Frank Herbert") empty_world
                  {| items := Some [direct_file; reader_page] |} [direct_file; reader_page]
                  eq_refl eq_refl eq_refl eq_refl ltac:(discriminate))).
Defined.

(** ** Promise.all *)

Lemma Promise_all_length {A} (tasks : list (M A)) (w w' : World) (l : list A) :
  Promise_all tasks w = (Ok l, w') -> length l = length tasks.
Proof.
  revert w w' l. induction tasks as [|t ts IH]; intros w w' l; simpl.
  - intros H. injection H as <- _. reflexivity.
  - destruct (t w) as [r w1]. destruct (Promise_all ts w1) as [rs w2] eqn:Hrs.
    destruct r as [a|e]; [destruct rs as [l0|e]|]; intros H; try discriminate.
    injection H as <- _. simpl. f_equal. eapply IH. exact Hrs.
Qed.

(** What holds of the value of every task holds of every value of the
    list. *)
Lemma Promise_all_Forall {A} (P : A -> Prop) (tasks : list (M A)) (w w' : World) (l : list A) :
  Forall (fun t => forall w0 w1 a, t w0 = (Ok a, w1) -> P a) tasks ->
  Promise_all tasks w = (Ok l, w') -> Forall P l.
Proof.
  intros Hall. revert w w' l.
  induction Hall as [|t ts Ht Hts IH]; intros w w' l; simpl.
  - intros H. injection H as <- _. constructor.
  - destruct (t w) as [r w1] eqn:Htw. destruct (Promise_all ts w1) as [rs w2] eqn:Hrs.
    destruct r as [a|e]; [destruct rs as [l0|e]|]; intros H; try discriminate.
    injection H as <- _. constructor; [eapply Ht; exact Htw | eapply IH; exact Hrs].
Qed.

Lemma filter_partition_length {A} (f : A -> bool) (l : list A) :
  (length (List.filter f l) + length (List.filter (fun x => negb (f x)) l))%nat = length l.
Proof.
  induction l as [|x l IH]; simpl; [reflexivity|].
  destruct (f x); simpl; lia.
Qed.

(** ** The download URL of a converted book *)

Lemma scan_items_truthy (found : list SearchItem) :
  scan_items found = None \/ truthy (scan_items found) = true.
Proof.
  induction found as [|item rest IH]; simpl; [auto|].
  destruct (ends_in_pdf item) eqn:He.
  - right. unfold ends_in_pdf in He. apply andb_true_iff in He. tauto.
  - destruct (mentions_pdf item) eqn:Hm; [|exact IH].
    right. unfold mentions_pdf in Hm. apply andb_true_iff in Hm. tauto.
Qed.

Lemma searchGoogleForPDF_truthy
    (net : Transport) (K CX : option jsstring) (t a : jsstring) (w w' : World)
    (r : option jsstring) :
  searchGoogleForPDF net K CX t a w = (Ok r, w') -> r = None \/ truthy r = true.
Proof.
  destruct (truthy K) eqn:Hk; [destruct (truthy CX) eqn:Hc|].
  - rewrite (searchGoogleForPDF_configured _ _ _ _ _ _ Hk Hc). intros H. injection H as <- _.
    destruct (get_customsearch _ _ _ _ _ _) as [found|]; [|auto].
    destruct (items found) as [[|i is']|]; auto. exact (scan_items_truthy (i :: is')).
  - rewrite searchGoogleForPDF_unconfigured by auto. intros H. injection H as <- _. auto.
  - rewrite searchGoogleForPDF_unconfigured by auto. intros H. injection H as <- _. auto.
Qed.

Lemma convert_downloadUrl
    (net : Transport) (K CX : option jsstring) (rec : json) (index : nat) (q : jsstring)
    (w w' : World) (b : Book) :
  convertAIRecommendationToBook net K CX rec index q w = (Ok b, w') ->
  (has_pdf b = true <-> is_Some (downloadUrl b)).
Proof.
  unfold convertAIRecommendationToBook, bind, lift.
  destruct (string_receiver rec) as [text|e]; [|discriminate].
  destruct (parse_recommendation text) as [[ttl authorString] authors].
  unfold Promise_all2, ret.
  match goal with |- context [searchGoogleForPDF net K CX ?t ?a w] =>
    destruct (searchGoogleForPDF net K CX t a w) as [r1 w1] eqn:Hpdf end.
  match goal with |- context [fetchBookCover net ?t ?a w1] =>
    destruct (fetchBookCover net t a w1) as [r2 w2] end.
  destruct r1 as [url|e]; [destruct r2 as [cover|e]|]; try discriminate.
  intros H. injection H as <- _. unfold has_pdf. simpl.
  destruct (searchGoogleForPDF_truthy _ _ _ _ _ _ _ _ Hpdf) as [-> | Ht].
  - split; [discriminate | intros [x Hx]; discriminate].
  - split; [intros _|auto]. destruct url; [eauto | discriminate].
Qed.

(** ** The result of a search *)

Section Search.

Context (net : Transport) (GOOGLE_API_KEY GOOGLE_CX AI_API_KEY : option jsstring).

Lemma searchBooks_success (q : jsstring) (w w1 w2 : World) (aiData : json)
    (recs : list json) (aiBooks : list Book) :
  getAIRecommendations net AI_API_KEY q w = (Ok aiData, w1) ->
  recommendations_of aiData = Ok recs ->
  Promise_all (conversions net GOOGLE_API_KEY GOOGLE_CX recs q) w1 = (Ok aiBooks, w2) ->
  searchBooks net GOOGLE_API_KEY GOOGLE_CX AI_API_KEY q w
  = (Ok {| books := List.filter has_pdf aiBooks
                    ++ List.filter (fun book => negb (has_pdf book)) aiBooks;
           totalResults := length (List.filter has_pdf aiBooks
                                   ++ List.filter (fun book => negb (has_pdf book)) aiBooks);
           query := q;
           enhancedQuery := property (js "enhancedQuery") aiData;
           searchTerms := property (js "searchTerms") aiData;
           aiRecommendationsCount := length aiBooks;
           pdfFoundCount := length (List.filter has_pdf aiBooks);
           booksWithoutPDFs :=
             Some (length (List.filter (fun book => negb (has_pdf book)) aiBooks)) |}, w2).
Proof.
  intros Hfetch Hrecs Hall.
  unfold searchBooks, try_catch, bind, lift.
  rewrite Hfetch, Hrecs, Hall. reflexivity.
Qed.

End Search.

Lemma Forall_imap {A B} (P : B -> Prop) (f : nat -> A -> B) (l : list A) :
  (forall i x, P (f i x)) -> Forall P (imap f l).
Proof.
  revert f. induction l as [|x l IH]; intros f H; simpl; constructor.
  - apply H.
  - apply IH. intros i y. apply H.
Qed.

(** C1, as stated, fails: the model may answer with JSON that has no
    list of recommendations.  The fetch succeeds, and the search
    returns the result of a failed search, in which the number of
    books without a PDF is absent. *)
Lemma searchBooks_unpartitioned :
  (getAIRecommendations (model_replies (jsq "{'books': ['Dune by Frank Herbert']}")) None
     (js "dune") empty_world).1
  = Ok (JObj [(js "books", JArr [JStr (js "Dune by Frank Herbert")])]) /\
  (searchBooks (model_replies (jsq "{'books': ['Dune by Frank Herbert']}")) None None None
     (js "dune") empty_world).1
  = Ok (failure_result (js "dune")) /\
  forall converted, ~ partitioned_by_pdf converted (failure_result (js "dune")).
Proof.
  split; [vm_compute; reflexivity|].
  split; [vm_compute; reflexivity|].
  intros converted [_ [_ H]]. discriminate H.
Qed.

(** C1, amended. When the fetch returns an object whose
    [recommendations] is an array and every conversion completes,
    [searchBooks] returns the converted books that have a download URL,
    in their original order, followed by those that have none, also in
    their original order, with [pdfFoundCount] and [booksWithoutPDFs]
    the sizes of the two parts. *)
Theorem searchBooks_partitions
    (net : Transport) (GOOGLE_API_KEY GOOGLE_CX AI_API_KEY : option jsstring)
    (q : jsstring) (w w1 w2 : World) (aiData : json) (recs : list json)
    (aiBooks : list Book) :
  getAIRecommendations net AI_API_KEY q w = (Ok aiData, w1) ->
  recommendations_of aiData = Ok recs ->
  Promise_all (conversions net GOOGLE_API_KEY GOOGLE_CX recs q) w1 = (Ok aiBooks, w2) ->
  exists r,
    searchBooks net GOOGLE_API_KEY GOOGLE_CX AI_API_KEY q w = (Ok r, w2) /\
    partitioned_by_pdf aiBooks r /\
    Forall (fun book => has_pdf book = true <-> is_Some (downloadUrl book)) aiBooks.
Proof.
  intros Hfetch Hrecs Hall. eexists. split.
  - eapply searchBooks_success; eassumption.
  - split.
    + repeat split.
    + eapply Promise_all_Forall; [|exact Hall].
      apply Forall_imap. intros i x w0 w3 b Hb.
      eapply convert_downloadUrl. exact Hb.
Qed.

Lemma searchBooks_partitions_witness :
  exists r,
    (searchBooks bookshop (Some (js "key")) (Some (js "cx")) None (js "classics") empty_world).1
    = Ok r /\
    List.map id (books r) = [js "ai-rec-0"; js "ai-rec-2"; js "ai-rec-1"] /\
    List.map title (books r) = [js "Dune"; js "Ulysses"; js "Emma"] /\
    pdfFoundCount r = 2%nat /\ booksWithoutPDFs r = Some 1%nat.
Proof.
  edestruct (searchBooks_partitions bookshop (Some (js "key")) (Some (js "cx")) None
               (js "classics") empty_world) as [r [Hr [[Hb [Hp Hn]] _]]].
  - vm_compute. reflexivity.
  - vm_compute. reflexivity.
  - vm_compute. reflexivity.
  - exists r. rewrite Hr, Hb, Hp, Hn. split; [reflexivity|].
    vm_compute. repeat split.
Defined.

(** C10, as stated, fails: the model may return an entry that is not a
    string.  The fetch succeeds with two entries, one of them a string,
    and the search returns the result of a failed search: no books,
    zero counts and no count of books without a PDF. *)
Lemma searchBooks_counts_disagree :
  (getAIRecommendations
     (model_replies (jsq "{'recommendations': ['Dune by Frank Herbert', 7]}")) None
     (js "dune") empty_world).1
  = Ok (JObj [(js "recommendations", JArr [JStr (js "Dune by Frank Herbert"); JNum (js "7")])]) /\
  (searchBooks (model_replies (jsq "{'recommendations': ['Dune by Frank Herbert', 7]}"))
     None None None (js "dune") empty_world).1
  = Ok (failure_result (js "dune")) /\
  ~ counts_agree [JStr (js "Dune by Frank Herbert"); JNum (js "7")] (failure_result (js "dune")).
Proof.
  split; [vm_compute; reflexivity|].
  split; [vm_compute; reflexivity|].
  intros [_ [_ [H _]]]. discriminate H.
Qed.

(** C10, amended. When the fetch returns an object whose
    [recommendations] is an array and every conversion completes, the
    result of [searchBooks] has [totalResults] equal to the number of
    its books, to [aiRecommendationsCount] and to the number of
    recommendations, and [pdfFoundCount] plus [booksWithoutPDFs] equal
    to [totalResults]. *)
Theorem searchBooks_counts
    (net : Transport) (GOOGLE_API_KEY GOOGLE_CX AI_API_KEY : option jsstring)
    (q : jsstring) (w w1 w2 : World) (aiData : json) (recs : list json)
    (aiBooks : list Book) :
  getAIRecommendations net AI_API_KEY q w = (Ok aiData, w1) ->
  recommendations_of aiData = Ok recs ->
  Promise_all (conversions net GOOGLE_API_KEY GOOGLE_CX recs q) w1 = (Ok aiBooks, w2) ->
  exists r,
    searchBooks net GOOGLE_API_KEY GOOGLE_CX AI_API_KEY q w = (Ok r, w2) /\
    counts_agree recs r.
Proof.
  intros Hfetch Hrecs Hall. eexists. split.
  - eapply searchBooks_success; eassumption.
  - pose proof (Promise_all_length _ _ _ _ Hall) as Hlen.
    unfold conversions in Hlen. rewrite length_imap in Hlen.
    unfold counts_agree. simpl.
    rewrite length_app, filter_partition_length.
    repeat split; try assumption. eexists. split; [reflexivity|].
    apply filter_partition_length.
Qed.

Lemma searchBooks_counts_witness :
  exists r,
    (searchBooks bookshop (Some (js "key")) (Some (js "cx")) None (js "classics") empty_world).1
    = Ok r /\
    totalResults r = 3%nat /\ length (books r) = 3%nat /\ aiRecommendationsCount r = 3%nat /\
    exists n, booksWithoutPDFs r = Some n /\ (pdfFoundCount r + n)%nat = 3%nat.
Proof.
  edestruct (searchBooks_counts bookshop (Some (js "key")) (Some (js "cx")) None
               (js "classics") empty_world) as [r [Hr [Ht [Hb [Ha [n [Hn Hs]]]]]]].
  - vm_compute. reflexivity.
  - vm_compute. reflexivity.
  - vm_compute. reflexivity.
  - exists r. rewrite Hr. simpl in Ha. split; [reflexivity|].
    repeat split; try congruence. exists n. split; [exact Hn | congruence].
Defined.

(** ** The recommendation client *)

Section Client.

Context (net : Transport) (AI_API_KEY : option jsstring).

Lemma getRecommendationsFromModel_eq (q : jsstring) (timeoutMs : Z) (w : World) :
  getRecommendationsFromModel net AI_API_KEY q timeoutMs w
  = (match post_chat net w (authorization AI_API_KEY) (user_content q) with
     | None => Throw AxiosError
     | Some response =>
         match first_content response with
         | Throw e => Throw e
         | Ok content =>
             if truthy content
             then extractJsonFromResponse (default [] content)
             else Throw (Error (js "No content received from model"))
         end
     end,
     sent net (ChatCompletion (authorization AI_API_KEY) (user_content q)) w).
Proof.
  unfold getRecommendationsFromModel, try_catch, bind, axios, throw, lift, ret.
  destruct (post_chat net w _ _) as [response|]; [|reflexivity].
  destruct (first_content response) as [content|e]; [|reflexivity].
  destruct (truthy content); [|reflexivity].
  destruct (extractJsonFromResponse _); reflexivity.
Qed.

Lemma getAIRecommendations_miss (q : jsstring) (w : World) :
  cache_get (normalize q) w = None ->
  getAIRecommendations net AI_API_KEY q w
  = match getRecommendationsFromModel net AI_API_KEY q 8000 w with
    | (Ok result, w1) => (Ok result, (cache_set (normalize q) result w1).2)
    | (Throw e, w1) => (Throw e, w1)
    end.
Proof.
  intros H. unfold getAIRecommendations. rewrite H. unfold bind, ret.
  destruct (getRecommendationsFromModel net AI_API_KEY q 8000 w) as [[result|e] w1];
    reflexivity.
Qed.

Lemma getAIRecommendations_hit (q : jsstring) (w : World) (v : json) :
  cache_get (normalize q) w = Some v ->
  getAIRecommendations net AI_API_KEY q w = (Ok v, w).
Proof.
  intros H. unfold getAIRecommendations. rewrite H. reflexivity.
Qed.

Lemma extractJsonFromResponse_error (text : jsstring) (e : JsError) :
  extractJsonFromResponse text = Throw e -> e = SyntaxError.
Proof.
  unfold extractJsonFromResponse. destruct (JSON_parse _); congruence.
Qed.

End Client.

(** C9, as stated, fails: a reply that is valid JSON but not of the
    Recommendation shape is returned as the result of the fetch. *)
Lemma getAIRecommendations_unchecked_shape :
  (getAIRecommendations (model_replies (jsq "{'answer': 42}")) None (js "dune") empty_world).1
  = Ok (JObj [(js "answer", JNum (js "42"))]) /\
  is_recommendation (JObj [(js "answer", JNum (js "42"))]) = false.
Proof.
  split; vm_compute; reflexivity.
Qed.

(** C9, amended. For a query that no fresh cache entry answers,
    [getAIRecommendations] throws, and returns no substitute value,
    when the chat-completion request fails or times out, when the
    answer has no choices or no content, and when the text taken from
    the content is not valid JSON; content that is valid JSON is
    returned whatever its shape. *)
Theorem getAIRecommendations_failures
    (net : Transport) (AI_API_KEY : option jsstring) (q : jsstring) (w : World) :
  cache_get (normalize q) w = None ->
  (post_chat net w (authorization AI_API_KEY) (user_content q) = None ->
   (getAIRecommendations net AI_API_KEY q w).1 = Throw AxiosError) /\
  (forall response,
     post_chat net w (authorization AI_API_KEY) (user_content q) = Some response ->
     (choices response = None ->
      (getAIRecommendations net AI_API_KEY q w).1 = Throw TypeError) /\
     (forall content,
        first_content response = Ok content -> truthy content = false ->
        (getAIRecommendations net AI_API_KEY q w).1
        = Throw (Error (js "No content received from model"))) /\
     (forall text,
        first_content response = Ok (Some text) -> text <> [] ->
        (forall e, extractJsonFromResponse text = Throw e ->
                   e = SyntaxError /\
                   (getAIRecommendations net AI_API_KEY q w).1 = Throw SyntaxError) /\
        (forall v, extractJsonFromResponse text = Ok v ->
                   (getAIRecommendations net AI_API_KEY q w).1 = Ok v))).
Proof.
  intros Hmiss. rewrite (getAIRecommendations_miss _ _ _ _ Hmiss).
  rewrite getRecommendationsFromModel_eq.
  split.
  - intros ->. reflexivity.
  - intros response ->. split; [|split].
    + intros Hc. unfold first_content. rewrite Hc. reflexivity.
    + intros content -> ->. reflexivity.
    + intros text -> Hne.
      assert (truthy (Some text) = true) as -> by (destruct text; [congruence | reflexivity]).
      simpl. split.
      * intros e He. pose proof (extractJsonFromResponse_error _ _ He) as ->.
        rewrite He. auto.
      * intros v ->. reflexivity.
Qed.

Lemma getAIRecommendations_failures_witness :
  (getAIRecommendations offline None (js "dune") empty_world).1 = Throw AxiosError /\
  (getAIRecommendations (model_replies (js "Sorry, no books.")) None (js "dune") empty_world).1
  = Throw SyntaxError.
Proof.
  split.
  - apply (proj1 (getAIRecommendations_failures offline None (js "dune") empty_world eq_refl)).
    reflexivity.
  - destruct (getAIRecommendations_failures (model_replies (js "Sorry, no books.")) None
                (js "dune") empty_world eq_refl) as [_ H].
    destruct (H {| choices := Some [{| message := Some {| content := Some (js "Sorry, no books.") |} |}] |}
                eq_refl) as [_ [_ Htext]].
    destruct (Htext (js "Sorry, no books.") eq_refl ltac:(discriminate)) as [He _].
    apply (He SyntaxError). vm_compute. reflexivity.
Defined.

(** ** The cover-image resolver *)

Section Cover.

Context (net : Transport).

(** Closes a goal that asks for the result, the world and the requests
    added to the log, once the function has been run. *)
Ltac logged :=
  eexists _, _, _; split; [reflexivity|];
  split; [simpl; rewrite <- ?app_assoc; reflexivity | reflexivity].

Lemma fetchBookCoverFromOpenLibrary_returns (t a : jsstring) (w : World) :
  exists r w' extra,
    fetchBookCoverFromOpenLibrary net t a w = (Ok r, w') /\
    requests w' = requests w ++ extra /\
    forallb (fun r => negb (is_volumes_request r)) extra = true.
Proof.
  unfold fetchBookCoverFromOpenLibrary, try_catch, bind, axios, ret.
  destruct (get_openlibrary net w _) as [data|]; [|logged].
  destruct (docs data) as [[|d ds]|]; [logged| |logged].
  destruct (first_cover_id (d :: ds)); [logged|].
  destruct (List.find has_isbn (d :: ds)); [|logged].
  destruct (head_cover net _ _); logged.
Qed.

Lemma fetchBookCoverFromGoogleBooks_returns (t a : jsstring) (w : World) :
  exists r w', fetchBookCoverFromGoogleBooks net t a w = (Ok r, w').
Proof.
  unfold fetchBookCoverFromGoogleBooks, try_catch, bind, axios, ret.
  destruct (get_volumes net w _) as [data|]; [|eauto].
  destruct (volumes data) as [[|i is']|]; eauto.
Qed.

(** A cover of the first source is the result, and the world is the one
    that the first source left. *)
Lemma fetchBookCover_first_source (t a url : jsstring) (w w1 : World) :
  fetchBookCoverFromOpenLibrary net t a w = (Ok (Some url), w1) -> url <> [] ->
  fetchBookCover net t a w = (Ok url, w1) /\
  exists extra, requests w1 = requests w ++ extra /\
                forallb (fun r => negb (is_volumes_request r)) extra = true.
Proof.
  intros H Hne. split.
  - unfold fetchBookCover, bind. rewrite H.
    destruct url as [|c url]; [congruence|]. reflexivity.
  - destruct (fetchBookCoverFromOpenLibrary_returns t a w) as [r [w' [extra [H' [Hr Hx]]]]].
    rewrite H in H'. injection H' as _ <-. eauto.
Qed.

(** Without a cover from either source the result is the placeholder,
    provided the truncated title and author can be URI-encoded. *)
Lemma fetchBookCover_placeholder (t a : jsstring) (w w1 w2 : World)
    (r1 r2 : option jsstring) (et ea : jsstring) :
  fetchBookCoverFromOpenLibrary net t a w = (Ok r1, w1) -> truthy r1 = false ->
  fetchBookCoverFromGoogleBooks net t a w1 = (Ok r2, w2) -> truthy r2 = false ->
  encodeURIComponent (take 30 t) = Some et ->
  encodeURIComponent (take 20 a) = Some ea ->
  fetchBookCover net t a w = (Ok (placeholder et ea), w2).
Proof.
  intros H1 Hr1 H2 Hr2 Ht Ha. unfold fetchBookCover, bind, substring0.
  rewrite H1, Hr1. simpl. rewrite H2, Hr2. simpl. rewrite Ht, Ha. reflexivity.
Qed.

End Cover.

Lemma encodeURIComponent_total (s : jsstring) :
  no_surrogates s -> exists e, encodeURIComponent s = Some e.
Proof.
  induction 1 as [|c s [Hh Hl] _ [e IH]]; [eexists; reflexivity|].
  cbn [encodeURIComponent]. rewrite Hh, Hl, IH.
  destruct (is_uri_unreserved c); eexists; reflexivity.
Qed.

Lemma no_surrogates_take (n : nat) (s : jsstring) : no_surrogates s -> no_surrogates (take n s).
Proof. unfold no_surrogates. apply Forall_take. Qed.

(** For a title and an author without surrogate code units the resolver
    returns a URL, whatever the remote services answer. *)
Lemma fetchBookCover_returns (net : Transport) (t a : jsstring) (w : World) :
  no_surrogates t -> no_surrogates a ->
  exists url w', fetchBookCover net t a w = (Ok url, w').
Proof.
  intros Ht Ha.
  destruct (encodeURIComponent_total _ (no_surrogates_take 30 _ Ht)) as [et Het].
  destruct (encodeURIComponent_total _ (no_surrogates_take 20 _ Ha)) as [ea Hea].
  destruct (fetchBookCoverFromOpenLibrary_returns net t a w) as (r1 & w1 & extra & H1 & _).
  unfold fetchBookCover, bind, substring0. rewrite H1.
  destruct (truthy r1) eqn:Hr1; cbn [negb].
  - unfold ret. rewrite Hr1. cbn [negb]. eauto.
  - destruct (fetchBookCoverFromGoogleBooks_returns net t a w1) as (r2 & w2 & H2).
    rewrite H2. destruct (truthy r2); cbn [negb]; [unfold ret; eauto|].
    rewrite Het, Hea. unfold ret. eauto.
Qed.

(** C6 does not hold of the code.  A title whose thirtieth and
    thirty-first code units are the two halves of one character is cut
    between them, [encodeURIComponent] throws on the half that is left,
    and [fetchBookCover] fails instead of returning the placeholder. *)
Theorem fetchBookCover_split_pair :
  length long_title = 31%nat /\
  encodeURIComponent long_title
  = Some (repeat 97 29 ++ js "%F0%9F%98%80") /\
  (fetchBookCoverFromOpenLibrary offline long_title (js "Ann Author") empty_world).1 = Ok None /\
  (fetchBookCover offline long_title (js "Ann Author") empty_world).1 = Throw URIError.
Proof.
  repeat split; vm_compute; reflexivity.
Qed.

(** The same failure seen from the orchestrator: a reply of the
    Recommendation shape, and the result of a failed search. *)
Example searchBooks_split_pair :
  (recs ← JSON_parse long_title_reply;
   lookup_member (js "recommendations") (match recs with JObj m => m | _ => [] end))
  = Some (JArr [JStr (long_title ++ js " by Ann Author")]) /\
  is_recommendation (default JNull (JSON_parse long_title_reply)) = true /\
  (searchBooks (model_replies long_title_reply) None None None (js "smile") empty_world).1
  = Ok (failure_result (js "smile")).
Proof. repeat split; vm_compute; reflexivity. Qed.

(** ** The recommendation cache *)

(** Decides the comparisons of [x] with constants in the goal. *)
Ltac settle_comparisons x :=
  repeat match goal with
         | |- context [N.eqb x ?k] =>
             replace (N.eqb x k) with false by (symmetry; apply N.eqb_neq; lia)
         | |- context [N.leb x ?k] =>
             first [ replace (N.leb x k) with false by (symmetry; apply N.leb_gt; lia)
                   | replace (N.leb x k) with true by (symmetry; apply N.leb_le; lia) ]
         | |- context [N.leb ?k x] =>
             first [ replace (N.leb k x) with false by (symmetry; apply N.leb_gt; lia)
                   | replace (N.leb k x) with true by (symmetry; apply N.leb_le; lia) ]
         end.

Lemma letter_range_not_space (x : N) :
  (65 <= x <= 122) \/ (192 <= x <= 254) -> is_whitespace x = false.
Proof.
  intros H. unfold is_whitespace. destruct H as [H|H]; settle_comparisons x; reflexivity.
Qed.

Lemma is_whitespace_lower (c : N) : is_whitespace (lower_unit c) = is_whitespace c.
Proof.
  unfold lower_unit.
  destruct ((65 <=? c) && (c <=? 90) || (192 <=? c) && (c <=? 222) && negb (c =? 215)) eqn:H;
    [|reflexivity].
  assert ((65 <= c <= 90) \/ (192 <= c <= 222)) as Hr.
  { apply orb_true_iff in H. destruct H as [H|H].
    - apply andb_true_iff in H. destruct H as [H1 H2].
      apply N.leb_le in H1, H2. left. lia.
    - apply andb_true_iff in H. destruct H as [H _].
      apply andb_true_iff in H. destruct H as [H1 H2].
      apply N.leb_le in H1, H2. right. lia. }
  rewrite !letter_range_not_space by lia. reflexivity.
Qed.

Lemma trimStart_space (a s : jsstring) : all_space a -> trimStart (a ++ s) = trimStart s.
Proof.
  induction 1 as [|c a Hc _ IH]; simpl; [reflexivity|]. rewrite Hc. exact IH.
Qed.

Lemma trimStart_all_space (a : jsstring) : all_space a -> trimStart a = [].
Proof.
  intros H. rewrite <- (app_nil_r a), trimStart_space by exact H. reflexivity.
Qed.

Lemma trimStart_app (s b : jsstring) :
  trimStart s <> [] -> trimStart (s ++ b) = trimStart s ++ b.
Proof.
  induction s as [|c s IH]; simpl; [congruence|].
  destruct (is_whitespace c); [exact IH | reflexivity].
Qed.

Lemma all_space_rev (a : jsstring) : all_space a -> all_space (rev a).
Proof. unfold all_space. intros H. apply Forall_rev. exact H. Qed.

Lemma trimEnd_space (s b : jsstring) : all_space b -> trimEnd (s ++ b) = trimEnd s.
Proof.
  intros H. unfold trimEnd. rewrite rev_app_distr, trimStart_space by (apply all_space_rev; exact H).
  reflexivity.
Qed.

Lemma trimStart_cases (s : jsstring) :
  (all_space s /\ trimStart s = []) \/ trimStart s <> [].
Proof.
  induction s as [|c s IH]; simpl.
  - left. split; [constructor | reflexivity].
  - destruct (is_whitespace c) eqn:Hc.
    + destruct IH as [[Hs Ht] | Hn]; [left | right; exact Hn].
      split; [constructor; assumption | exact Ht].
    + right. discriminate.
Qed.

Lemma trim_outer_space (a c b : jsstring) :
  all_space a -> all_space b -> trim (a ++ c ++ b) = trim c.
Proof.
  intros Ha Hb. unfold trim. rewrite trimStart_space by exact Ha.
  destruct (trimStart_cases c) as [[Hc Ht] | Hn].
  - rewrite Ht, trimStart_all_space; [reflexivity|].
    unfold all_space in *. apply Forall_app. split; assumption.
  - rewrite trimStart_app by exact Hn. apply trimEnd_space. exact Hb.
Qed.





Section Cache.

Context (net : Transport) (AI_API_KEY : option jsstring).


Lemma cache_get_expired (k : jsstring) (w : World) (entry : CacheEntry) :
  recommendationCache w !! k = Some entry ->
  (clock w - timestamp entry >= CACHE_DURATION)%Z ->
  cache_get k w = None.
Proof.
  intros Hk Hold. unfold cache_get. rewrite Hk.
  destruct (Z.ltb_spec (clock w - timestamp entry) CACHE_DURATION); [lia | reflexivity].
Qed.


Lemma getAIRecommendations_asks (q : jsstring) (w : World) :
  cache_get (normalize q) w = None ->
  requests (getAIRecommendations net AI_API_KEY q w).2
  = requests w ++ [ChatCompletion (authorization AI_API_KEY) (user_content q)].
Proof.
  intros Hmiss. rewrite (getAIRecommendations_miss _ _ _ _ Hmiss).
  rewrite getRecommendationsFromModel_eq.
  destruct (post_chat net w _ _) as [response|]; [|reflexivity].
  destruct (first_content response) as [content|e]; [|reflexivity].
  destruct (truthy content); [|reflexivity].
  destruct (extractJsonFromResponse _); reflexivity.
Qed.

(** The periodic sweep does not change what a read of the cache
    returns: it deletes only entries that a read already ignores. *)
Lemma sweep_preserves_reads (k : jsstring) (w : World) :
  cache_get k (sweep w).2 = cache_get k w.
Proof.
  unfold cache_get, sweep. cbn [snd clock recommendationCache].
  rewrite map_lookup_filter.
  destruct (recommendationCache w !! k) as [entry|] eqn:Hk; [|reflexivity].
  cbn. destruct (decide (¬ (clock w - timestamp entry > CACHE_DURATION)%Z)) as [Hkeep|Hdrop].
  - rewrite option_guard_True by exact Hkeep. reflexivity.
  - rewrite option_guard_False by exact Hdrop. cbn.
    destruct (Z.ltb_spec (clock w - timestamp entry) CACHE_DURATION); [|reflexivity].
    exfalso. apply Hdrop. lia.
Qed.

End Cache.




(** ** The matcher *)

Lemma star_greedy_ext {R} (p : N -> bool) (k k' : cont R) :
  (forall i s caps, k i s caps = k' i s caps) ->
  forall i s caps, star_greedy p i s caps k = star_greedy p i s caps k'.
Proof.
  intros H i s. revert i. induction s as [|c s IH]; intros i caps; simpl.
  - apply H.
  - destruct (p c); [|apply H]. rewrite IH, H. reflexivity.
Qed.

Lemma star_lazy_ext {R} (p : N -> bool) (k k' : cont R) :
  (forall i s caps, k i s caps = k' i s caps) ->
  forall i s caps, star_lazy p i s caps k = star_lazy p i s caps k'.
Proof.
  intros H i s. revert i. induction s as [|c s IH]; intros i caps; simpl.
  - rewrite H. reflexivity.
  - rewrite H. destruct (k' i (c :: s) caps); [reflexivity|].
    destruct (p c); [apply IH | reflexivity].
Qed.

Lemma rmatch_ext {R} (r : regex) :
  forall (k k' : cont R),
    (forall i s caps, k i s caps = k' i s caps) ->
    forall i s caps, rmatch r i s caps k = rmatch r i s caps k'.
Proof.
  induction r as [|p|r1 IH1 r2 IH2|r IH|g p|r IH| |]; intros k k' H i s caps; simpl.
  - apply H.
  - destruct s as [|c s]; [reflexivity|]. destruct (p c); [apply H | reflexivity].
  - apply IH1. intros i' s' caps'. apply IH2. exact H.
  - rewrite (IH k k' H), H. reflexivity.
  - destruct g; [apply star_greedy_ext | apply star_lazy_ext]; exact H.
  - apply IH. intros i' s' caps'. apply H.
  - destruct (Nat.eqb i 0); [apply H | reflexivity].
  - destruct s; [apply H | reflexivity].
Qed.

Lemma rmatch_lit {R} (p : jsstring) (i : nat) (s : jsstring) (caps : list jsstring) (k : cont R) :
  rmatch (lit p) i s caps k
  = if startsWith p s then k (i + length p)%nat (drop (length p) s) caps else None.
Proof.
  revert i s. induction p as [|a p IH]; intros i s; simpl.
  - rewrite Nat.add_0_r, drop_0. reflexivity.
  - destruct s as [|b s]; [reflexivity|]. unfold chr. simpl.
    rewrite (N.eqb_sym a b). destruct (b =? a); simpl; [|reflexivity].
    rewrite IH. replace (S i + length p)%nat with (i + S (length p))%nat by lia. reflexivity.
Qed.

(** A greedy run of white space before something that cannot start with
    white space stops at the end of the run. *)
Lemma star_greedy_space_skip {R} (k : cont R) :
  (forall j c r cs, is_whitespace c = true -> k j (c :: r) cs = None) ->
  forall i s caps,
    star_greedy is_whitespace i s caps k
    = k (i + (length s - length (trimStart s)))%nat (trimStart s) caps.
Proof.
  intros Hk i s. revert i. induction s as [|c s IH]; intros i caps; simpl.
  - rewrite Nat.add_0_r. reflexivity.
  - destruct (is_whitespace c) eqn:Hc.
    + rewrite IH.
      assert (length (trimStart s) <= length s)%nat as Hle.
      { clear. induction s as [|c s IH]; simpl; [lia|].
        destruct (is_whitespace c); simpl; lia. }
      replace (i + (S (length s) - length (trimStart s)))%nat
        with (S i + (length s - length (trimStart s)))%nat by lia.
      destruct (k _ (trimStart s) caps); [reflexivity|]. apply Hk. exact Hc.
    + simpl. rewrite Nat.sub_diag, Nat.add_0_r. reflexivity.
Qed.

(** A greedy run of [.] up to the end of the input. *)
Lemma star_greedy_to_end {R} (F : nat -> list jsstring -> R) (i : nat) (s : jsstring)
    (caps : list jsstring) :
  star_greedy dot i s caps
    (fun i' s' caps' => match s' with [] => Some (F i' caps') | _ :: _ => None end)
  = if forallb dot s then Some (F (i + length s)%nat caps) else None.
Proof.
  revert i. induction s as [|c s IH]; intros i; simpl.
  - rewrite Nat.add_0_r. reflexivity.
  - destruct (dot c); simpl; [|reflexivity].
    rewrite IH. replace (S i + length s)%nat with (i + S (length s))%nat by lia.
    destruct (forallb dot s); reflexivity.
Qed.

Lemma group2_eol (i : nat) (s : jsstring) (caps : list jsstring) :
  rmatch (seqs [Group (Star true dot); Eol]) i s caps accept
  = if forallb dot s then Some (caps ++ [s]) else None.
Proof.
  simpl.
  rewrite (star_greedy_to_end (fun i' caps' => caps' ++ [take (i' - i) s])).
  replace (i + length s - i)%nat with (length s) by lia.
  rewrite firstn_all. reflexivity.
Qed.

(** ** The pattern of titles and authors *)

Lemma forallb_dot_trimStart (s : jsstring) :
  forallb dot s = true -> forallb dot (trimStart s) = true.
Proof.
  induction s as [|c s IH]; simpl; [auto|].
  rewrite andb_true_iff. intros [Hc Hs].
  destruct (is_whitespace c); [auto | simpl; rewrite Hc, Hs; reflexivity].
Qed.

(** White space before the greedy last group: the group takes what
    follows the whole run, or nothing matches. *)
Lemma star_greedy_space_rest (i : nat) (s : jsstring) (caps : list jsstring) :
  star_greedy is_whitespace i s caps
    (fun _ r cs => if forallb dot r then Some (cs ++ [r]) else None)
  = if forallb dot (trimStart s) then Some (caps ++ [trimStart s]) else None.
Proof.
  revert i. induction s as [|c s IH]; intros i; simpl; [reflexivity|].
  destruct (is_whitespace c) eqn:Hc; [|reflexivity].
  rewrite IH. destruct (forallb dot (trimStart s)) eqn:Hd; [reflexivity|].
  destruct (dot c); simpl; [|reflexivity].
  destruct (forallb dot s) eqn:Hs; [|reflexivity].
  rewrite (forallb_dot_trimStart _ Hs) in Hd. discriminate.
Qed.

Lemma space_then_group2 (i : nat) (s : jsstring) (caps : list jsstring) :
  rmatch (seqs [plus is_whitespace; Group (Star true dot); Eol]) i s caps accept
  = match s with
    | d :: r =>
        if is_whitespace d then
          if forallb dot (trimStart r) then Some (caps ++ [trimStart r]) else None
        else None
    | [] => None
    end.
Proof.
  change (rmatch (seqs [plus is_whitespace; Group (Star true dot); Eol]) i s caps accept)
    with (match s with
          | d :: r =>
              if is_whitespace d then
                star_greedy is_whitespace (S i) r caps
                  (fun i' s' caps' =>
                     rmatch (seqs [Group (Star true dot); Eol]) i' s' caps' accept)
              else None
          | [] => None
          end).
  destruct s as [|d r]; [reflexivity|]. destruct (is_whitespace d); [|reflexivity].
  rewrite (star_greedy_ext _ _ _ group2_eol). apply star_greedy_space_rest.
Qed.

Lemma space_not_letter (c l : N) :
  is_whitespace c = true -> is_whitespace l = false -> (lower_unit c =? l) = false.
Proof.
  intros Hc Hl. destruct (N.eqb_spec (lower_unit c) l) as [E|]; [|reflexivity].
  rewrite <- is_whitespace_lower, E in Hc. congruence.
Qed.

Lemma tail_eq (i : nat) (s : jsstring) (caps : list jsstring) :
  rmatch (seqs [plus is_whitespace; chr_i 98; chr_i 121; plus is_whitespace;
                Group (Star true dot); Eol]) i s caps accept
  = (fun g => caps ++ [g]) <$> tail_match s.
Proof.
  change (rmatch _ i s caps accept)
    with (match s with
          | c :: s1 =>
              if is_whitespace c then
                star_greedy is_whitespace (S i) s1 caps
                  (fun i' s' caps' =>
                     match s' with
                     | b :: s2 =>
                         if lower_unit b =? 98 then
                           match s2 with
                           | y :: s3 =>
                               if lower_unit y =? 121 then
                                 rmatch (seqs [plus is_whitespace; Group (Star true dot); Eol])
                                   (S (S i')) s3 caps' accept
                               else None
                           | [] => None
                           end
                         else None
                     | [] => None
                     end)
              else None
          | [] => None
          end).
  unfold tail_match. destruct s as [|c s1]; [reflexivity|].
  destruct (is_whitespace c); [|reflexivity].
  rewrite star_greedy_space_skip.
  - destruct (trimStart s1) as [|b [|y s3]]; [reflexivity| |].
    + destruct (lower_unit b =? 98); reflexivity.
    + rewrite space_then_group2.
      destruct (lower_unit b =? 98); [|destruct s3; reflexivity].
      destruct (lower_unit y =? 121); [|destruct s3; reflexivity].
      destruct s3 as [|d r]; [reflexivity|]. simpl.
      destruct (is_whitespace d); [|reflexivity].
      destruct (forallb dot (trimStart r)); reflexivity.
  - intros j c0 r cs Hc0. rewrite (space_not_letter c0 98 Hc0 eq_refl). reflexivity.
Qed.

Lemma star_lazy_title (full : jsstring) (i : nat) (caps : list jsstring) :
  forall s pre,
    full = pre ++ s ->
    star_lazy dot (i + length pre) s caps
      (fun i' s' caps' =>
         (fun g => (caps' ++ [take (i' - i) full]) ++ [g]) <$> tail_match s')
    = (fun tg => (caps ++ [pre ++ tg.1]) ++ [tg.2]) <$> first_separator s.
Proof.
  induction s as [|c s IH]; intros pre Hfull.
  - simpl. reflexivity.
  - assert (take (i + length pre - i) full = pre) as Htake.
    { replace (i + length pre - i)%nat with (length pre) by lia.
      rewrite Hfull. apply take_app_length. }
    cbn [star_lazy first_separator]. rewrite Htake.
    destruct (tail_match (c :: s)) as [g|]; simpl.
    + rewrite app_nil_r. reflexivity.
    + destruct (dot c); [|reflexivity].
      specialize (IH (pre ++ [c])). rewrite length_app in IH. simpl in IH.
      replace (S (i + length pre)) with (i + (length pre + 1))%nat by lia.
      rewrite IH by (rewrite <- app_assoc; exact Hfull).
      destruct (first_separator s) as [[t g]|]; simpl; [|reflexivity].
      rewrite <- (app_assoc pre [c] t). reflexivity.
Qed.

Lemma search_from_bol (r : regex) (i : nat) (s : jsstring) :
  i <> 0%nat -> search_from (Seq Bol r) i s = None.
Proof.
  revert i. induction s as [|c s IH]; intros i Hi; simpl;
    destruct (Nat.eqb_spec i 0); try contradiction; auto.
Qed.

Lemma exec_title_author (s : jsstring) :
  exec TITLE_AUTHOR_REGEX s = (fun tg => [tg.1; tg.2]) <$> first_separator s.
Proof.
  unfold exec.
  assert (rmatch TITLE_AUTHOR_REGEX 0 s [] accept
          = (fun tg => [tg.1; tg.2]) <$> first_separator s) as H.
  { change (rmatch TITLE_AUTHOR_REGEX 0 s [] accept)
      with (star_lazy dot 0 s []
              (fun i' s' caps' =>
                 rmatch (seqs [plus is_whitespace; chr_i 98; chr_i 121; plus is_whitespace;
                               Group (Star true dot); Eol])
                   i' s' (caps' ++ [take (i' - 0) s]) accept)).
    rewrite (star_lazy_ext _ _
               (fun i' s' caps' =>
                  (fun g => (caps' ++ [take (i' - 0) s]) ++ [g]) <$> tail_match s'))
      by (intros; apply tail_eq).
    apply (star_lazy_title s 0 [] s []). reflexivity. }
  destruct s as [|c s]; cbn [search_from]; rewrite H.
  - reflexivity.
  - destruct (first_separator (c :: s)); [reflexivity|].
    apply search_from_bol. discriminate.
Qed.

Lemma trimStart_split (s : jsstring) :
  exists w, s = w ++ trimStart s /\ all_space w.
Proof.
  induction s as [|c s [w [Hs Hw]]]; simpl.
  - exists []. split; [reflexivity | constructor].
  - destruct (is_whitespace c) eqn:Hc.
    + exists (c :: w). split; [simpl; congruence | constructor; assumption].
    + exists []. split; [reflexivity | constructor].
Qed.

Lemma forallb_dot_single_line (s : jsstring) :
  forallb dot s = true <-> single_line s.
Proof.
  unfold single_line, dot. rewrite forallb_forall, Forall_forall. split; intros H x Hx.
  - apply list_elem_of_In in Hx. specialize (H x Hx). destruct (is_line_terminator x); [discriminate | reflexivity].
  - apply list_elem_of_In in Hx. rewrite (H x Hx). reflexivity.
Qed.

Lemma tail_match_sound (s g : jsstring) :
  tail_match s = Some g ->
  exists w1 b y w2,
    s = w1 ++ [b; y] ++ w2 ++ g /\ by_separator w1 b y w2 /\ single_line g.
Proof.
  unfold tail_match, by_separator. destruct s as [|c s1]; [discriminate|].
  destruct (is_whitespace c) eqn:Hc; [|discriminate].
  destruct (trimStart_split s1) as [u [Hs1 Hu]].
  destruct (trimStart s1) as [|b [|y [|d r]]]; try discriminate.
  destruct (N.eqb_spec (lower_unit b) 98) as [Hb|]; [|discriminate].
  destruct (N.eqb_spec (lower_unit y) 121) as [Hy|]; [|discriminate].
  destruct (is_whitespace d) eqn:Hd; [|discriminate]. simpl.
  destruct (trimStart_split r) as [v [Hr Hv]].
  destruct (forallb dot (trimStart r)) eqn:Hdot; [|discriminate].
  intros H. injection H as <-.
  exists (c :: u), b, y, (d :: v). repeat split.
  - simpl. rewrite Hs1 at 1. rewrite Hr at 1. reflexivity.
  - discriminate.
  - constructor; assumption.
  - discriminate.
  - constructor; assumption.
  - exact Hb.
  - exact Hy.
  - apply forallb_dot_single_line. exact Hdot.
Qed.

Lemma first_separator_sound (s t g : jsstring) :
  first_separator s = Some (t, g) ->
  single_line t /\
  (exists rest, s = t ++ rest /\ tail_match rest = Some g) /\
  (forall pre post, t = pre ++ post -> post <> [] -> tail_match (post ++ drop (length t) s) = None).
Proof.
  revert t. induction s as [|c s IH]; intros t.
  - simpl. discriminate.
  - cbn [first_separator]. destruct (tail_match (c :: s)) as [g0|] eqn:Htail.
    + intros H. injection H as <- <-. split; [constructor|]. split.
      * exists (c :: s). auto.
      * intros pre post Hp Hn. destruct pre; destruct post; simpl in Hp; congruence.
    + destruct (dot c) eqn:Hc; [|discriminate].
      destruct (first_separator s) as [[t0 g0]|]; [|discriminate].
      intros H. injection H as <- <-.
      destruct (IH t0 eq_refl) as [Hline [[rest [Hs Hrest]] Hmin]].
      split; [|split].
      * constructor; [|exact Hline]. unfold dot in Hc.
        destruct (is_line_terminator c); [discriminate | reflexivity].
      * exists rest. split; [simpl; congruence | exact Hrest].
      * intros pre post Hp Hn. simpl.
        destruct pre as [|x pre]; simpl in Hp.
        -- subst post. simpl. rewrite Hs at 1. rewrite drop_app_length.
           rewrite <- Hs. exact Htail.
        -- injection Hp as -> Hp. eapply Hmin; eassumption.
Qed.

Lemma letter_not_space (b l : N) :
  same_letter b l -> is_whitespace l = false -> is_whitespace b = false.
Proof.
  unfold same_letter. intros H Hl.
  rewrite <- is_whitespace_lower, H, is_whitespace_lower. exact Hl.
Qed.

Lemma trimStart_stop (w : jsstring) (c : N) (r : jsstring) :
  all_space w -> is_whitespace c = false -> trimStart (w ++ c :: r) = c :: r.
Proof.
  intros Hw Hc. rewrite trimStart_space by exact Hw. simpl. rewrite Hc. reflexivity.
Qed.

Lemma trimStart_idem (s : jsstring) : trimStart (trimStart s) = trimStart s.
Proof.
  induction s as [|c s IH]; simpl; [reflexivity|].
  destruct (is_whitespace c) eqn:Hc; [exact IH | simpl; rewrite Hc; reflexivity].
Qed.

Lemma trim_trimStart (s : jsstring) : trim (trimStart s) = trim s.
Proof. unfold trim. rewrite trimStart_idem. reflexivity. Qed.

Lemma tail_match_complete (w1 : jsstring) (b y : N) (w2 post : jsstring) :
  by_separator w1 b y w2 -> single_line post ->
  tail_match (w1 ++ [b; y] ++ w2 ++ post) = Some (trimStart post).
Proof.
  intros (Hn1 & Hw1 & Hn2 & Hw2 & Hb & Hy) Hpost.
  destruct w1 as [|c w1]; [congruence|]. destruct w2 as [|d w2]; [congruence|].
  inversion Hw1 as [|? ? Hc Hw1']; subst. inversion Hw2 as [|? ? Hd Hw2']; subst.
  unfold tail_match. simpl. rewrite Hc.
  rewrite (trimStart_stop w1 b _ Hw1' (letter_not_space _ _ Hb eq_refl)).
  unfold same_letter in Hb, Hy. change (lower_unit 98) with 98 in Hb.
  change (lower_unit 121) with 121 in Hy.
  rewrite Hb, Hy, Hd. simpl. rewrite trimStart_space by exact Hw2'.
  rewrite forallb_dot_trimStart; [reflexivity|].
  apply forallb_dot_single_line. exact Hpost.
Qed.

(** [tail_match] sees the white space before the letters as one run. *)
Lemma tail_match_more_space (v w1 : jsstring) (b y : N) (w2 post : jsstring) :
  all_space v -> by_separator w1 b y w2 ->
  tail_match (v ++ w1 ++ [b; y] ++ w2 ++ post) = tail_match (w1 ++ [b; y] ++ w2 ++ post).
Proof.
  intros Hv (Hn1 & Hw1 & Hn2 & Hw2 & Hb & Hy).
  destruct w1 as [|c w1]; [congruence|].
  inversion Hw1 as [|? ? Hc Hw1']; subst.
  assert (is_whitespace b = false) as Hbs by (apply (letter_not_space _ _ Hb); reflexivity).
  destruct v as [|x v]; [reflexivity|].
  inversion Hv as [|? ? Hx Hv']; subst.
  unfold tail_match. simpl. rewrite Hx, Hc.
  replace (v ++ c :: w1 ++ b :: y :: w2 ++ post)
    with ((v ++ c :: w1) ++ b :: y :: w2 ++ post) by (rewrite <- app_assoc; reflexivity).
  rewrite !trimStart_stop; try assumption; [reflexivity|].
  apply Forall_app. split; [assumption | constructor; assumption].
Qed.

Lemma first_separator_complete (pre rest g : jsstring) :
  single_line pre -> tail_match rest = Some g ->
  exists t g', first_separator (pre ++ rest) = Some (t, g').
Proof.
  intros Hpre Hrest. induction Hpre as [|c pre Hc _ [t [g' IH]]].
  - destruct rest as [|c r]; [discriminate Hrest|].
    cbn [app first_separator]. rewrite Hrest. eauto.
  - rewrite <- app_comm_cons. cbn [first_separator].
    destruct (tail_match (c :: pre ++ rest)); [eauto|].
    unfold dot. rewrite Hc. cbn [negb]. rewrite IH. eauto.
Qed.

Lemma single_line_app (s1 s2 : jsstring) :
  single_line (s1 ++ s2) <-> single_line s1 /\ single_line s2.
Proof. unfold single_line. apply Forall_app. Qed.

Lemma parse_recommendation_eq (s : jsstring) :
  parse_recommendation s
  = match first_separator s with
    | Some (t, g) => (trim t, trim g, List.map trim (split 44 (trim g)))
    | None => (s, js "Unknown Author", [js "Unknown Author"])
    end.
Proof.
  unfold parse_recommendation. rewrite exec_title_author.
  destruct (first_separator s) as [[t g]|]; reflexivity.
Qed.


Lemma by_separator_letters (w1 : jsstring) (b y : N) (w2 : jsstring) :
  by_separator w1 b y w2 -> is_whitespace b = false /\ is_whitespace y = false.
Proof.
  intros (_ & _ & _ & _ & Hb & Hy).
  split; [apply (letter_not_space _ _ Hb) | apply (letter_not_space _ _ Hy)]; reflexivity.
Qed.

(** In a string of one line, the match stops at the first
    by-separator: up to white space, the first group is the text before
    it and the second group the text after it. *)
Lemma first_separator_first (s t w1 : jsstring) (b y : N) (w2 a : jsstring) :
  s = t ++ w1 ++ [b; y] ++ w2 ++ a -> by_separator w1 b y w2 ->
  single_line s -> ~ has_by_separator (t ++ w1) ->
  exists t' g, first_separator s = Some (t', g) /\ trim t' = trim t /\ trim g = trim a.
Proof.
  intros Hs Hsep Hline Hfirst.
  assert (single_line t /\ single_line a) as [Ht Ha].
  { rewrite Hs in Hline. repeat (apply single_line_app in Hline; destruct Hline as [? Hline]).
    auto. }
  pose proof (tail_match_complete _ _ _ _ _ Hsep Ha) as HX.
  destruct (first_separator_complete _ _ _ Ht HX) as [t' [g Hfs]].
  rewrite <- Hs in Hfs. exists t', g. split; [exact Hfs|].
  destruct (first_separator_sound _ _ _ Hfs) as [_ [[rest' [Hs' Hrest']] Hmin]].
  assert (drop (length t') s = rest') as Hdrop by (rewrite Hs'; apply drop_app_length).
  rewrite Hdrop in Hmin.
  (* the separator that matched starts with white space up to the letters *)
  assert (forall v, all_space v -> t = t' ++ v -> rest' = v ++ w1 ++ [b; y] ++ w2 ++ a ->
                    trim t' = trim t /\ trim g = trim a) as Hspace.
  { intros v Hv -> Hr. split.
    - symmetry. apply (trim_outer_space [] t' v); [constructor | exact Hv].
    - rewrite Hr, tail_match_more_space, HX in Hrest' by assumption.
      injection Hrest' as <-. apply trim_trimStart. }
  rewrite Hs in Hs'. apply app_eq_inv in Hs'. destruct Hs' as [[v [Htv Hr]] | [k [Htk HXk]]].
  - (* the match starts inside [t] *)
    destruct (tail_match_sound _ _ Hrest') as (u1 & b' & y' & u2 & Hr' & Hsep' & _).
    pose proof Hsep' as (Hn1' & Hu1 & Hn2' & Hu2 & Hb' & Hy').
    destruct (by_separator_letters _ _ _ _ Hsep') as [Hbs' Hys'].
    rewrite Hr in Hr'. apply app_eq_inv in Hr'.
    destruct Hr' as [[k [Hv Hk]] | [k [Hu1k _]]].
    + destruct k as [|kb [|ky k2]].
      * rewrite app_nil_r in Hv. subst v. apply (Hspace u1); assumption.
      * (* the letter y would be the first white space of [w1] *)
        exfalso. destruct Hsep as (Hn1 & Hw1 & _). destruct w1 as [|c w1]; [congruence|].
        simpl in Hk. injection Hk as _ Hy1 _. inversion Hw1; subst. congruence.
      * (* a separator ends inside [t ++ w1] *)
        exfalso. apply Hfirst. simpl in Hk. injection Hk as <- <- Hk. subst v t.
        destruct u2 as [|d u2]; [congruence|]. inversion Hu2 as [|? ? Hd _]; subst.
        destruct k2 as [|kd k3].
        -- exists t', u1, b', y', w1, []. split.
           ++ rewrite app_nil_r, <- !app_assoc. reflexivity.
           ++ destruct Hsep as (Hn1 & Hw1 & _). repeat split; assumption.
        -- simpl in Hk. injection Hk as <- _.
           exists t', u1, b', y', [d], (k3 ++ w1). split.
           ++ rewrite <- !app_assoc. reflexivity.
           ++ repeat split; try assumption; [discriminate | repeat constructor; assumption].
    + subst u1. apply (Hspace v); [|assumption|assumption].
      unfold all_space in *. apply Forall_app in Hu1. tauto.
  - (* the match starts at or after the end of [t] *)
    destruct k as [|x k].
    + rewrite app_nil_r in Htk. subst t'. simpl in HXk. subst rest'.
      apply (Hspace []); [constructor | rewrite app_nil_r; reflexivity | reflexivity].
    + exfalso. specialize (Hmin t (x :: k) Htk ltac:(discriminate)).
      rewrite <- HXk, HX in Hmin. discriminate.
Qed.



Lemma split_nonempty (sep : N) (s : jsstring) : split sep s <> [].
Proof.
  destruct s as [|c s]; cbn [split]; [discriminate|].
  destruct (c =? sep); [discriminate|]. destruct (split sep s); discriminate.
Qed.











Lemma separator_matches (s : jsstring) :
  single_line s -> has_by_separator s -> exists t g, first_separator s = Some (t, g).
Proof.
  intros Hline (pre & w1 & b & y & w2 & post & Hs & Hsep). subst s.
  apply single_line_app in Hline. destruct Hline as [Hpre Hline].
  repeat (apply single_line_app in Hline; destruct Hline as [_ Hline]).
  eapply first_separator_complete; [exact Hpre|].
  apply tail_match_complete; assumption.
Qed.

(** Decides that a string of one line has no by-separator by running
    the match. *)
Ltac no_separator :=
  let H := fresh in
  intros H; apply separator_matches in H; [|repeat constructor];
  destruct H as (? & ? & H); vm_compute in H; discriminate H.


Example parse_recommendation_examples :
  parse_recommendation (js "Dune by Frank Herbert") = (js "Dune", js "Frank Herbert", [js "Frank Herbert"]) /\
  parse_recommendation (js "  Good Omens   BY  Terry Pratchett ,Neil Gaiman ")
  = (js "Good Omens", js "Terry Pratchett ,Neil Gaiman", [js "Terry Pratchett"; js "Neil Gaiman"]) /\
  parse_recommendation (js "Standby") = (js "Standby", js "Unknown Author", [js "Unknown Author"]) /\
  parse_recommendation (js "A" ++ [10] ++ js "B by C")
  = (js "A" ++ [10] ++ js "B by C", js "Unknown Author", [js "Unknown Author"]).
Proof. repeat split; vm_compute; reflexivity. Qed.

(** ** The pattern of fenced blocks *)

Lemma startsWith_fence_cons (c : N) (s : jsstring) :
  c <> 96 -> startsWith fence (c :: s) = false.
Proof.
  intros Hc. change fence with [96; 96; 96]. cbn [startsWith].
  destruct (N.eqb_spec 96 c); [congruence | reflexivity].
Qed.

Lemma space_not_backtick (c : N) : is_whitespace c = true -> c <> 96.
Proof. intros H ->. discriminate H. Qed.

Lemma split_at_fence_cons (c : N) (s : jsstring) :
  startsWith fence (c :: s) = false ->
  split_at_fence (c :: s)
  = match split_at_fence s with
    | Some (before, after) => Some (c :: before, after)
    | None => None
    end.
Proof.
  intros H. cbn [split_at_fence]. rewrite H. reflexivity.
Qed.

Lemma split_at_fence_app (s before after : jsstring) :
  split_at_fence s = Some (before, after) -> s = before ++ fence ++ after.
Proof.
  revert before after. induction s as [|c s IH]; intros before after.
  - simpl. discriminate.
  - cbn [split_at_fence]. destruct (startsWith fence (c :: s)) eqn:Hf.
    + intros H. injection H as <- <-.
      apply startsWith_spec in Hf. destruct Hf as [r Hr].
      change (fence ++ r) with (96 :: 96 :: 96 :: r) in Hr. injection Hr as -> ->.
      reflexivity.
    + destruct (split_at_fence s) as [[b a]|]; [|discriminate].
      intros H. injection H as <- <-. simpl. f_equal. apply IH. reflexivity.
Qed.

Lemma split_at_fence_suffix (s : jsstring) :
  split_at_fence s = None -> forall n, split_at_fence (drop n s) = None.
Proof.
  induction s as [|c s IH]; intros H n.
  - rewrite drop_nil. reflexivity.
  - destruct n as [|n]; [exact H|]. simpl. apply IH.
    cbn [split_at_fence] in H. destruct (startsWith fence (c :: s)); [discriminate|].
    destruct (split_at_fence s) as [[b a]|]; [discriminate | reflexivity].
Qed.

Lemma split_at_fence_space (s : jsstring) :
  split_at_fence (trimStart s)
  = match split_at_fence s with
    | Some (before, after) => Some (trimStart before, after)
    | None => None
    end.
Proof.
  induction s as [|c s IH]; [reflexivity|].
  cbn [trimStart]. destruct (is_whitespace c) eqn:Hc.
  - rewrite (split_at_fence_cons c s) by (apply startsWith_fence_cons, space_not_backtick, Hc).
    rewrite IH. destruct (split_at_fence s) as [[b a]|]; [|reflexivity].
    simpl. rewrite Hc. reflexivity.
  - cbn [split_at_fence]. destruct (startsWith fence (c :: s)); [reflexivity|].
    destruct (split_at_fence s) as [[b a]|]; [|reflexivity].
    simpl. rewrite Hc. reflexivity.
Qed.

Lemma split_at_fence_tag (s : jsstring) :
  split_at_fence (strip_json_tag s)
  = match split_at_fence s with
    | Some (before, after) => Some (strip_json_tag before, after)
    | None => None
    end.
Proof.
  unfold strip_json_tag. destruct (startsWith (js "json") s) eqn:Hj.
  - apply startsWith_spec in Hj. destruct Hj as [r ->].
    change (js "json" ++ r) with (106 :: 115 :: 111 :: 110 :: r).
    change (drop 4 (106 :: 115 :: 111 :: 110 :: r)) with r.
    rewrite !split_at_fence_cons by (apply startsWith_fence_cons; discriminate).
    destruct (split_at_fence r) as [[b a]|]; reflexivity.
  - destruct (split_at_fence s) as [[b a]|] eqn:Hs; [|reflexivity].
    destruct (startsWith (js "json") b) eqn:Hb; [|reflexivity].
    apply split_at_fence_app in Hs. apply startsWith_spec in Hb. destruct Hb as [r ->].
    assert (startsWith (js "json") s = true) as Hj'.
    { apply startsWith_spec. exists (r ++ fence ++ a). rewrite Hs, <- app_assoc. reflexivity. }
    congruence.
Qed.

Lemma trimEnd_all_space (b : jsstring) : all_space b -> trimEnd b = [].
Proof.
  intros H. unfold trimEnd. rewrite trimStart_all_space by (apply all_space_rev; exact H).
  reflexivity.
Qed.

Lemma trimStart_nil_all_space (s : jsstring) : trimStart s = [] -> all_space s.
Proof.
  intros H. destruct (trimStart_cases s) as [[Hs _] | Hn]; [exact Hs | congruence].
Qed.

Lemma trimEnd_cons_keep (c : N) (b : jsstring) :
  is_whitespace c = false \/ ~ all_space b -> trimEnd (c :: b) = c :: trimEnd b.
Proof.
  intros H. unfold trimEnd. cbn [rev].
  destruct (trimStart_cases (rev b)) as [[Hs Ht] | Hn].
  - destruct H as [Hc | Hb].
    + rewrite trimStart_space by exact Hs. rewrite Ht. simpl. rewrite Hc. reflexivity.
    + exfalso. apply Hb. rewrite <- (rev_involutive b). apply all_space_rev. exact Hs.
  - rewrite trimStart_app by exact Hn. rewrite rev_app_distr. reflexivity.
Qed.

Lemma fence_after_space (x : jsstring) :
  startsWith fence (trimStart x) = true ->
  exists b p, split_at_fence x = Some (b, p) /\ all_space b.
Proof.
  induction x as [|c x IH]; cbn [trimStart].
  - discriminate.
  - destruct (is_whitespace c) eqn:Hc.
    + intros H. destruct (IH H) as [b [p [Hs Hb]]].
      rewrite split_at_fence_cons by (apply startsWith_fence_cons, space_not_backtick, Hc).
      rewrite Hs. exists (c :: b), p. split; [reflexivity | constructor; assumption].
    + intros H. cbn [split_at_fence]. rewrite H. exists [], (drop 3 (c :: x)).
      split; [reflexivity | constructor].
Qed.

Lemma lazy_body_eq (s : jsstring) :
  lazy_body s
  = match split_at_fence s with
    | Some (before, _) => Some (trimEnd before)
    | None => None
    end.
Proof.
  induction s as [|c s IH]; [reflexivity|].
  cbn [lazy_body]. destruct (startsWith fence (trimStart (c :: s))) eqn:Ht.
  - destruct (fence_after_space _ Ht) as [b [p [Hs Hb]]].
    rewrite Hs, trimEnd_all_space by exact Hb. reflexivity.
  - assert (startsWith fence (c :: s) = false) as Hf.
    { destruct (startsWith fence (c :: s)) eqn:Hf; [|reflexivity].
      assert (is_whitespace c = false) as Hc.
      { apply startsWith_spec in Hf. destruct Hf as [r Hr].
        change (fence ++ r) with (96 :: 96 :: 96 :: r) in Hr. injection Hr as -> _.
        reflexivity. }
      cbn [trimStart] in Ht. rewrite Hc in Ht. congruence. }
    rewrite (split_at_fence_cons _ _ Hf), IH.
    destruct (split_at_fence s) as [[b p]|] eqn:Hs; [|reflexivity].
    simpl. f_equal. symmetry. apply trimEnd_cons_keep.
    destruct (is_whitespace c) eqn:Hc; [right | left; reflexivity].
    intros Hb. apply split_at_fence_app in Hs.
    cbn [trimStart] in Ht. rewrite Hc, Hs, trimStart_space in Ht by exact Hb.
    discriminate Ht.
Qed.

Lemma star_lazy_body (full : jsstring) (i : nat) (caps : list jsstring) :
  forall s pre,
    full = pre ++ s ->
    star_lazy any_unit (i + length pre) s caps
      (fun i' s' caps' =>
         if startsWith fence (trimStart s') then Some (caps' ++ [take (i' - i) full])
         else None)
    = (fun b => caps ++ [pre ++ b]) <$> lazy_body s.
Proof.
  assert (forall pre s, full = pre ++ s -> take (i + length pre - i) full = pre) as Htake.
  { intros pre s ->. replace (i + length pre - i)%nat with (length pre) by lia.
    apply take_app_length. }
  induction s as [|c s IH]; intros pre Hfull.
  - reflexivity.
  - cbn [star_lazy lazy_body]. rewrite (Htake _ _ Hfull).
    destruct (startsWith fence (trimStart (c :: s))).
    + simpl. rewrite app_nil_r. reflexivity.
    + cbn [any_unit]. specialize (IH (pre ++ [c])). rewrite length_app in IH.
      cbn [length] in IH.
      replace (S (i + length pre)) with (i + (length pre + 1))%nat by lia.
      rewrite IH by (rewrite <- app_assoc; exact Hfull).
      destruct (lazy_body s) as [b|]; simpl; [|reflexivity].
      rewrite <- (app_assoc pre [c] b). reflexivity.
Qed.

Lemma fence_end (j : nat) (r : jsstring) (cs : list jsstring) :
  rmatch (seqs [lit fence]) j r cs accept
  = if startsWith fence r then Some cs else None.
Proof.
  change (rmatch (seqs [lit fence]) j r cs accept)
    with (rmatch (lit fence) j r cs (fun i' s' caps' => accept i' s' caps')).
  rewrite rmatch_lit. reflexivity.
Qed.

Lemma close_eq (i : nat) (s : jsstring) (caps : list jsstring) :
  rmatch (seqs [Group (Star false any_unit); Star true is_whitespace; lit fence]) i s caps accept
  = (fun b => caps ++ [b]) <$> lazy_body s.
Proof.
  change (rmatch _ i s caps accept)
    with (star_lazy any_unit i s caps
            (fun i' s' caps' =>
               star_greedy is_whitespace i' s' (caps' ++ [take (i' - i) s])
                 (fun j r cs => rmatch (seqs [lit fence]) j r cs accept))).
  rewrite (star_lazy_ext _ _
             (fun i' s' caps' =>
                if startsWith fence (trimStart s') then Some (caps' ++ [take (i' - i) s])
                else None)).
  - pose proof (star_lazy_body s i caps s [] eq_refl) as H.
    cbn [length] in H. rewrite Nat.add_0_r in H. exact H.
  - intros i' s' caps'.
    rewrite (star_greedy_ext _ _ _ fence_end).
    rewrite star_greedy_space_skip; [reflexivity|].
    intros j c r cs Hc.
    rewrite startsWith_fence_cons by (apply space_not_backtick, Hc). reflexivity.
Qed.

Lemma lazy_body_none (x : jsstring) : lazy_body x = None <-> split_at_fence x = None.
Proof.
  rewrite lazy_body_eq. destruct (split_at_fence x) as [[b p]|]; split; congruence.
Qed.

Lemma lazy_body_space_none (x : jsstring) :
  lazy_body (trimStart x) = None -> lazy_body x = None.
Proof.
  rewrite !lazy_body_none, split_at_fence_space.
  destruct (split_at_fence x) as [[b p]|]; congruence.
Qed.

(** White space before the lazy group: the group starts after the whole
    run, or nothing matches. *)
Lemma star_greedy_space_body (i : nat) (s : jsstring) (caps : list jsstring) :
  star_greedy is_whitespace i s caps (fun _ r cs => (fun b => cs ++ [b]) <$> lazy_body r)
  = (fun b => caps ++ [b]) <$> lazy_body (trimStart s).
Proof.
  revert i. induction s as [|c s IH]; intros i; [reflexivity|].
  cbn [star_greedy trimStart]. destruct (is_whitespace c) eqn:Hc; [|reflexivity].
  rewrite IH. destruct (lazy_body (trimStart s)) as [b|] eqn:Hb; [reflexivity|].
  rewrite (lazy_body_space_none (c :: s)); [reflexivity|].
  cbn [trimStart]. rewrite Hc. exact Hb.
Qed.

Lemma after_fence_eq (j : nat) (r : jsstring) (cs : list jsstring) :
  rmatch (seqs [Opt (lit (js "json")); Star true is_whitespace;
                Group (Star false any_unit); Star true is_whitespace; lit fence])
    j r cs accept
  = (fun b => cs ++ [b]) <$> lazy_body (trimStart (strip_json_tag r)).
Proof.
  set (K2 := fun (i' : nat) (s' : jsstring) (caps' : list jsstring) =>
               star_greedy is_whitespace i' s' caps'
                 (fun i2 s2 caps2 =>
                    rmatch (seqs [Group (Star false any_unit); Star true is_whitespace;
                                  lit fence]) i2 s2 caps2 accept)).
  assert (forall i' s' caps',
            K2 i' s' caps' = (fun b => caps' ++ [b]) <$> lazy_body (trimStart s')) as HK2.
  { intros i' s' caps'. unfold K2.
    rewrite (star_greedy_ext _ _ _ close_eq). apply star_greedy_space_body. }
  change (rmatch _ j r cs accept)
    with (match rmatch (lit (js "json")) j r cs K2 with
          | Some x => Some x
          | None => K2 j r cs
          end).
  rewrite rmatch_lit, !HK2. unfold strip_json_tag.
  destruct (startsWith (js "json") r) eqn:Hj; [|reflexivity].
  change (length (js "json")) with 4%nat.
  destruct (lazy_body (trimStart (drop 4 r))) as [b|] eqn:Hb; [reflexivity|].
  rewrite (proj2 (lazy_body_none (trimStart r))); [reflexivity|].
  apply lazy_body_none in Hb. rewrite split_at_fence_space in Hb |- *.
  apply startsWith_spec in Hj. destruct Hj as [r4 ->].
  change (js "json" ++ r4) with (106 :: 115 :: 111 :: 110 :: r4) in *.
  change (drop 4 (106 :: 115 :: 111 :: 110 :: r4)) with r4 in Hb.
  rewrite !split_at_fence_cons by (apply startsWith_fence_cons; discriminate).
  destruct (split_at_fence r4) as [[b a]|]; [discriminate | reflexivity].
Qed.

Lemma open_eq (i : nat) (s : jsstring) (caps : list jsstring) :
  rmatch JSON_EXTRACT_REGEX i s caps accept
  = if startsWith fence s
    then (fun b => caps ++ [b]) <$> lazy_body (trimStart (strip_json_tag (drop 3 s)))
    else None.
Proof.
  change (rmatch JSON_EXTRACT_REGEX i s caps accept)
    with (rmatch (lit fence) i s caps
            (fun i' s' caps' =>
               rmatch (seqs [Opt (lit (js "json")); Star true is_whitespace;
                             Group (Star false any_unit); Star true is_whitespace; lit fence])
                 i' s' caps' accept)).
  rewrite rmatch_lit. destruct (startsWith fence s); [|reflexivity].
  apply after_fence_eq.
Qed.

Lemma trimStart_head (s : jsstring) (c : N) (z : jsstring) :
  trimStart s = c :: z -> is_whitespace c = false.
Proof.
  induction s as [|x s IH]; simpl; [discriminate|].
  destruct (is_whitespace x) eqn:Hx; [exact IH|]. intros H. injection H as <- _. exact Hx.
Qed.

Lemma trim_idem (s : jsstring) : trim (trim s) = trim s.
Proof.
  unfold trim.
  assert (trimStart (trimEnd (trimStart s)) = trimEnd (trimStart s)) as ->.
  { destruct (trimStart s) as [|c z] eqn:Hz; [reflexivity|].
    pose proof (trimStart_head _ _ _ Hz) as Hc.
    rewrite trimEnd_cons_keep by (left; exact Hc). simpl. rewrite Hc. reflexivity. }
  unfold trimEnd. rewrite rev_involutive, trimStart_idem. reflexivity.
Qed.

Lemma body_after_fence (x : jsstring) :
  (fun b => [] ++ [b]) <$> lazy_body (trimStart (strip_json_tag x))
  = match split_at_fence x with
    | Some (body, _) => Some [trim (strip_json_tag body)]
    | None => None
    end.
Proof.
  rewrite lazy_body_eq, split_at_fence_space, split_at_fence_tag.
  destruct (split_at_fence x) as [[body post]|]; reflexivity.
Qed.

Lemma search_from_fence (s : jsstring) :
  forall i,
    search_from JSON_EXTRACT_REGEX i s
    = (fun body => [trim (strip_json_tag body)]) <$> fenced_block s.
Proof.
  induction s as [|c s IH]; intros i.
  - cbn [search_from]. rewrite open_eq. reflexivity.
  - cbn [search_from]. rewrite open_eq, IH.
    destruct (startsWith fence (c :: s)) eqn:Hf.
    + rewrite body_after_fence. unfold fenced_block at 2. cbn [split_at_fence]. rewrite Hf.
      destruct (split_at_fence (drop 3 (c :: s))) as [[body post]|] eqn:Hx; [reflexivity|].
      unfold fenced_block.
      destruct (split_at_fence s) as [[b' rest']|] eqn:Hs'; [|reflexivity].
      assert (split_at_fence rest' = None) as ->; [|reflexivity].
      apply split_at_fence_app in Hs'.
      apply startsWith_spec in Hf. destruct Hf as [x Hcx].
      change (fence ++ x) with (96 :: 96 :: 96 :: x) in Hcx. injection Hcx as -> ->.
      change (drop 3 (96 :: 96 :: 96 :: x)) with x in Hx.
      assert (rest' = drop (length b' + 1) x) as ->.
      { assert (drop (length b' + 3) (96 :: 96 :: x) = rest') as <-.
        { rewrite Hs'. rewrite (app_assoc b' fence rest').
          replace (length b' + 3)%nat with (length (b' ++ fence))
            by (rewrite length_app; reflexivity).
          apply drop_app_length. }
        replace (length b' + 3)%nat with (S (S (length b' + 1))) by lia. reflexivity. }
      apply split_at_fence_suffix. exact Hx.
    + unfold fenced_block. rewrite (split_at_fence_cons _ _ Hf).
      destruct (split_at_fence s) as [[b a]|]; reflexivity.
Qed.

Lemma extractJsonFromResponse_eq (reply : jsstring) :
  extractJsonFromResponse reply
  = match JSON_parse (trim (match fenced_block reply with
                            | Some body => strip_json_tag body
                            | None => reply
                            end)) with
    | Some v => Ok v
    | None => Throw SyntaxError
    end.
Proof.
  unfold extractJsonFromResponse, exec. rewrite search_from_fence.
  destruct (fenced_block reply) as [body|]; [|reflexivity].
  simpl. unfold capture. simpl. rewrite trim_idem. reflexivity.
Qed.

(** C7, as stated, fails.  The text between the fences of a block that
    is tagged [json] begins with the tag and is not valid JSON, yet the
    parser returns the object: it drops the tag.  It drops no other
    tag: for a block tagged [javascript] it throws although the lines
    after the tag are valid JSON.  A raw reply that begins with a
    no-break space is not valid JSON either, yet the parser returns the
    object: it trims the text before parsing. *)
Lemma extractJsonFromResponse_not_exact :
  (fenced_block tagged_reply
   = Some (js "json" ++ [10] ++ jsq "{'recommendations': []}" ++ [10]) /\
   extract_as_described tagged_reply = Throw SyntaxError /\
   extractJsonFromResponse tagged_reply = Ok (JObj [(js "recommendations", JArr [])])) /\
  (fenced_block other_tag_reply
   = Some (js "javascript" ++ [10] ++ jsq "{'recommendations': []}" ++ [10]) /\
   JSON_parse ([10] ++ jsq "{'recommendations': []}" ++ [10])
   = Some (JObj [(js "recommendations", JArr [])]) /\
   extractJsonFromResponse other_tag_reply = Throw SyntaxError) /\
  (fenced_block padded_reply = None /\
   extract_as_described padded_reply = Throw SyntaxError /\
   extractJsonFromResponse padded_reply = Ok (JObj [(js "recommendations", JArr [])])).
Proof.
  repeat split; vm_compute; reflexivity.
Qed.

(** C7, amended. When the reply has a fenced block, the parser takes the
    text between the first fence and the next one and drops a leading
    [json] from it; otherwise it takes the raw reply.  It strips the
    white space at both ends of the text taken and parses the rest as
    JSON; in either case it throws the [SyntaxError] of [JSON.parse]
    when that text is not valid JSON. *)
Theorem extractJsonFromResponse_fenced (reply : jsstring) :
  extractJsonFromResponse reply
  = match JSON_parse (trim (match fenced_block reply with
                            | Some body => strip_json_tag body
                            | None => reply
                            end)) with
    | Some v => Ok v
    | None => Throw SyntaxError
    end.
Proof. apply extractJsonFromResponse_eq. Qed.

Example extractJsonFromResponse_examples :
  extractJsonFromResponse (js "Here you go: ```" ++ jsq "{'a': [1]}" ++ js "``` and ```[2]```")
  = Ok (JObj [(js "a", JArr [JNum (js "1")])]) /\
  extractJsonFromResponse (jsq " {'a': [1]} ") = Ok (JObj [(js "a", JArr [JNum (js "1")])]) /\
  extractJsonFromResponse (js "```js" ++ [10] ++ js "{}```") = Throw SyntaxError /\
  extractJsonFromResponse (js "no books") = Throw SyntaxError.
Proof. repeat split; vm_compute; reflexivity. Qed.

(** * Further properties of the two services *)

(** ** The cache: sweep, clear and what a fetch changes *)

Lemma sweep_lookup (k : jsstring) (w : World) :
  recommendationCache (sweep w).2 !! k
  = match recommendationCache w !! k with
    | Some entry =>
        if (CACHE_DURATION <? clock w - timestamp entry)%Z then None else Some entry
    | None => None
    end.
Proof.
  unfold sweep. cbn [snd recommendationCache]. rewrite map_lookup_filter.
  destruct (recommendationCache w !! k) as [entry|]; [|reflexivity]. cbn.
  destruct (Z.ltb_spec CACHE_DURATION (clock w - timestamp entry)).
  - rewrite option_guard_False by lia. reflexivity.
  - rewrite option_guard_True by lia. reflexivity.
Qed.

(** X1. The periodic sweep deletes exactly the entries that are more
    than five minutes old, keeps every other entry as it is, and
    changes neither the clock, the request log nor the result of any
    read of the cache. *)
Theorem sweep_deletes_only_expired (k : jsstring) (w : World) :
  recommendationCache (sweep w).2 !! k
  = match recommendationCache w !! k with
    | Some entry =>
        if (CACHE_DURATION <? clock w - timestamp entry)%Z then None else Some entry
    | None => None
    end /\
  cache_get k (sweep w).2 = cache_get k w /\
  clock (sweep w).2 = clock w /\ requests (sweep w).2 = requests w /\
  (sweep w).1 = Ok tt.
Proof.
  split; [apply sweep_lookup|]. split; [apply sweep_preserves_reads|]. repeat split.
Qed.

(** X2. An entry that is exactly five minutes old is no longer served
    by a read, yet the sweep does not delete it: the read compares with
    [<] and the sweep with [>]. *)
Theorem boundary_entry_neither_served_nor_swept
    (k : jsstring) (w : World) (entry : CacheEntry) :
  recommendationCache w !! k = Some entry ->
  (clock w - timestamp entry = CACHE_DURATION)%Z ->
  cache_get k w = None /\ recommendationCache (sweep w).2 !! k = Some entry.
Proof.
  intros Hk Hage. split.
  - apply (cache_get_expired k w entry Hk). lia.
  - rewrite sweep_lookup, Hk, Hage, Z.ltb_irrefl. reflexivity.
Qed.

Lemma boundary_entry_neither_served_nor_swept_witness :
  cache_get (js "dune") boundary_world = None /\
  recommendationCache (sweep boundary_world).2 !! js "dune"
  = Some {| data := JStr (js "old"); timestamp := 0 |}.
Proof.
  apply (boundary_entry_neither_served_nor_swept (js "dune") boundary_world
           {| data := JStr (js "old"); timestamp := 0 |}).
  - vm_compute. reflexivity.
  - reflexivity.
Defined.

Section CacheEffects.

Context (net : Transport) (AI_API_KEY : option jsstring).

Lemma getRecommendationsFromModel_world (q : jsstring) (t : Z) (w : World) :
  (getRecommendationsFromModel net AI_API_KEY q t w).2
  = sent net (ChatCompletion (authorization AI_API_KEY) (user_content q)) w.
Proof. rewrite getRecommendationsFromModel_eq. reflexivity. Qed.

Lemma getAIRecommendations_cases (q : jsstring) (w : World) :
  (exists v, cache_get (normalize q) w = Some v /\
             getAIRecommendations net AI_API_KEY q w = (Ok v, w)) \/
  (cache_get (normalize q) w = None /\
   let w1 := sent net (ChatCompletion (authorization AI_API_KEY) (user_content q)) w in
   ((exists e, getAIRecommendations net AI_API_KEY q w = (Throw e, w1)) \/
    (exists v, getAIRecommendations net AI_API_KEY q w
               = (Ok v, (cache_set (normalize q) v w1).2)))).
Proof.
  destruct (cache_get (normalize q) w) as [v|] eqn:Hc.
  - left. exists v. split; [reflexivity | apply getAIRecommendations_hit; exact Hc].
  - right. split; [reflexivity|]. cbn zeta.
    rewrite (getAIRecommendations_miss _ _ _ _ Hc).
    pose proof (getRecommendationsFromModel_world q 8000 w) as Hw.
    destruct (getRecommendationsFromModel net AI_API_KEY q 8000 w) as [[v|e] w1].
    + cbn [snd] in Hw. subst w1. right. eauto.
    + cbn [snd] in Hw. subst w1. left. eauto.
Qed.

End CacheEffects.

(** X3. A fetch that fails leaves the cache as it was, so the failure
    is not remembered; a fetch that succeeds changes at most the entry
    of the normalized query; and in every case at most one request is
    issued, a chat-completion request. *)
Theorem getAIRecommendations_cache_effect
    (net : Transport) (AI_API_KEY : option jsstring) (q : jsstring) (w : World) :
  (forall e w1, getAIRecommendations net AI_API_KEY q w = (Throw e, w1) ->
                recommendationCache w1 = recommendationCache w) /\
  (forall r w1 k, getAIRecommendations net AI_API_KEY q w = (r, w1) ->
                  k <> normalize q ->
                  recommendationCache w1 !! k = recommendationCache w !! k) /\
  (forall r w1, getAIRecommendations net AI_API_KEY q w = (r, w1) ->
                requests w1 = requests w \/
                requests w1
                = requests w ++ [ChatCompletion (authorization AI_API_KEY) (user_content q)]).
Proof.
  destruct (getAIRecommendations_cases net AI_API_KEY q w)
    as [(v & _ & H) | (_ & [(e & H) | (v & H)])]; rewrite H; clear H.
  - split; [intros e w1 H; discriminate|].
    split; intros r w1; [intros k|]; intros H; injection H as <- <-; auto.
  - split; [intros e' w1 H; injection H as _ <-; reflexivity|].
    split; intros r w1; [intros k|]; intros H; injection H as <- <-; auto.
  - split; [intros e w1 H; discriminate|].
    split; intros r w1; [intros k|]; intros H; injection H as <- <-.
    + intros Hk. cbn. apply lookup_insert_ne. congruence.
    + right. reflexivity.
Qed.

Lemma getAIRecommendations_cache_effect_witness :
  recommendationCache (getAIRecommendations offline None (js "Ulysses") warm_world).2
  = recommendationCache warm_world /\
  recommendationCache (getAIRecommendations bookshop None (js "Ulysses") warm_world).2
    !! js "dune"
  = recommendationCache warm_world !! js "dune".
Proof.
  split.
  - destruct (getAIRecommendations offline None (js "Ulysses") warm_world) as [r w1] eqn:E.
    assert (exists e, r = Throw e) as [e ->].
    { revert E. vm_compute. intros E. injection E as <- _. eauto. }
    exact (proj1 (getAIRecommendations_cache_effect offline None (js "Ulysses") warm_world)
             e w1 E).
  - destruct (getAIRecommendations bookshop None (js "Ulysses") warm_world) as [r w1] eqn:E.
    apply (proj1 (proj2 (getAIRecommendations_cache_effect bookshop None (js "Ulysses")
                           warm_world)) r w1 (js "dune") E).
    vm_compute. discriminate.
Defined.

(** X4. After [clearRecommendationCache] every query is a miss: the
    next [getAIRecommendations] asks the model, whatever the cache held
    before. *)
Theorem clear_then_fetch_asks
    (net : Transport) (AI_API_KEY : option jsstring) (q : jsstring) (w : World) :
  (clearRecommendationCache w).1 = Ok tt /\
  (forall k, cache_get k (clearRecommendationCache w).2 = None) /\
  requests (getAIRecommendations net AI_API_KEY q (clearRecommendationCache w).2).2
  = requests w ++ [ChatCompletion (authorization AI_API_KEY) (user_content q)].
Proof.
  assert (forall k, cache_get k (clearRecommendationCache w).2 = None) as Hclear.
  { intros k. unfold cache_get, clearRecommendationCache. cbn.
    rewrite lookup_empty. reflexivity. }
  split; [reflexivity|]. split; [exact Hclear|].
  rewrite (getAIRecommendations_asks net AI_API_KEY q _ (Hclear _)). reflexivity.
Qed.

(** ** The response parser and fenced replies *)

Lemma split_at_fence_none_includes (t : jsstring) :
  includes fence t = false -> split_at_fence t = None.
Proof.
  intros H. destruct (split_at_fence t) as [[b a]|] eqn:Hs; [|reflexivity].
  apply split_at_fence_app in Hs.
  assert (includes fence t = true) as Hi by (apply includes_spec; eauto).
  congruence.
Qed.

Lemma split_at_fence_none_cons (c : N) (x : jsstring) :
  split_at_fence (c :: x) = None ->
  startsWith fence (c :: x) = false /\ split_at_fence x = None.
Proof.
  cbn [split_at_fence]. destruct (startsWith fence (c :: x)); [discriminate|].
  destruct (split_at_fence x) as [[b a]|]; [discriminate | auto].
Qed.

Lemma split_at_fence_line (x r : jsstring) :
  split_at_fence x = None ->
  split_at_fence (x ++ [10] ++ fence ++ r) = Some (x ++ [10], r).
Proof.
  induction x as [|c x IH]; intros Hx; [reflexivity|].
  apply split_at_fence_none_cons in Hx. destruct Hx as [Hf Hx].
  rewrite <- app_comm_cons.
  rewrite split_at_fence_cons, (IH Hx); [reflexivity|].
  destruct (startsWith fence (c :: x ++ [10] ++ fence ++ r)) eqn:Hs; [|reflexivity].
  apply startsWith_spec in Hs. destruct Hs as [rest Hs].
  change (fence ++ rest) with (96 :: 96 :: 96 :: rest) in Hs.
  destruct x as [|d [|e x]]; try discriminate Hs.
  injection Hs as -> -> -> _. discriminate Hf.
Qed.

(** X5. Wrapping a reply that contains no fence in a block tagged
    [json], each fence on a line of its own, does not change what the
    parser returns or throws. *)
Theorem extractJsonFromResponse_json_block (t : jsstring) :
  includes fence t = false ->
  extractJsonFromResponse (fence ++ js "json" ++ [10] ++ t ++ [10] ++ fence)
  = extractJsonFromResponse t.
Proof.
  intros Ht. apply split_at_fence_none_includes in Ht.
  rewrite !extractJsonFromResponse_eq.
  assert (fenced_block t = None) as -> by (unfold fenced_block; rewrite Ht; reflexivity).
  assert (fenced_block (fence ++ js "json" ++ [10] ++ t ++ [10] ++ fence)
          = Some (js "json" ++ [10] ++ t ++ [10])) as ->.
  { unfold fenced_block.
    change (split_at_fence (fence ++ js "json" ++ [10] ++ t ++ [10] ++ fence))
      with (Some (@nil N, js "json" ++ [10] ++ t ++ [10] ++ fence)).
    cbn iota beta.
    pose proof (split_at_fence_line (js "json" ++ [10] ++ t) []) as H.
    rewrite <- !app_assoc in H. rewrite (app_nil_r fence) in H. rewrite H; [reflexivity|].
    change (js "json" ++ [10] ++ t) with (106 :: 115 :: 111 :: 110 :: 10 :: t).
    rewrite !split_at_fence_cons by (apply startsWith_fence_cons; discriminate).
    rewrite Ht. reflexivity. }
  change (strip_json_tag (js "json" ++ [10] ++ t ++ [10])) with ([10] ++ t ++ [10]).
  rewrite trim_outer_space by (repeat constructor). reflexivity.
Qed.

Lemma extractJsonFromResponse_json_block_witness :
  extractJsonFromResponse
    (fence ++ js "json" ++ [10] ++ jsq "{'recommendations': []}" ++ [10] ++ fence)
  = extractJsonFromResponse (jsq "{'recommendations': []}").
Proof.
  apply extractJsonFromResponse_json_block. vm_compute. reflexivity.
Defined.

(** ** The first cover source *)

Section OpenLibrary.

Context (net : Transport).

Lemma first_cover_id_skip (pre : list OpenLibraryDoc) (rest : list OpenLibraryDoc) :
  Forall (fun d => has_cover_id d = false) pre ->
  first_cover_id (pre ++ rest) = first_cover_id rest.
Proof.
  induction 1 as [|d pre Hd _ IH]; [reflexivity|].
  cbn [app first_cover_id]. unfold has_cover_id in Hd.
  destruct (cover_i d) as [n|]; [|exact IH].
  destruct (n =? 0); [exact IH | discriminate Hd].
Qed.

Lemma first_cover_id_none (l : list OpenLibraryDoc) :
  Forall (fun d => has_cover_id d = false) l -> first_cover_id l = None.
Proof.
  intros H. rewrite <- (app_nil_r l). rewrite first_cover_id_skip by exact H. reflexivity.
Qed.

Lemma find_skip {A} (f : A -> bool) (pre : list A) (x : A) (post : list A) :
  Forall (fun y => f y = false) pre -> f x = true ->
  List.find f (pre ++ x :: post) = Some x.
Proof.
  intros Hpre Hx. induction Hpre as [|y pre Hy _ IH]; cbn [app List.find].
  - rewrite Hx. reflexivity.
  - rewrite Hy. exact IH.
Qed.

Lemma fetchBookCoverFromOpenLibrary_eq (t a : jsstring) (w : World) :
  fetchBookCoverFromOpenLibrary net t a w
  = let w1 := sent net (OpenLibrarySearch (openlibrary_query t a)) w in
    match get_openlibrary net w (openlibrary_query t a) with
    | None => (Ok None, w1)
    | Some data =>
        match docs data with
        | Some (d :: ds) =>
            match first_cover_id (d :: ds) with
            | Some n => (Ok (Some (cover_by_id n)), w1)
            | None =>
                match List.find has_isbn (d :: ds) with
                | Some book =>
                    let u := cover_by_isbn (default [] (head (default [] (isbn book)))) in
                    (match head_cover net w1 u with
                     | Some _ => Ok (Some u)
                     | None => Ok None
                     end, sent net (CoverHead u) w1)
                | None => (Ok None, w1)
                end
            end
        | _ => (Ok None, w1)
        end
    end.
Proof.
  unfold fetchBookCoverFromOpenLibrary, try_catch, bind, axios, ret. cbn zeta.
  fold (openlibrary_query t a).
  destruct (get_openlibrary net w (openlibrary_query t a)) as [data|]; [|reflexivity].
  destruct (docs data) as [[|d ds]|]; try reflexivity.
  destruct (first_cover_id (d :: ds)); [reflexivity|].
  destruct (List.find has_isbn (d :: ds)) as [book|]; [|reflexivity].
  fold (cover_by_isbn (default [] (head (default [] (isbn book))))).
  destruct (head_cover net _ _); reflexivity.
Qed.

Lemma fetchBookCoverFromOpenLibrary_result (t a : jsstring) (w : World) :
  exists r w',
    fetchBookCoverFromOpenLibrary net t a w = (Ok r, w') /\
    (r = None \/ truthy r = true) /\
    recommendationCache w' = recommendationCache w.
Proof.
  rewrite fetchBookCoverFromOpenLibrary_eq. cbn zeta.
  destruct (get_openlibrary net w (openlibrary_query t a)) as [data|];
    [|eexists _, _; repeat split; auto].
  destruct (docs data) as [[|d ds]|]; try (eexists _, _; repeat split; auto; fail).
  destruct (first_cover_id (d :: ds)) as [n|];
    [eexists _, _; repeat split; right; reflexivity|].
  destruct (List.find has_isbn (d :: ds)) as [book|];
    [|eexists _, _; repeat split; auto].
  destruct (head_cover net _ _); eexists _, _; repeat split; auto.
Qed.

End OpenLibrary.

(** X6. [fetchBookCoverFromOpenLibrary] never throws.  It issues the
    search request and at most one existence check after it, and no
    other request; it leaves the cache alone; and its result is absent
    or a URL below [https://covers.openlibrary.org/b/]. *)
Theorem fetchBookCoverFromOpenLibrary_safe
    (net : Transport) (t a : jsstring) (w : World) :
  exists r w',
    fetchBookCoverFromOpenLibrary net t a w = (Ok r, w') /\
    (r = None \/ exists rest, r = Some (js "https://covers.openlibrary.org/b/" ++ rest)) /\
    recommendationCache w' = recommendationCache w /\
    (requests w' = requests w ++ [OpenLibrarySearch (openlibrary_query t a)] \/
     exists u, requests w'
               = requests w ++ [OpenLibrarySearch (openlibrary_query t a); CoverHead u]).
Proof.
  rewrite fetchBookCoverFromOpenLibrary_eq. cbn zeta.
  destruct (get_openlibrary net w (openlibrary_query t a)) as [data|];
    [|eexists _, _; repeat split; auto].
  destruct (docs data) as [[|d ds]|]; try (eexists _, _; repeat split; auto; fail).
  destruct (first_cover_id (d :: ds)) as [n|].
  { eexists _, _. split; [reflexivity|]. split; [|split; [reflexivity | left; reflexivity]].
    right. eexists. reflexivity. }
  destruct (List.find has_isbn (d :: ds)) as [book|];
    [|eexists _, _; repeat split; auto].
  destruct (head_cover net _ _);
    (eexists _, _; split; [reflexivity|]; split; [|split; [reflexivity|]]);
    try (right; eexists; cbn; rewrite <- app_assoc; reflexivity).
  - right. eexists. reflexivity.
  - left. reflexivity.
Qed.

(** X7. A cover id wins over an ISBN.  When the answer lists a document
    with a non-zero cover id, the result is the cover URL of the first
    such document and no existence check is made, even when earlier
    documents carry ISBNs. *)
Theorem fetchBookCoverFromOpenLibrary_prefers_cover_id
    (net : Transport) (t a : jsstring) (w : World) (data : OpenLibraryData)
    (pre : list OpenLibraryDoc) (book : OpenLibraryDoc) (post : list OpenLibraryDoc) (n : N) :
  get_openlibrary net w (openlibrary_query t a) = Some data ->
  docs data = Some (pre ++ book :: post) ->
  Forall (fun d => has_cover_id d = false) pre ->
  cover_i book = Some n -> n <> 0 ->
  fetchBookCoverFromOpenLibrary net t a w
  = (Ok (Some (cover_by_id n)), sent net (OpenLibrarySearch (openlibrary_query t a)) w).
Proof.
  intros Hans Hdocs Hpre Hn Hn0.
  assert (first_cover_id (pre ++ book :: post) = Some n) as Hfirst.
  { rewrite first_cover_id_skip by exact Hpre. cbn [first_cover_id]. rewrite Hn.
    destruct (N.eqb_spec n 0); [contradiction | reflexivity]. }
  rewrite fetchBookCoverFromOpenLibrary_eq, Hans, Hdocs. cbn zeta.
  destruct (pre ++ book :: post) as [|d ds] eqn:Hl; [destruct pre; discriminate|].
  rewrite Hfirst. reflexivity.
Qed.

Lemma fetchBookCoverFromOpenLibrary_prefers_cover_id_witness :
  (fetchBookCoverFromOpenLibrary shelf (js "Dune") (js "Frank Herbert") empty_world).1
  = Ok (Some (js "https://covers.openlibrary.org/b/id/8231990-L.jpg")).
Proof.
  rewrite (fetchBookCoverFromOpenLibrary_prefers_cover_id shelf (js "Dune") (js "Frank Herbert")
             empty_world
             {| docs := Some [ {| cover_i := None; isbn := Some [js "9780441172719"] |};
                               {| cover_i := Some 8231990; isbn := None |} ] |}
             [ {| cover_i := None; isbn := Some [js "9780441172719"] |} ]
             {| cover_i := Some 8231990; isbn := None |} [] 8231990
             eq_refl eq_refl ltac:(repeat constructor) eq_refl ltac:(discriminate)).
  vm_compute. reflexivity.
Defined.

(** X8. When no document has a cover id, the first document with an
    ISBN decides: the cover URL of its first ISBN is checked, and it is
    the result exactly when the check succeeds.  A failed check gives
    absent; no further ISBN and no further document is tried. *)
Theorem fetchBookCoverFromOpenLibrary_isbn
    (net : Transport) (t a : jsstring) (w : World) (data : OpenLibraryData)
    (pre : list OpenLibraryDoc) (book : OpenLibraryDoc) (post : list OpenLibraryDoc)
    (isbn0 : jsstring) (more : list jsstring) :
  get_openlibrary net w (openlibrary_query t a) = Some data ->
  docs data = Some (pre ++ book :: post) ->
  Forall (fun d => has_cover_id d = false) (pre ++ book :: post) ->
  Forall (fun d => has_isbn d = false) pre ->
  isbn book = Some (isbn0 :: more) ->
  let w1 := sent net (OpenLibrarySearch (openlibrary_query t a)) w in
  fetchBookCoverFromOpenLibrary net t a w
  = (match head_cover net w1 (cover_by_isbn isbn0) with
     | Some _ => Ok (Some (cover_by_isbn isbn0))
     | None => Ok None
     end, sent net (CoverHead (cover_by_isbn isbn0)) w1).
Proof.
  intros Hans Hdocs Hcover Hpre Hisbn w1.
  assert (List.find has_isbn (pre ++ book :: post) = Some book) as Hfind.
  { apply find_skip; [exact Hpre|]. unfold has_isbn. rewrite Hisbn. reflexivity. }
  rewrite fetchBookCoverFromOpenLibrary_eq, Hans, Hdocs. cbn zeta.
  pose proof (first_cover_id_none _ Hcover) as Hnone.
  destruct (pre ++ book :: post) as [|d ds] eqn:Hl; [destruct pre; discriminate|].
  rewrite Hnone, Hfind, Hisbn. reflexivity.
Qed.

Lemma fetchBookCoverFromOpenLibrary_isbn_witness :
  fetchBookCoverFromOpenLibrary isbn_shelf (js "Dune") (js "Frank Herbert") empty_world
  = (Ok None,
     sent isbn_shelf (CoverHead (js "https://covers.openlibrary.org/b/isbn/111-L.jpg"))
       (sent isbn_shelf (OpenLibrarySearch (openlibrary_query (js "Dune") (js "Frank Herbert")))
          empty_world)).
Proof.
  rewrite (fetchBookCoverFromOpenLibrary_isbn isbn_shelf (js "Dune") (js "Frank Herbert")
             empty_world
             {| docs := Some [ {| cover_i := Some 0; isbn := Some [] |};
                               {| cover_i := None; isbn := Some [js "111"; js "222"] |};
                               {| cover_i := None; isbn := Some [js "333"] |} ] |}
             [ {| cover_i := Some 0; isbn := Some [] |} ]
             {| cover_i := None; isbn := Some [js "111"; js "222"] |}
             [ {| cover_i := None; isbn := Some [js "333"] |} ]
             (js "111") [js "222"]
             eq_refl eq_refl ltac:(repeat constructor) ltac:(repeat constructor) eq_refl).
  reflexivity.
Defined.

(** ** The second cover source *)

Lemma first_image_skip (pre rest : list Volume) :
  Forall (fun i => has_image i = false) pre ->
  first_image (pre ++ rest) = first_image rest.
Proof.
  induction 1 as [|i pre Hi _ IH]; [reflexivity|].
  cbn [app first_image]. cbn zeta. unfold has_image, image_of in Hi.
  apply orb_false_iff in Hi. destruct Hi as [Hi Ht].
  apply orb_false_iff in Hi. destruct Hi as [Hl Hm].
  rewrite Hl, Hm, Ht. exact IH.
Qed.

Lemma first_image_truthy (l : list Volume) :
  first_image l = None \/ truthy (first_image l) = true.
Proof.
  induction l as [|i l IH]; [left; reflexivity|]. cbn [first_image].
  repeat match goal with
         | |- context [if truthy ?x then _ else _] =>
             let H := fresh in destruct (truthy x) eqn:H; [right; exact H|]
         end.
  exact IH.
Qed.

Lemma fetchBookCoverFromGoogleBooks_eq (net : Transport) (t a : jsstring) (w : World) :
  fetchBookCoverFromGoogleBooks net t a w
  = (Ok (match get_volumes net w (volumes_query t a) with
         | Some data =>
             match volumes data with
             | Some l => first_image l
             | None => None
             end
         | None => None
         end),
     sent net (GoogleBooksVolumes (volumes_query t a)) w).
Proof.
  unfold fetchBookCoverFromGoogleBooks, try_catch, bind, axios, ret. cbn zeta.
  fold (volumes_query t a).
  destruct (get_volumes net w (volumes_query t a)) as [data|]; [|reflexivity].
  destruct (volumes data) as [[|i is']|]; reflexivity.
Qed.

(** X9. In the answer of Google Books the order of the volumes counts
    before the size of the image: the result is taken from the first
    volume that has any image, and within that volume the large image
    is preferred to the medium one and the medium one to the
    thumbnail.  The function never throws and issues one request. *)
Theorem fetchBookCoverFromGoogleBooks_first_volume
    (net : Transport) (t a : jsstring) (w : World) (data : VolumesData)
    (pre : list Volume) (item : Volume) (post : list Volume) :
  get_volumes net w (volumes_query t a) = Some data ->
  volumes data = Some (pre ++ item :: post) ->
  Forall (fun i => has_image i = false) pre ->
  has_image item = true ->
  fetchBookCoverFromGoogleBooks net t a w
  = (Ok (if truthy (image_of large item) then image_of large item
         else if truthy (image_of medium item) then image_of medium item
         else image_of thumbnail item),
     sent net (GoogleBooksVolumes (volumes_query t a)) w).
Proof.
  intros Hans Hvol Hpre Hitem.
  rewrite fetchBookCoverFromGoogleBooks_eq, Hans, Hvol, (first_image_skip _ _ Hpre).
  cbn [first_image]. cbn zeta.
  change (l ← (v ← volumeInfo item; imageLinks v); large l) with (image_of large item).
  change (l ← (v ← volumeInfo item; imageLinks v); medium l) with (image_of medium item).
  change (l ← (v ← volumeInfo item; imageLinks v); thumbnail l)
    with (image_of thumbnail item).
  unfold has_image in Hitem.
  destruct (truthy (image_of large item)); [reflexivity|].
  destruct (truthy (image_of medium item)); [reflexivity|].
  cbn in Hitem. rewrite Hitem. reflexivity.
Qed.

Lemma fetchBookCoverFromGoogleBooks_first_volume_witness :
  (fetchBookCoverFromGoogleBooks shelf (js "Dune") (js "Frank Herbert") empty_world).1
  = Ok (Some (js "https://books.example/thumb.jpg")).
Proof.
  rewrite (fetchBookCoverFromGoogleBooks_first_volume shelf (js "Dune") (js "Frank Herbert")
             empty_world _ [] _ _ eq_refl eq_refl ltac:(constructor) eq_refl).
  reflexivity.
Defined.

(** ** The cover-image resolver: results and fallback order *)

Section Resolver.

Context (net : Transport).

Lemma fetchBookCoverFromGoogleBooks_result (t a : jsstring) (w : World) :
  exists r w',
    fetchBookCoverFromGoogleBooks net t a w = (Ok r, w') /\
    (r = None \/ truthy r = true) /\
    recommendationCache w' = recommendationCache w.
Proof.
  rewrite fetchBookCoverFromGoogleBooks_eq. eexists _, _. split; [reflexivity|].
  split; [|reflexivity].
  destruct (get_volumes net w _) as [data|]; [|auto].
  destruct (volumes data) as [l|]; [apply first_image_truthy | auto].
Qed.

Lemma truthy_default (r : option jsstring) : truthy r = true -> default [] r <> [].
Proof. destruct r as [[|c u]|]; discriminate. Qed.

Lemma fetchBookCover_cases (t a : jsstring) (w : World) :
  (exists url w', fetchBookCover net t a w = (Ok url, w') /\ url <> [] /\
                  recommendationCache w' = recommendationCache w) \/
  (exists w', fetchBookCover net t a w = (Throw URIError, w') /\
              (encodeURIComponent (take 30 t) = None \/
               encodeURIComponent (take 20 a) = None)).
Proof.
  destruct (fetchBookCoverFromOpenLibrary_result net t a w) as (r1 & w1 & H1 & Hr1 & Hc1).
  unfold fetchBookCover, bind, substring0. rewrite H1.
  destruct Hr1 as [-> | Hr1].
  - cbn [truthy negb].
    destruct (fetchBookCoverFromGoogleBooks_result t a w1) as (r2 & w2 & H2 & Hr2 & Hc2).
    rewrite H2. rewrite Hc1 in Hc2.
    destruct Hr2 as [-> | Hr2].
    + cbn [truthy negb].
      destruct (encodeURIComponent (take 30 t)) as [et|]; [|right; eauto].
      destruct (encodeURIComponent (take 20 a)) as [ea|]; [|right; eauto].
      left. eexists _, _. split; [reflexivity|]. split; [discriminate | exact Hc2].
    + rewrite Hr2. cbn [negb]. left. eexists _, _. split; [reflexivity|].
      split; [apply truthy_default, Hr2 | exact Hc2].
  - rewrite Hr1. cbn [negb]. unfold ret. rewrite Hr1. cbn [negb].
    left. eexists _, _. split; [reflexivity|]. split; [apply truthy_default, Hr1 | exact Hc1].
Qed.

End Resolver.

(** X10. [fetchBookCover] never returns an empty URL and never touches
    the cache.  The only error it can throw is the [URIError] of
    [encodeURIComponent], and only when the first 30 code units of the
    title or the first 20 of the author cannot be encoded; for a title
    and an author without surrogate code units it always returns. *)
Theorem fetchBookCover_url_or_URIError
    (net : Transport) (t a : jsstring) (w : World) :
  ((exists url w', fetchBookCover net t a w = (Ok url, w') /\ url <> [] /\
                   recommendationCache w' = recommendationCache w) \/
   (exists w', fetchBookCover net t a w = (Throw URIError, w') /\
               (encodeURIComponent (take 30 t) = None \/
                encodeURIComponent (take 20 a) = None))) /\
  (no_surrogates t -> no_surrogates a ->
   exists url w', fetchBookCover net t a w = (Ok url, w') /\ url <> []).
Proof.
  split; [apply fetchBookCover_cases|].
  intros Ht Ha.
  destruct (fetchBookCover_cases net t a w) as [(url & w' & H & Hu & _) | (w' & _ & Henc)];
    [eauto|].
  destruct (encodeURIComponent_total _ (no_surrogates_take 30 _ Ht)) as [et Het].
  destruct (encodeURIComponent_total _ (no_surrogates_take 20 _ Ha)) as [ea Hea].
  destruct Henc; congruence.
Qed.

Lemma fetchBookCover_url_or_URIError_witness :
  exists url w',
    fetchBookCover offline (js "Dune & Co") (js "Frank Herbert") empty_world = (Ok url, w') /\
    url <> [].
Proof.
  apply (proj2 (fetchBookCover_url_or_URIError offline (js "Dune & Co") (js "Frank Herbert")
                  empty_world)); repeat constructor.
Defined.

(** X11. The fallback order of [fetchBookCover].  A cover from Open
    Library is the result, and Google Books is not asked.  Without one,
    a cover from Google Books is the result, and nothing is encoded: it
    is returned even for a title that [encodeURIComponent] rejects. *)
Theorem fetchBookCover_fallback_order
    (net : Transport) (t a : jsstring) (w w1 : World) (r1 : option jsstring) :
  fetchBookCoverFromOpenLibrary net t a w = (Ok r1, w1) ->
  (forall url, r1 = Some url -> url <> [] ->
     fetchBookCover net t a w = (Ok url, w1) /\
     List.filter is_volumes_request (requests w1) = List.filter is_volumes_request (requests w)) /\
  (forall url w2, truthy r1 = false ->
     fetchBookCoverFromGoogleBooks net t a w1 = (Ok (Some url), w2) -> url <> [] ->
     fetchBookCover net t a w = (Ok url, w2)).
Proof.
  intros H1. split.
  - intros url -> Hne.
    destruct (fetchBookCover_first_source net t a url w w1 H1 Hne) as [H [extra [Hr Hx]]].
    split; [exact H|]. rewrite Hr, List.filter_app.
    assert (List.filter is_volumes_request extra = []) as ->; [|apply app_nil_r].
    clear -Hx. induction extra as [|x extra IH]; [reflexivity|].
    cbn in Hx |- *. apply andb_true_iff in Hx. destruct Hx as [Hx Hrest].
    destruct (is_volumes_request x); [discriminate | auto].
  - intros url w2 Hr1 H2 Hne. unfold fetchBookCover, bind. rewrite H1, Hr1. cbn [negb].
    rewrite H2. destruct url as [|c url]; [congruence | reflexivity].
Qed.

Lemma fetchBookCover_fallback_order_witness :
  (fetchBookCover shelf (js "Dune") (js "Frank Herbert") empty_world).1
  = Ok (js "https://covers.openlibrary.org/b/id/8231990-L.jpg") /\
  (fetchBookCover isbn_shelf long_title (js "Ann Author") empty_world).1
  = Ok (js "https://books.example/thumb.jpg").
Proof.
  split.
  - eassert (fetchBookCoverFromOpenLibrary shelf (js "Dune") (js "Frank Herbert") empty_world
             = (Ok _, _)) as H1 by (vm_compute; reflexivity).
    destruct (fetchBookCover_fallback_order shelf _ _ _ _ _ H1) as [Hfirst _].
    destruct (Hfirst _ eq_refl ltac:(discriminate)) as [-> _]. reflexivity.
  - eassert (fetchBookCoverFromOpenLibrary isbn_shelf long_title (js "Ann Author") empty_world
             = (Ok _, _)) as H1 by (vm_compute; reflexivity).
    destruct (fetchBookCover_fallback_order isbn_shelf _ _ _ _ _ H1) as [_ Hsecond].
    eassert (fetchBookCoverFromGoogleBooks isbn_shelf long_title (js "Ann Author") _
             = (Ok (Some _), _)) as H2 by (vm_compute; reflexivity).
    rewrite (Hsecond _ _ eq_refl H2 ltac:(discriminate)). reflexivity.
Defined.

(** ** The placeholder address *)

Lemma url_char_hex (d : N) : d < 16 -> url_char (hex_digit d) = true.
Proof.
  intros Hd. unfold hex_digit. destruct (N.ltb_spec d 10) as [H|H].
  - assert (48 <= 48 + d <= 57) as Hr by lia. revert Hr. generalize (48 + d). intros x Hr.
    unfold url_char, is_uri_unreserved. settle_comparisons x. reflexivity.
  - assert (65 <= 55 + d <= 70) as Hr by lia. revert Hr. generalize (55 + d). intros x Hr.
    unfold url_char, is_uri_unreserved. settle_comparisons x. reflexivity.
Qed.

Lemma percent_byte_safe (b : N) :
  b < 256 -> Forall (fun c => url_char c = true) (percent_byte b).
Proof.
  intros Hb. unfold percent_byte. repeat constructor.
  - apply url_char_hex. apply N.Div0.div_lt_upper_bound. lia.
  - apply url_char_hex. apply N.mod_lt. lia.
Qed.

Lemma utf8_octets_bytes (cp : N) :
  cp < 2097152 ->
  Forall (fun b => b < 256) (utf8_octets cp) /\
  (length (utf8_octets cp) <= 4)%nat /\
  (cp < 65536 -> (length (utf8_octets cp) <= 3)%nat).
Proof.
  intros Hcp. unfold utf8_octets.
  pose proof (N.mod_lt cp 64 ltac:(lia)) as Hm0.
  pose proof (N.mod_lt (cp / 64) 64 ltac:(lia)) as Hm1.
  pose proof (N.mod_lt (cp / 4096) 64 ltac:(lia)) as Hm2.
  destruct (N.ltb_spec cp 128); [|destruct (N.ltb_spec cp 2048); [|destruct (N.ltb_spec cp 65536)]].
  - split; [repeat constructor; lia | cbn; lia].
  - assert (cp / 64 < 32) by (apply N.Div0.div_lt_upper_bound; lia).
    split; [repeat constructor; lia | cbn; lia].
  - assert (cp / 4096 < 16) by (apply N.Div0.div_lt_upper_bound; lia).
    split; [repeat constructor; lia | cbn; lia].
  - assert (cp / 262144 < 8) by (apply N.Div0.div_lt_upper_bound; lia).
    split; [repeat constructor; lia | cbn; lia].
Qed.

Lemma percent_encoded_point (cp : N) :
  cp < 2097152 ->
  let e := flat_map percent_byte (utf8_octets cp) in
  Forall (fun c => url_char c = true) e /\
  (length e <= 12)%nat /\ (cp < 65536 -> (length e <= 9)%nat).
Proof.
  intros Hcp e. destruct (utf8_octets_bytes cp Hcp) as (Hb & Hl & Hs).
  assert (length e = 3 * length (utf8_octets cp))%nat as Hlen.
  { subst e. clear. induction (utf8_octets cp) as [|b l IH]; [reflexivity|].
    cbn [flat_map]. rewrite length_app, IH. cbn [percent_byte length]. lia. }
  split; [|split; [lia | intros H; specialize (Hs H); lia]].
  subst e. clear -Hb. induction Hb as [|b l Hb _ IH]; [constructor|].
  cbn [flat_map]. apply Forall_app. split; [apply percent_byte_safe, Hb | exact IH].
Qed.

Lemma encodeURIComponent_safe (n : nat) (s e : jsstring) :
  (length s <= n)%nat -> code_units s -> encodeURIComponent s = Some e ->
  Forall (fun c => url_char c = true) e /\ (length e <= 9 * length s)%nat.
Proof.
  revert s e. induction n as [|n IH]; intros s e Hn Hs He.
  { destruct s; [|cbn in Hn; lia]. injection He as <-. split; [constructor | cbn; lia]. }
  destruct s as [|c s]; [injection He as <-; split; [constructor | cbn; lia]|].
  cbn [length] in Hn. cbn [encodeURIComponent] in He.
  apply Forall_cons in Hs. destruct Hs as [Hc Hs].
  destruct (is_uri_unreserved c) eqn:Hu.
  - destruct (encodeURIComponent s) as [e'|] eqn:He'; [|discriminate].
    injection He as <-. destruct (IH s e' ltac:(lia) Hs He') as [Hsafe Hlen].
    split; [constructor; [unfold url_char; rewrite Hu; reflexivity | exact Hsafe]|].
    cbn [length]. lia.
  - destruct (is_low_surrogate c); [discriminate|].
    destruct (is_high_surrogate c) eqn:Hh.
    + destruct s as [|d s'']; [discriminate|].
      destruct (is_low_surrogate d) eqn:Hl; [|discriminate].
      destruct (encodeURIComponent s'') as [e'|] eqn:He'; [|discriminate].
      injection He as <-. apply Forall_cons in Hs. destruct Hs as [Hd Hs].
      cbn [length] in Hn |- *.
      destruct (IH s'' e' ltac:(lia) Hs He') as [Hsafe Hlen].
      unfold is_high_surrogate in Hh. unfold is_low_surrogate in Hl.
      apply andb_true_iff in Hh, Hl. destruct Hh as [Hh1 Hh2], Hl as [Hl1 Hl2].
      apply N.leb_le in Hh1, Hh2, Hl1, Hl2.
      destruct (percent_encoded_point ((c - 55296) * 1024 + (d - 56320) + 65536) ltac:(lia))
        as (Hp & Hp12 & _).
      split; [apply Forall_app; split; assumption|].
      rewrite length_app. lia.
    + destruct (encodeURIComponent s) as [e'|] eqn:He'; [|discriminate].
      injection He as <-. destruct (IH s e' ltac:(lia) Hs He') as [Hsafe Hlen].
      destruct (percent_encoded_point c ltac:(lia)) as (Hp & _ & Hp9).
      split; [apply Forall_app; split; assumption|].
      rewrite length_app. cbn [length]. specialize (Hp9 Hc). lia.
Qed.

(** X12. The placeholder address is bounded and needs no escape.  When
    neither source has a cover, the URL that [fetchBookCover] returns
    has at most 509 code units, however long the title and the author
    are, and consists of unreserved characters, percent escapes and the
    punctuation of the address only. *)
Theorem fetchBookCover_placeholder_bounded
    (net : Transport) (t a : jsstring) (w w1 w2 w' : World)
    (r1 r2 : option jsstring) (url : jsstring) :
  code_units t -> code_units a ->
  fetchBookCoverFromOpenLibrary net t a w = (Ok r1, w1) -> truthy r1 = false ->
  fetchBookCoverFromGoogleBooks net t a w1 = (Ok r2, w2) -> truthy r2 = false ->
  fetchBookCover net t a w = (Ok url, w') ->
  Forall (fun c => url_char c = true) url /\ (length url <= 509)%nat.
Proof.
  intros Ht Ha H1 Hr1 H2 Hr2 H.
  unfold fetchBookCover, bind, substring0 in H. rewrite H1, Hr1 in H. cbn [negb] in H.
  rewrite H2, Hr2 in H. cbn [negb] in H.
  destruct (encodeURIComponent (take 30 t)) as [et|] eqn:Het; [|discriminate].
  destruct (encodeURIComponent (take 20 a)) as [ea|] eqn:Hea; [|discriminate].
  unfold ret in H.
  assert (url = placeholder et ea) as -> by (unfold placeholder; congruence).
  unfold placeholder.
  destruct (encodeURIComponent_safe _ _ _ (le_n _) ltac:(apply Forall_take, Ht) Het) as [Hst Hlt].
  destruct (encodeURIComponent_safe _ _ _ (le_n _) ltac:(apply Forall_take, Ha) Hea) as [Hsa Hla].
  rewrite length_take in Hlt, Hla.
  split.
  - rewrite !Forall_app. repeat split; try assumption; vm_compute; repeat constructor.
  - rewrite !length_app. change (length (js "+by+")) with 4%nat.
    change (length (js "https://via.placeholder.com/400x600/1e293b/f8fafc?text=")) with 55%nat.
    lia.
Qed.

Lemma fetchBookCover_placeholder_bounded_witness :
  exists url w',
    fetchBookCover offline accented_title (js "Victor Hugo") empty_world = (Ok url, w') /\
    Forall (fun c => url_char c = true) url /\ (length url <= 509)%nat.
Proof.
  eexists _, _. split; [vm_compute; reflexivity|].
  eapply (fetchBookCover_placeholder_bounded offline accented_title (js "Victor Hugo")
            empty_world _ _ _ None None);
    [ repeat constructor | repeat constructor | reflexivity | reflexivity
    | reflexivity | reflexivity | vm_compute; reflexivity ].
Defined.

(** ** Cleaned titles and the PDF query *)

Lemma strip_punctuation_plain (s : jsstring) :
  Forall (fun c => plain c = true) (strip_punctuation s).
Proof.
  unfold strip_punctuation. induction s as [|c s IH]; [constructor|].
  cbn [List.filter]. destruct (is_word c || is_whitespace c) eqn:H; [|exact IH].
  constructor; [exact H | exact IH].
Qed.

Lemma strip_punctuation_fixed (s : jsstring) :
  Forall (fun c => plain c = true) s -> strip_punctuation s = s.
Proof.
  unfold strip_punctuation. induction 1 as [|c s Hc _ IH]; [reflexivity|].
  cbn [List.filter]. unfold plain in Hc. rewrite Hc, IH. reflexivity.
Qed.

Lemma trimStart_Forall (P : N -> Prop) (s : jsstring) : Forall P s -> Forall P (trimStart s).
Proof.
  induction 1 as [|c s Hc Hs IH]; [constructor|].
  cbn [trimStart]. destruct (is_whitespace c); [exact IH | constructor; assumption].
Qed.

Lemma trim_Forall (P : N -> Prop) (s : jsstring) : Forall P s -> Forall P (trim s).
Proof.
  intros H. unfold trim, trimEnd.
  apply List.Forall_rev, trimStart_Forall, List.Forall_rev, trimStart_Forall, H.
Qed.

Lemma clean_plain (t : jsstring) : Forall (fun c => plain c = true) (clean t).
Proof. unfold clean. apply trim_Forall, strip_punctuation_plain. Qed.

Lemma clean_no_quote (t : jsstring) : count_occ N.eq_dec (clean t) 34 = 0%nat.
Proof.
  apply count_occ_not_In. intros H.
  pose proof (proj1 (List.Forall_forall _ _) (clean_plain t) _ H) as Hq.
  vm_compute in Hq. discriminate Hq.
Qed.

(** X14. Cleaning a title or an author is idempotent, and the cleaned
    text consists of word characters and white space only, with no
    white space at either end. *)
Theorem clean_idempotent (t : jsstring) :
  clean (clean t) = clean t /\
  Forall (fun c => plain c = true) (clean t) /\
  trim (clean t) = clean t.
Proof.
  split; [|split; [apply clean_plain | apply trim_idem]].
  unfold clean at 1. rewrite (strip_punctuation_fixed _ (clean_plain t)).
  apply trim_idem.
Qed.

(** X13. The query that [searchGoogleForPDF] sends is well quoted: it
    holds exactly four double quotes, those around the cleaned title
    and the cleaned author, whatever the title and the author
    contain. *)
Theorem pdf_query_quotes (t a : jsstring) :
  count_occ N.eq_dec (pdf_query t a) 34 = 4%nat /\
  count_occ N.eq_dec (clean t) 34 = 0%nat /\
  count_occ N.eq_dec (clean a) 34 = 0%nat.
Proof.
  split; [|split; apply clean_no_quote].
  unfold pdf_query. rewrite !count_occ_app, !clean_no_quote. reflexivity.
Qed.

(** ** Titles and authors *)

Lemma split_cons (sep : N) (s : jsstring) : exists p ps, split sep s = p :: ps.
Proof.
  pose proof (split_nonempty sep s) as H.
  destruct (split sep s) as [|p ps]; [congruence | eauto].
Qed.

(** X20. The converter never gives a book an empty list of authors, and
    no author and no author string has white space at either end; the
    authors are the parts of the author string between commas. *)
Theorem parse_recommendation_authors (s : jsstring) :
  let '(_, authorString, author) := parse_recommendation s in
  author <> [] /\
  Forall (fun a => trim a = a) author /\
  trim authorString = authorString /\
  author = List.map trim (split 44 authorString).
Proof.
  rewrite parse_recommendation_eq.
  destruct (first_separator s) as [[t g]|].
  - split; [|split; [|split]].
    + destruct (split_cons 44 (trim g)) as (p & ps & ->). discriminate.
    + apply List.Forall_forall. intros a Ha. apply in_map_iff in Ha.
      destruct Ha as (x & <- & _). apply trim_idem.
    + apply trim_idem.
    + reflexivity.
  - split; [discriminate|]. split; [repeat constructor|]. split; reflexivity.
Qed.

(** X21. A recommendation of one line that ends in its first
    by-separator matches the pattern with an empty second group: the
    title is the trimmed text before the separator, the author string
    is empty, and the book gets the empty string as its one author. *)
Theorem parse_recommendation_blank_author
    (t w1 : jsstring) (b y : N) (w2 : jsstring) :
  by_separator w1 b y w2 -> single_line (t ++ w1 ++ [b; y] ++ w2) ->
  ~ has_by_separator (t ++ w1) ->
  parse_recommendation (t ++ w1 ++ [b; y] ++ w2) = (trim t, [], [[]]).
Proof.
  intros Hsep Hline Hfirst.
  assert (t ++ w1 ++ [b; y] ++ w2 = t ++ w1 ++ [b; y] ++ w2 ++ []) as Hs
    by (rewrite (app_nil_r w2); reflexivity).
  destruct (first_separator_first _ _ _ _ _ _ _ Hs Hsep Hline Hfirst)
    as (t' & g & Hfs & Ht & Hg).
  rewrite parse_recommendation_eq, Hfs, Ht, Hg. reflexivity.
Qed.

Lemma parse_recommendation_blank_author_witness :
  parse_recommendation (js "Dune by ") = (js "Dune", [], [[]]).
Proof.
  apply (parse_recommendation_blank_author (js "Dune") (js " ") 98 121 (js " ")).
  - repeat split; try discriminate; repeat constructor.
  - repeat constructor.
  - no_separator.
Defined.

(** ** Computations that do not touch the cache or the model *)

Lemma quiet_ret {A} (a : A) : quiet (ret a).
Proof. intros w. split; [reflexivity|]. exists []. rewrite app_nil_r. auto. Qed.

Lemma quiet_throw {A} (e : JsError) : quiet (@throw A e).
Proof. intros w. split; [reflexivity|]. exists []. rewrite app_nil_r. auto. Qed.

Lemma quiet_lift {A} (r : Result A) : quiet (lift r).
Proof. intros w. split; [reflexivity|]. exists []. rewrite app_nil_r. auto. Qed.

Lemma quiet_then (w w1 w2 : World) :
  (recommendationCache w1 = recommendationCache w /\
   exists extra, requests w1 = requests w ++ extra /\
                 forallb (fun r => negb (is_chat_request r)) extra = true) ->
  (recommendationCache w2 = recommendationCache w1 /\
   exists extra, requests w2 = requests w1 ++ extra /\
                 forallb (fun r => negb (is_chat_request r)) extra = true) ->
  recommendationCache w2 = recommendationCache w /\
  exists extra, requests w2 = requests w ++ extra /\
                forallb (fun r => negb (is_chat_request r)) extra = true.
Proof.
  intros (Hc1 & x1 & Hr1 & Hx1) (Hc2 & x2 & Hr2 & Hx2).
  split; [congruence|]. exists (x1 ++ x2).
  rewrite Hr2, Hr1, <- app_assoc, forallb_app, Hx1, Hx2. auto.
Qed.

Lemma quiet_bind {A B} (m : M A) (k : A -> M B) :
  quiet m -> (forall a, quiet (k a)) -> quiet (bind m k).
Proof.
  intros Hm Hk w. specialize (Hm w). unfold bind.
  destruct (m w) as [[a|e] w1]; cbn [snd] in Hm |- *; [|exact Hm].
  eapply quiet_then; [exact Hm | apply Hk].
Qed.

Lemma quiet_try_catch {A} (body : M A) (handler : JsError -> M A) :
  quiet body -> (forall e, quiet (handler e)) -> quiet (try_catch body handler).
Proof.
  intros Hm Hk w. specialize (Hm w). unfold try_catch.
  destruct (body w) as [[a|e] w1]; cbn [snd] in Hm |- *; [exact Hm|].
  eapply quiet_then; [exact Hm | apply Hk].
Qed.

Lemma quiet_axios {A} (net : Transport) (r : Request) (answer : World -> option A) :
  is_chat_request r = false -> quiet (axios net r answer).
Proof.
  intros Hr w. unfold axios.
  destruct (answer w); (split; [reflexivity|]); exists [r]; cbn; rewrite Hr; auto.
Qed.

Lemma quiet_Promise_all2 {A B} (t1 : M A) (t2 : M B) :
  quiet t1 -> quiet t2 -> quiet (Promise_all2 t1 t2).
Proof.
  intros H1 H2 w. specialize (H1 w). unfold Promise_all2.
  destruct (t1 w) as [r1 w1]. specialize (H2 w1). destruct (t2 w1) as [r2 w2].
  cbn [snd] in *. eapply quiet_then; eassumption.
Qed.

Lemma quiet_Promise_all {A} (tasks : list (M A)) :
  Forall quiet tasks -> quiet (Promise_all tasks).
Proof.
  induction 1 as [|t ts Ht _ IH]; intros w.
  - split; [reflexivity|]. exists []. rewrite app_nil_r. auto.
  - cbn [Promise_all]. specialize (Ht w). destruct (t w) as [r w1].
    specialize (IH w1). destruct (Promise_all ts w1) as [rs w2].
    cbn [snd] in *. eapply quiet_then; eassumption.
Qed.

Ltac quiet_steps :=
  repeat first
    [ apply quiet_ret | apply quiet_throw | apply quiet_lift
    | apply quiet_axios; reflexivity
    | apply quiet_try_catch | apply quiet_bind | apply quiet_Promise_all2
    | match goal with
      | |- forall _, _ => intro
      | |- quiet (match ?x with _ => _ end) => destruct x
      end ].

Section Quiet.

Context (net : Transport) (GOOGLE_API_KEY GOOGLE_CX : option jsstring).

Lemma quiet_fetchBookCoverFromOpenLibrary (t a : jsstring) :
  quiet (fetchBookCoverFromOpenLibrary net t a).
Proof. unfold fetchBookCoverFromOpenLibrary. cbv zeta. quiet_steps. Qed.

Lemma quiet_fetchBookCoverFromGoogleBooks (t a : jsstring) :
  quiet (fetchBookCoverFromGoogleBooks net t a).
Proof. unfold fetchBookCoverFromGoogleBooks. cbv zeta. quiet_steps. Qed.

Lemma quiet_fetchBookCover (t a : jsstring) : quiet (fetchBookCover net t a).
Proof.
  unfold fetchBookCover. apply quiet_bind; [apply quiet_fetchBookCoverFromOpenLibrary|].
  intros r1. apply quiet_bind.
  - destruct (negb (truthy r1)); [apply quiet_fetchBookCoverFromGoogleBooks | apply quiet_ret].
  - intros r2. quiet_steps.
Qed.

Lemma quiet_searchGoogleForPDF (t a : jsstring) :
  quiet (searchGoogleForPDF net GOOGLE_API_KEY GOOGLE_CX t a).
Proof. unfold searchGoogleForPDF. cbv zeta. quiet_steps. Qed.

Lemma quiet_convertAIRecommendationToBook (rec : json) (index : nat) (q : jsstring) :
  quiet (convertAIRecommendationToBook net GOOGLE_API_KEY GOOGLE_CX rec index q).
Proof.
  unfold convertAIRecommendationToBook. apply quiet_bind; [apply quiet_lift|].
  intros text. destruct (parse_recommendation text) as [[ttl authorString] authors].
  apply quiet_bind; [|intros urls; apply quiet_ret].
  apply quiet_Promise_all2; [apply quiet_searchGoogleForPDF | apply quiet_fetchBookCover].
Qed.

Lemma quiet_conversions (recs : list json) (q : jsstring) :
  quiet (Promise_all (conversions net GOOGLE_API_KEY GOOGLE_CX recs q)).
Proof.
  apply quiet_Promise_all. unfold conversions. apply Forall_imap.
  intros i rec. apply quiet_convertAIRecommendationToBook.
Qed.

End Quiet.

Lemma quiet_chat_requests {A} (m : M A) (w : World) :
  quiet m ->
  List.filter is_chat_request (requests (m w).2) = List.filter is_chat_request (requests w).
Proof.
  intros H. destruct (H w) as (_ & extra & -> & Hx).
  rewrite List.filter_app.
  assert (List.filter is_chat_request extra = []) as ->; [|apply app_nil_r].
  induction extra as [|x extra IH]; [reflexivity|].
  cbn in Hx |- *. apply andb_true_iff in Hx. destruct Hx as [Hx Hrest].
  destruct (is_chat_request x); [discriminate | auto].
Qed.

(** X19. Only the recommendation fetch writes the cache and talks to
    the model.  One call of [searchBooks] sends the model no request
    when a fresh cache entry answers the query and exactly one
    otherwise, however many recommendations are converted; and the
    cache after the search is the cache that the fetch left. *)
Theorem searchBooks_asks_model_once
    (net : Transport) (GOOGLE_API_KEY GOOGLE_CX AI_API_KEY : option jsstring)
    (q : jsstring) (w : World) :
  let w' := (searchBooks net GOOGLE_API_KEY GOOGLE_CX AI_API_KEY q w).2 in
  List.filter is_chat_request (requests w')
  = List.filter is_chat_request (requests w)
    ++ match cache_get (normalize q) w with
       | Some _ => []
       | None => [ChatCompletion (authorization AI_API_KEY) (user_content q)]
       end /\
  recommendationCache w'
  = recommendationCache (getAIRecommendations net AI_API_KEY q w).2.
Proof.
  cbv zeta.
  assert (List.filter is_chat_request
            (requests (getAIRecommendations net AI_API_KEY q w).2)
          = List.filter is_chat_request (requests w)
            ++ match cache_get (normalize q) w with
               | Some _ => []
               | None => [ChatCompletion (authorization AI_API_KEY) (user_content q)]
               end) as Hfetch.
  { destruct (cache_get (normalize q) w) as [v|] eqn:Hc.
    - rewrite (getAIRecommendations_hit net AI_API_KEY q w v Hc). cbn [snd].
      symmetry. apply app_nil_r.
    - rewrite (getAIRecommendations_asks net AI_API_KEY q w Hc), List.filter_app.
      reflexivity. }
  revert Hfetch. generalize (match cache_get (normalize q) w with
                             | Some _ => []
                             | None => [ChatCompletion (authorization AI_API_KEY) (user_content q)]
                             end).
  intros asked. unfold searchBooks, try_catch, bind, lift.
  destruct (getAIRecommendations net AI_API_KEY q w) as [[aiData|e] w1]; cbn [snd];
    [|intros <-; split; reflexivity].
  destruct (recommendations_of aiData) as [recs|e]; [|intros <-; split; reflexivity].
  intros <-.
  pose proof (quiet_conversions net GOOGLE_API_KEY GOOGLE_CX recs q) as Hq.
  pose proof (quiet_chat_requests _ w1 Hq) as Hreq. destruct (Hq w1) as [Hcache _].
  destruct (Promise_all (conversions net GOOGLE_API_KEY GOOGLE_CX recs q) w1) as [[l|e] w2];
    cbn [snd] in *; split; assumption.
Qed.

(** ** The books of a search result *)

Lemma digits_fuel_value (fuel : nat) (n : N) (acc : jsstring) :
  n < 10 ^ N.of_nat fuel ->
  exists d, digits_fuel fuel n acc = d ++ acc /\ parse_decimal d = n.
Proof.
  revert n acc. induction fuel as [|fuel IH]; intros n acc Hn.
  - exists []. split; [reflexivity|]. cbn in Hn. unfold parse_decimal. cbn. lia.
  - cbn [digits_fuel]. destruct (N.ltb_spec n 10) as [Hlt|Hge].
    + exists [48 + n mod 10]. split; [reflexivity|].
      unfold parse_decimal. cbn [fold_left]. rewrite (N.mod_small n 10 Hlt). lia.
    + rewrite Nat2N.inj_succ, N.pow_succ_r' in Hn.
      destruct (IH (n / 10) ((48 + n mod 10) :: acc)) as (d & Hd & Hv).
      { apply N.Div0.div_lt_upper_bound. exact Hn. }
      exists (d ++ [48 + n mod 10]). split; [rewrite Hd, <- app_assoc; reflexivity|].
      unfold parse_decimal in *. rewrite fold_left_app, Hv. cbn [fold_left].
      pose proof (N.Div0.div_mod n 10) as Hdm. clear - Hdm.
      revert Hdm. generalize (n / 10) (n mod 10). intros x y Hdm. lia.
Qed.

Lemma number_to_string_value (n : N) : parse_decimal (number_to_string n) = n.
Proof.
  unfold number_to_string.
  destruct (digits_fuel_value (S (N.to_nat (N.log2 n))) n []) as (d & Hd & Hv).
  { rewrite Nat2N.inj_succ, N2Nat.id.
    destruct (N.eq_0_gt_0_cases n) as [-> | Hpos]; [reflexivity|].
    pose proof (N.log2_spec n Hpos) as [_ Hup].
    pose proof (N.pow_le_mono_l 2 10 (N.succ (N.log2 n)) ltac:(lia)). lia. }
  rewrite Hd, app_nil_r. exact Hv.
Qed.

Lemma ai_id_inj (i j : nat) : ai_id i = ai_id j -> i = j.
Proof.
  unfold ai_id. intros H. apply app_inv_head in H.
  apply (f_equal parse_decimal) in H. rewrite !number_to_string_value in H. lia.
Qed.

Lemma NoDup_ai_ids (n len : nat) : NoDup (List.map ai_id (seq n len)).
Proof.
  revert n. induction len as [|len IH]; intros n; cbn [seq List.map]; constructor.
  - intros H. apply list_elem_of_In, in_map_iff in H. destruct H as (k & Hk & Hin).
    apply ai_id_inj in Hk. subst k. apply in_seq in Hin. lia.
  - apply IH.
Qed.

Lemma filter_partition_Permutation {A} (f : A -> bool) (l : list A) :
  Permutation (List.filter f l ++ List.filter (fun x => negb (f x)) l) l.
Proof.
  induction l as [|x l IH]; [constructor|].
  cbn [List.filter]. destruct (f x); cbn [negb app].
  - constructor. exact IH.
  - symmetry. apply Permutation_cons_app. symmetry. exact IH.
Qed.

Lemma parse_recommendation_author_nonempty (s : jsstring) :
  (parse_recommendation s).2 <> [].
Proof.
  rewrite parse_recommendation_eq. destruct (first_separator s) as [[t g]|]; [|discriminate].
  cbn [snd]. destruct (split_cons 44 (trim g)) as (p & ps & ->). discriminate.
Qed.

Section Books.

Context (net : Transport) (GOOGLE_API_KEY GOOGLE_CX AI_API_KEY : option jsstring).

Lemma searchGoogleForPDF_ok (t a : jsstring) (w : World) :
  exists r w',
    searchGoogleForPDF net GOOGLE_API_KEY GOOGLE_CX t a w = (Ok r, w') /\
    (r = None \/ truthy r = true).
Proof.
  destruct (truthy GOOGLE_API_KEY) eqn:Hk; [destruct (truthy GOOGLE_CX) eqn:Hc|].
  - rewrite (searchGoogleForPDF_configured _ _ _ _ _ _ Hk Hc). eexists _, _.
    split; [reflexivity|].
    destruct (get_customsearch _ _ _ _ _ _) as [found|]; [|auto].
    destruct (items found) as [[|i is']|]; auto. exact (scan_items_truthy (i :: is')).
  - rewrite searchGoogleForPDF_unconfigured by auto. eauto.
  - rewrite searchGoogleForPDF_unconfigured by auto. eauto.
Qed.

Lemma convert_cases (rec : json) (index : nat) (q : jsstring) (w : World) :
  match convertAIRecommendationToBook net GOOGLE_API_KEY GOOGLE_CX rec index q w with
  | (Ok book, w') =>
      is_string rec = true /\
      id book = ai_id index /\
      subjects book = [js "AI recommended for: " ++ q] /\
      isAIRecommendation book = true /\
      author book <> [] /\
      coverUrl book <> [] /\
      (downloadUrl book = None \/ truthy (downloadUrl book) = true)
  | (Throw e, w') =>
      (is_string rec = false /\ e = TypeError /\ w' = w) \/
      (is_string rec = true /\ e = URIError)
  end.
Proof.
  unfold convertAIRecommendationToBook, bind, lift.
  destruct rec as [| |n|s|l|m]; cbn [string_receiver is_string]; auto.
  pose proof (parse_recommendation_author_nonempty s) as Hauthor.
  destruct (parse_recommendation s) as [[ttl authorString] authors]. cbn [snd] in Hauthor.
  unfold Promise_all2, ret.
  destruct (searchGoogleForPDF_ok ttl authorString w) as (r1 & w1 & -> & Hr1).
  destruct (fetchBookCover_cases net ttl authorString w1)
    as [(url & w2 & -> & Hne & _) | (w2 & -> & _)]; cbn; auto 10.
Qed.

Lemma conversions_ids (q : jsstring) (recs : list json) :
  forall (n : nat) (w w' : World) (l : list Book),
    Promise_all
      (imap (fun i rec =>
               convertAIRecommendationToBook net GOOGLE_API_KEY GOOGLE_CX rec (n + i) q) recs) w
    = (Ok l, w') ->
    List.map id l = List.map ai_id (seq n (length recs)).
Proof.
  induction recs as [|rec recs IH]; intros n w w' l.
  - cbn. intros H. injection H as <- _. reflexivity.
  - rewrite imap_cons. cbn [Promise_all length seq List.map].
    pose proof (convert_cases rec (n + 0) q w) as Hc.
    destruct (convertAIRecommendationToBook _ _ _ rec (n + 0) q w) as [r w1].
    rewrite (imap_ext _
               (fun i rec0 =>
                  convertAIRecommendationToBook net GOOGLE_API_KEY GOOGLE_CX rec0 (S n + i) q)).
    2: { intros i x _. unfold compose. rewrite Nat.add_succ_r. reflexivity. }
    destruct (Promise_all _ w1) as [rs w2] eqn:Hrs.
    destruct r as [b|e]; [destruct rs as [l0|e]|]; intros H; try discriminate.
    injection H as <- _. cbn [List.map]. rewrite (IH _ _ _ _ Hrs).
    destruct Hc as (_ & -> & _). rewrite Nat.add_0_r. reflexivity.
Qed.

Lemma conversions_books (q : jsstring) (recs : list json) (w w' : World) (l : list Book) :
  Promise_all (conversions net GOOGLE_API_KEY GOOGLE_CX recs q) w = (Ok l, w') ->
  Forall (fun book =>
            subjects book = [js "AI recommended for: " ++ q] /\
            isAIRecommendation book = true /\
            author book <> [] /\
            coverUrl book <> [] /\
            (downloadUrl book = None \/ truthy (downloadUrl book) = true)) l.
Proof.
  apply Promise_all_Forall. unfold conversions. apply Forall_imap.
  intros i rec w0 w1 b H. pose proof (convert_cases rec i q w0) as Hc.
  rewrite H in Hc. tauto.
Qed.

Lemma Promise_all_throws {A} (tasks : list (M A)) :
  Exists (fun t => forall w, exists e w', t w = (Throw e, w')) tasks ->
  forall w, exists e w', Promise_all tasks w = (Throw e, w').
Proof.
  induction 1 as [t ts Ht | t ts _ IH]; intros w; cbn [Promise_all].
  - destruct (Ht w) as (e & w1 & ->). destruct (Promise_all ts w1) as [rs w2]. eauto.
  - destruct (t w) as [r w1]. destruct (IH w1) as (e & w2 & ->).
    destruct r; eauto.
Qed.

Lemma conversions_throw (q : jsstring) (recs : list json) (w : World) :
  Exists (fun rec => is_string rec = false) recs ->
  exists e w', Promise_all (conversions net GOOGLE_API_KEY GOOGLE_CX recs q) w = (Throw e, w').
Proof.
  intros H. apply Promise_all_throws. unfold conversions.
  enough (forall n, Exists (fun t : M Book => forall w0, exists e w', t w0 = (Throw e, w'))
                      (imap (fun i rec =>
                               convertAIRecommendationToBook net GOOGLE_API_KEY GOOGLE_CX
                                 rec (n + i) q) recs)) as Hn by (exact (Hn 0%nat)).
  induction H as [rec recs Hrec | rec recs _ IH]; intros n; rewrite imap_cons.
  - left. intros w0. pose proof (convert_cases rec (n + 0) q w0) as Hc.
    destruct (convertAIRecommendationToBook _ _ _ rec (n + 0) q w0) as [[b|e] w1]; [|eauto].
    destruct Hc as [Hs _]. congruence.
  - right.
    rewrite (imap_ext _
               (fun i rec0 =>
                  convertAIRecommendationToBook net GOOGLE_API_KEY GOOGLE_CX rec0 (S n + i) q)).
    + apply IH.
    + intros i x _. unfold compose. rewrite Nat.add_succ_r. reflexivity.
Qed.

Lemma searchBooks_cases (q : jsstring) (w : World) :
  exists r w',
    searchBooks net GOOGLE_API_KEY GOOGLE_CX AI_API_KEY q w = (Ok r, w') /\
    (r = failure_result q \/
     exists aiData recs aiBooks w1,
       recommendations_of aiData = Ok recs /\
       Promise_all (conversions net GOOGLE_API_KEY GOOGLE_CX recs q) w1 = (Ok aiBooks, w') /\
       books r = List.filter has_pdf aiBooks
                 ++ List.filter (fun book => negb (has_pdf book)) aiBooks /\
       totalResults r = length (books r) /\
       query r = q /\
       aiRecommendationsCount r = length aiBooks /\
       pdfFoundCount r = length (List.filter has_pdf aiBooks) /\
       booksWithoutPDFs r
       = Some (length (List.filter (fun book => negb (has_pdf book)) aiBooks))).
Proof.
  destruct (getAIRecommendations net AI_API_KEY q w) as [[aiData|e] w1] eqn:Hfetch.
  2: { rewrite (searchBooks_upstream_failure _ _ _ _ _ _ _ _ Hfetch). eauto. }
  destruct (recommendations_of aiData) as [recs|e] eqn:Hrecs.
  2: { unfold searchBooks, try_catch, bind, lift. rewrite Hfetch, Hrecs.
       eexists _, _. split; [reflexivity | left; reflexivity]. }
  destruct (Promise_all (conversions net GOOGLE_API_KEY GOOGLE_CX recs q) w1)
    as [[aiBooks|e] w2] eqn:Hall.
  2: { unfold searchBooks, try_catch, bind, lift. rewrite Hfetch, Hrecs, Hall.
       eexists _, _. split; [reflexivity | left; reflexivity]. }
  rewrite (searchBooks_success _ _ _ _ _ _ _ _ _ _ _ Hfetch Hrecs Hall).
  eexists _, _. split; [reflexivity|]. right. exists aiData, recs, aiBooks, w1.
  cbn. auto 10.
Qed.

End Books.

(** X15. The outcome of one conversion.  A recommendation that is not a
    string makes the converter throw a [TypeError] at once, before any
    request; for a string the only possible error is the [URIError] of
    the cover resolver.  A book that is returned carries the id
    [ai-rec-] followed by its index, the one subject naming the query,
    at least one author, a non-empty cover URL, and a download URL that
    is absent or non-empty. *)
Theorem convertAIRecommendationToBook_outcome
    (net : Transport) (GOOGLE_API_KEY GOOGLE_CX : option jsstring)
    (rec : json) (index : nat) (q : jsstring) (w : World) :
  match convertAIRecommendationToBook net GOOGLE_API_KEY GOOGLE_CX rec index q w with
  | (Ok book, w') =>
      is_string rec = true /\
      id book = ai_id index /\
      subjects book = [js "AI recommended for: " ++ q] /\
      isAIRecommendation book = true /\
      author book <> [] /\
      coverUrl book <> [] /\
      (downloadUrl book = None \/ truthy (downloadUrl book) = true)
  | (Throw e, w') =>
      (is_string rec = false /\ e = TypeError /\ w' = w) \/
      (is_string rec = true /\ e = URIError)
  end.
Proof. apply convert_cases. Qed.

(** X16. One recommendation that is not a string discards the whole
    search: when the list of recommendations holds a value that is not
    a string, [searchBooks] returns the empty result of a failed
    search, whatever the other recommendations are. *)
Theorem searchBooks_rejects_non_string
    (net : Transport) (GOOGLE_API_KEY GOOGLE_CX AI_API_KEY : option jsstring)
    (q : jsstring) (w w1 : World) (aiData : json) (recs : list json) :
  getAIRecommendations net AI_API_KEY q w = (Ok aiData, w1) ->
  recommendations_of aiData = Ok recs ->
  Exists (fun rec => is_string rec = false) recs ->
  (searchBooks net GOOGLE_API_KEY GOOGLE_CX AI_API_KEY q w).1 = Ok (failure_result q).
Proof.
  intros Hfetch Hrecs Hbad.
  destruct (conversions_throw net GOOGLE_API_KEY GOOGLE_CX q recs w1 Hbad) as (e & w2 & Hall).
  unfold searchBooks, try_catch, bind, lift. rewrite Hfetch, Hrecs, Hall. reflexivity.
Qed.

Lemma searchBooks_rejects_non_string_witness :
  (searchBooks (model_replies mixed_reply) None None None (js "emma") empty_world).1
  = Ok (failure_result (js "emma")).
Proof.
  eapply (searchBooks_rejects_non_string (model_replies mixed_reply) None None None
            (js "emma") empty_world _ _ [JNull; JStr (js "Emma by Jane Austen")]).
  - vm_compute. reflexivity.
  - reflexivity.
  - left. reflexivity.
Defined.

(** X17. The ids of the books of a search result are pairwise distinct,
    and each is [ai-rec-] followed by a number below the number of
    recommendations. *)
Theorem searchBooks_ids_distinct
    (net : Transport) (GOOGLE_API_KEY GOOGLE_CX AI_API_KEY : option jsstring)
    (q : jsstring) (w : World) :
  exists r w',
    searchBooks net GOOGLE_API_KEY GOOGLE_CX AI_API_KEY q w = (Ok r, w') /\
    NoDup (List.map id (books r)) /\
    Forall (fun book => exists k, (k < aiRecommendationsCount r)%nat /\ id book = ai_id k)
           (books r).
Proof.
  destruct (searchBooks_cases net GOOGLE_API_KEY GOOGLE_CX AI_API_KEY q w)
    as (r & w' & Hr & [-> | (aiData & recs & aiBooks & w1 & _ & Hall & Hb & _ & _ & Hn & _)]).
  { exists (failure_result q), w'. split; [exact Hr|]. split; constructor. }
  exists r, w'. split; [exact Hr|].
  pose proof (conversions_ids net GOOGLE_API_KEY GOOGLE_CX q recs 0 w1 w' aiBooks Hall) as Hids.
  pose proof (Promise_all_length _ _ _ _ Hall) as Hlen.
  unfold conversions in Hlen. rewrite length_imap in Hlen.
  pose proof (filter_partition_Permutation has_pdf aiBooks) as Hperm. rewrite <- Hb in Hperm.
  split.
  - rewrite (Permutation_map id Hperm), Hids. apply NoDup_ai_ids.
  - rewrite Hn, Hlen. apply List.Forall_forall. intros b Hin.
    apply (Permutation_in _ Hperm) in Hin. apply (in_map id) in Hin.
    rewrite Hids in Hin. apply in_map_iff in Hin. destruct Hin as (k & Hk & Hin).
    apply in_seq in Hin. exists k. split; [lia | auto].
Qed.

(** X18. Every result of [searchBooks], of a failed search as of a
    successful one, echoes the query, counts its own books in
    [totalResults] and [aiRecommendationsCount], and lists the books
    with a PDF first: the book at position [k] has a download URL
    exactly when [k] is below [pdfFoundCount].  When the number of
    books without a PDF is present, the two counts add up to the
    total. *)
Theorem searchBooks_result_invariant
    (net : Transport) (GOOGLE_API_KEY GOOGLE_CX AI_API_KEY : option jsstring)
    (q : jsstring) (w : World) :
  exists r w',
    searchBooks net GOOGLE_API_KEY GOOGLE_CX AI_API_KEY q w = (Ok r, w') /\
    query r = q /\
    totalResults r = length (books r) /\
    aiRecommendationsCount r = length (books r) /\
    (forall k book, books r !! k = Some book ->
                    (has_pdf book = true <-> (k < pdfFoundCount r)%nat)) /\
    (forall n, booksWithoutPDFs r = Some n -> (pdfFoundCount r + n)%nat = totalResults r).
Proof.
  destruct (searchBooks_cases net GOOGLE_API_KEY GOOGLE_CX AI_API_KEY q w)
    as (r & w' & Hr & [-> | (aiData & recs & aiBooks & w1 & _ & _ & Hb & Ht & Hq & Hn & Hp & Hwo)]).
  { exists (failure_result q), w'. split; [exact Hr|]. cbn.
    repeat split; try discriminate; intros; discriminate. }
  exists r, w'. split; [exact Hr|]. split; [exact Hq|]. split; [exact Ht|].
  assert (length (books r) = length aiBooks) as Hlen.
  { rewrite Hb. apply Permutation_length, filter_partition_Permutation. }
  split; [congruence|]. split.
  - intros k b Hk. rewrite Hp, Hb in *.
    destruct (Nat.lt_ge_cases k (length (List.filter has_pdf aiBooks))) as [Hlt|Hge].
    + rewrite lookup_app_l in Hk by exact Hlt. apply list_elem_of_lookup_2 in Hk.
      apply list_elem_of_In, filter_In in Hk. tauto.
    + rewrite lookup_app_r in Hk by exact Hge. apply list_elem_of_lookup_2 in Hk.
      apply list_elem_of_In, filter_In in Hk. destruct Hk as [_ Hk].
      apply negb_true_iff in Hk. rewrite Hk. split; [discriminate | lia].
  - intros n Hsome. rewrite Hwo in Hsome. injection Hsome as <-.
    rewrite Hp, Ht, Hb, length_app. reflexivity.
Qed.

(** X22. Every book of every search result is marked as an AI
    recommendation for the query, has at least one author and a
    non-empty cover URL, and has a download URL that is absent or
    non-empty. *)
Theorem searchBooks_books_complete
    (net : Transport) (GOOGLE_API_KEY GOOGLE_CX AI_API_KEY : option jsstring)
    (q : jsstring) (w : World) :
  exists r w',
    searchBooks net GOOGLE_API_KEY GOOGLE_CX AI_API_KEY q w = (Ok r, w') /\
    Forall (fun book =>
              subjects book = [js "AI recommended for: " ++ q] /\
              isAIRecommendation book = true /\
              author book <> [] /\
              coverUrl book <> [] /\
              (downloadUrl book = None \/ truthy (downloadUrl book) = true)) (books r).
Proof.
  destruct (searchBooks_cases net GOOGLE_API_KEY GOOGLE_CX AI_API_KEY q w)
    as (r & w' & Hr & [-> | (aiData & recs & aiBooks & w1 & _ & Hall & Hb & _)]).
  { exists (failure_result q), w'. split; [exact Hr | constructor]. }
  exists r, w'. split; [exact Hr|].
  pose proof (conversions_books net GOOGLE_API_KEY GOOGLE_CX q recs w1 w' aiBooks Hall) as Hall'.
  rewrite Hb. apply Forall_app. split; apply List.Forall_forall; intros b Hin;
    apply filter_In in Hin; destruct Hin as [Hin _];
    exact (proj1 (List.Forall_forall _ _) Hall' b Hin).
Qed.

(** * The service with concurrent models and a fallback *)

(** X23. [generateSearchTerms] and [generateAcademicSearchTerms] return
    exactly three terms: the query as it was given, and the first two
    of the three terms of the branch taken; the third term of every
    branch is cut off by the limit of three. *)
Theorem generateSearchTerms_three (q : jsstring) :
  (exists t1 t2,
     Concurrent.generateSearchTerms q = [q; t1; t2] /\
     In (t1, t2) [(js "uplifting books", js "mental health");
                  (js "self-help", js "personal development");
                  (js "contemporary romance", js "love stories");
                  (js "epic fantasy", js "sword and sorcery");
                  (js "popular fiction", js "bestsellers")]) /\
  (exists t1 t2,
     Academic.generateAcademicSearchTerms q = [q; t1; t2] /\
     In (t1, t2) [(js "psychological research", js "cognitive science");
                  (js "computer science textbooks", js "software engineering");
                  (js "business administration", js "economic theory");
                  (js "historical analysis", js "historiography");
                  (js "literary criticism", js "comparative literature");
                  (js "philosophical inquiry", js "ethics and moral philosophy");
                  (js "scientific methodology", js "research methods");
                  (js "mathematical analysis", js "applied mathematics");
                  (js "academic textbooks", js "scholarly publications")]).
Proof.
  split.
  - unfold Concurrent.generateSearchTerms. cbv zeta.
    repeat match goal with
           | |- context [if ?c then _ else _] => destruct c
           end;
      eexists _, _; (split; [reflexivity|]); cbn [In]; tauto.
  - unfold Academic.generateAcademicSearchTerms. cbv zeta.
    repeat match goal with
           | |- context [if ?c then _ else _] => destruct c
           end;
      eexists _, _; (split; [reflexivity|]); cbn [In]; tauto.
Qed.

Lemma getFallbackRecommendations_table (q : jsstring) :
  In (Concurrent.getFallbackRecommendations q)
     [[js "The Midnight Library by Matt Haig";
       js "Reasons to Stay Alive by Matt Haig";
       js "The Book of Joy by Dalai Lama and Desmond Tutu"];
      [js "The Anxiety and Phobia Workbook by Edmund Bourne";
       js "Dare by Barry McDonagh";
       js "The Power of Now by Eckhart Tolle"];
      [js "Atomic Habits by James Clear";
       js "The 7 Habits of Highly Effective People by Stephen Covey";
       js "Man's Search for Meaning by Viktor Frankl"];
      [js "Pride and Prejudice by Jane Austen";
       js "The Seven Husbands of Evelyn Hugo by Taylor Jenkins Reid";
       js "Me Before You by Jojo Moyes"];
      [js "The Name of the Wind by Patrick Rothfuss";
       js "The Way of Kings by Brandon Sanderson";
       js "The Hobbit by J.R.R. Tolkien"];
      [js "The Alchemist by Paulo Coelho";
       js "Educated by Tara Westover";
       js "The Seven Habits of Highly Effective People by Stephen Covey"]].
Proof.
  unfold Concurrent.getFallbackRecommendations. cbv zeta.
  repeat match goal with
         | |- context [if ?c then _ else _] => destruct c
         end; cbn [In]; tauto.
Qed.

(** X24. Whatever the query, [getFallbackRecommendations] returns three
    recommendations, and each of them is in the form that the converter
    reads: the pattern of [convertAIRecommendationToBook] splits it at
    its one by-separator into a non-empty title and one non-empty
    author. *)
Theorem getFallbackRecommendations_readable (q : jsstring) :
  length (Concurrent.getFallbackRecommendations q) = 3%nat /\
  Forall (fun r =>
            let '(t, authorString, author) := parse_recommendation r in
            r = t ++ js " by " ++ authorString /\ author = [authorString] /\
            t <> [] /\ authorString <> [])
         (Concurrent.getFallbackRecommendations q).
Proof.
  pose proof (getFallbackRecommendations_table q) as H. cbn [In] in H.
  repeat (destruct H as [<- | H]; [split; [reflexivity|];
    repeat (constructor; [vm_compute; repeat split; discriminate|]); constructor|]).
  destruct H.
Qed.

Lemma forallb_is_string (l : list jsstring) : forallb is_string (List.map JStr l) = true.
Proof. induction l as [|s l IH]; [reflexivity | exact IH]. Qed.

Section Fallback.

Context (tryModelsWithTimeout : jsstring -> Z -> M json).

Lemma concurrent_cases (q : jsstring) (w : World) :
  match cache_get (normalize q) w with
  | Some v => Concurrent.getAIRecommendations tryModelsWithTimeout q w = (Ok v, w)
  | None =>
      match tryModelsWithTimeout q 6000%Z w with
      | (Ok v, w1) =>
          Concurrent.getAIRecommendations tryModelsWithTimeout q w
          = (Ok v, (cache_set (normalize q) v w1).2)
      | (Throw e, w1) =>
          Concurrent.getAIRecommendations tryModelsWithTimeout q w
          = (Ok (Concurrent.fallback q), w1)
      end
  end.
Proof.
  unfold Concurrent.getAIRecommendations, normalize. cbv zeta.
  destruct (cache_get (trim (toLowerCase q)) w); [reflexivity|].
  unfold try_catch, bind.
  destruct (tryModelsWithTimeout q 6000%Z w) as [[v|e] w1]; reflexivity.
Qed.

End Fallback.

(** X25. The service with a fallback never throws, whatever the race
    among the models does.  When no fresh cache entry answers the query
    and the race fails, the result is the fallback object, which has
    the shape of a recommendation with three recommended books; it is
    not written to the cache, which stays as the race left it. *)
Theorem getAIRecommendations_fallback
    (tryModelsWithTimeout : jsstring -> Z -> M json) (q : jsstring) (w : World) :
  (exists v w', Concurrent.getAIRecommendations tryModelsWithTimeout q w = (Ok v, w')) /\
  (forall e w1,
     cache_get (normalize q) w = None ->
     tryModelsWithTimeout q 6000%Z w = (Throw e, w1) ->
     Concurrent.getAIRecommendations tryModelsWithTimeout q w
     = (Ok (Concurrent.fallback q), w1) /\
     is_recommendation (Concurrent.fallback q) = true /\
     exists r1 r2 r3,
       recommendations_of (Concurrent.fallback q) = Ok [JStr r1; JStr r2; JStr r3]).
Proof.
  pose proof (concurrent_cases tryModelsWithTimeout q w) as H. split.
  - destruct (cache_get (normalize q) w); [eauto|].
    destruct (tryModelsWithTimeout q 6000%Z w) as [[v|e] w1]; eauto.
  - intros e w1 Hmiss Hrace. rewrite Hmiss, Hrace in H. split; [exact H|]. split.
    + unfold is_recommendation, Concurrent.fallback.
      change (property (js "enhancedQuery") _) with (Some (JStr q)).
      change (property (js "recommendations")
                (JObj [(js "enhancedQuery", JStr q);
                       (js "recommendations",
                        JArr (List.map JStr (Concurrent.getFallbackRecommendations q)));
                       (js "searchTerms",
                        JArr (List.map JStr (Concurrent.generateSearchTerms q)))]))
        with (Some (JArr (List.map JStr (Concurrent.getFallbackRecommendations q)))).
      change (property (js "searchTerms")
                (JObj [(js "enhancedQuery", JStr q);
                       (js "recommendations",
                        JArr (List.map JStr (Concurrent.getFallbackRecommendations q)));
                       (js "searchTerms",
                        JArr (List.map JStr (Concurrent.generateSearchTerms q)))]))
        with (Some (JArr (List.map JStr (Concurrent.generateSearchTerms q)))).
      cbn [is_string_list]. rewrite !forallb_is_string. reflexivity.
    + unfold Concurrent.fallback.
      change (recommendations_of _)
        with (Ok (A := list json) (List.map JStr (Concurrent.getFallbackRecommendations q))).
      pose proof (getFallbackRecommendations_table q) as Ht. cbn [In] in Ht.
      repeat (destruct Ht as [<- | Ht]; [eexists _, _, _; reflexivity|]). destruct Ht.
Qed.

Lemma getAIRecommendations_fallback_witness :
  Concurrent.getAIRecommendations all_models_fail (js "a sad day") empty_world
  = (Ok (Concurrent.fallback (js "a sad day")),
     {| clock := 1000; recommendationCache := ∅; requests := [] |}).
Proof.
  apply (proj2 (getAIRecommendations_fallback all_models_fail (js "a sad day") empty_world)
           (Error (js "All models failed"))); reflexivity.
Defined.
